(** * Records-to-tree converter: a shallow embedding of
    [converter/records_to_tree_converter.py] and its properties.

    Python values are an inductive type, the [anytree] nodes live in an
    arena indexed by node identifiers, and the methods of
    [RecordsToTreeConverter] are computations in a state-and-exception
    monad in which a raised exception keeps the mutations made so far. *)

From Stdlib Require Import ZArith Ascii String List Bool Lia DecimalString.
From stdpp Require Import base list strings numbers.

Local Open Scope string_scope.
Local Open Scope list_scope.
Set Warnings "-register-all".

(** ** Python values *)

(** The values [json.loads] produces, and the nested dictionary
    [export_tree] hands to [json.dumps].  A dictionary is an association
    list in insertion order; its keys are values because [_export_layer]
    uses node labels (arbitrary record values) as keys.  Numbers are the
    integers; characters are the code points below 256.  The
    floating-point numbers that [json.loads] also returns are not among
    the values: what is proved here is proved of inputs without them,
    and a statement that concludes an equality ([==]) of a label and a
    value of a record says so only of strings, integers, booleans and
    [None], for which [==] is reflexive. *)
Inductive value : Type :=
| PNone
| PBool (b : bool)
| PInt (z : Z)
| PStr (s : string)
| PList (xs : list value)
| PDict (items : list (value * value)).

Definition bool_to_Z (b : bool) : Z := if b then 1%Z else 0%Z.

(** [a == b] of Python: [True == 1], lists are compared element by
    element, dictionaries regardless of the order of their items. *)
Fixpoint py_eq (a b : value) {struct a} : bool :=
  match a, b with
  | PNone, PNone => true
  | PBool x, PBool y => Bool.eqb x y
  | PBool x, PInt y => Z.eqb (bool_to_Z x) y
  | PInt x, PBool y => Z.eqb x (bool_to_Z y)
  | PInt x, PInt y => Z.eqb x y
  | PStr x, PStr y => String.eqb x y
  | PList xs, PList ys =>
      (fix eq_list (l1 l2 : list value) {struct l1} : bool :=
         match l1, l2 with
         | [], [] => true
         | x :: l1', y :: l2' => py_eq x y && eq_list l1' l2'
         | _, _ => false
         end) xs ys
  | PDict xs, PDict ys =>
      Nat.eqb (length xs) (length ys) &&
      (fix eq_items (l1 : list (value * value)) {struct l1} : bool :=
         match l1 with
         | [] => true
         | (k, v) :: l1' =>
             (fix find (l2 : list (value * value)) : bool :=
                match l2 with
                | [] => false
                | (k', v') :: l2' => if py_eq k k' then py_eq v v' else find l2'
                end) ys && eq_items l1'
         end) xs
  | _, _ => false
  end.

(** Truth value of an object: [None], [False], [0] and the empty string,
    list and dictionary are false. *)
Definition truthy (v : value) : bool :=
  match v with
  | PNone => false
  | PBool b => b
  | PInt z => negb (Z.eqb z 0)
  | PStr s => negb (String.eqb s "")
  | PList xs => match xs with [] => false | _ => true end
  | PDict items => match items with [] => false | _ => true end
  end.

(** [isinstance(v, list)] and [isinstance(v, dict)]. *)
Definition is_list (v : value) : bool :=
  match v with PList _ => true | _ => false end.
Definition is_dict (v : value) : bool :=
  match v with PDict _ => true | _ => false end.

(** Objects that can be dictionary keys or set elements. *)
Definition hashable (v : value) : bool :=
  match v with PList _ | PDict _ => false | _ => true end.

(** ** Dictionaries *)

Definition dict := list (value * value).

Fixpoint dict_get (d : dict) (k : value) : option value :=
  match d with
  | [] => None
  | (k', v) :: d' => if py_eq k' k then Some v else dict_get d' k
  end.

(** [d[k] = v]: an existing key keeps its position (and its key object),
    a new key goes last. *)
Fixpoint dict_set (d : dict) (k v : value) : dict :=
  match d with
  | [] => [(k, v)]
  | (k', v') :: d' =>
      if py_eq k' k then (k', v) :: d' else (k', v') :: dict_set d' k v
  end.

Definition dict_keys (d : dict) : list value := map fst d.
Definition dict_values (d : dict) : list value := map snd d.

Definition has_key (d : dict) (k : value) : bool :=
  existsb (fun k' => py_eq k' k) (dict_keys d).

(** ** Exceptions *)

(** Where [_build_branch] found the duplicate: among the children
    (line 104) or at the last level (line 106). *)
Inductive duplicate_site := InChildren | AtLeaf.

(** The classes of [records_to_tree_exceptions.py] with the arguments the
    converter raises them with, and the built-in exceptions its
    statements can raise.  The two duplicate messages embed
    [record.values()], kept here as the list of values. *)
Inductive exception : Type :=
| DataAttributeMissingError (msg : string)
| InvalidDataStructureError (msg : string)
| DuplicateNodesFoundError (site : duplicate_site) (record_values : list value)
| MissingNodeError
| MissingRecordError
| MissingNestingLevelsError (msg : string)
| BranchDoesNotExist
| NoTreeCreatedError (msg : string)
| JSONDecodeError
| KeyError (key : value)
| TypeError
| AttributeError
| RecursionError.

Inductive result (A : Type) : Type :=
| Ok (a : A)
| Raise (e : exception).
Arguments Ok {A} a.
Arguments Raise {A} e.

(** ** The heap of tree nodes *)

Abbreviation node_id := nat.

(** An [anytree.Node]: [name], [parent], [children] in insertion order,
    and the attribute [values] that [create_tree] sets on leaves
    ([None] while the attribute does not exist). *)
Record Node : Type := mkNode {
  name : value;
  parent : option node_id;
  children : list node_id;
  values : option value
}.

Abbreviation heap := (list Node).

(** What a computation can change: the nodes and the lines written to
    [sys.stderr], each kept as the record values it reports. *)
Record world : Type := mkWorld {
  nodes : heap;
  stderr : list (list value)
}.

Definition dummy_node : Node := mkNode PNone None [] None.

Definition get_node (h : heap) (n : node_id) : Node :=
  match h !! n with
  | Some nd => nd
  | None => dummy_node
  end.

Definition node_name (h : heap) (n : node_id) : value := name (get_node h n).
Definition node_children (h : heap) (n : node_id) : list node_id :=
  children (get_node h n).
Definition node_values (h : heap) (n : node_id) : option value :=
  values (get_node h n).

(** [node.is_leaf]: a node without children. *)
Definition is_leaf (h : heap) (n : node_id) : bool :=
  match node_children h n with [] => true | _ => false end.

(** ** The monad *)

Definition M (A : Type) : Type := world -> result A * world.

Definition ret {A} (a : A) : M A := fun w => (Ok a, w).
Definition raise {A} (e : exception) : M A := fun w => (Raise e, w).
Definition bind {A B} (m : M A) (k : A -> M B) : M B :=
  fun w =>
    match m w with
    | (Ok a, w') => k a w'
    | (Raise e, w') => (Raise e, w')
    end.
Definition lift {A} (r : result A) : M A := fun w => (r, w).
Definition get_heap : M heap := fun w => (Ok (nodes w), w).

Notation "x <- m ;; k" := (bind m (fun x => k))
  (at level 100, m at next level, right associativity).
Notation "m ;;; k" := (bind m (fun _ => k))
  (at level 100, right associativity).

(** [Node(label, parent=p)]: the new node gets the next identifier and is
    appended to the children of [p]. *)
Definition new_node (label : value) (p : option node_id) : M node_id :=
  fun w =>
    let h := nodes w in
    let n := length h in
    let h1 := h ++ [mkNode label p [] None] in
    let h2 :=
      match p with
      | None => h1
      | Some q =>
          let pn := get_node h1 q in
          <[q := mkNode (name pn) (parent pn) (children pn ++ [n]) (values pn)]> h1
      end in
    (Ok n, mkWorld h2 (stderr w)).

(** [node.values = v]. *)
Definition set_values (n : node_id) (v : value) : M unit :=
  fun w =>
    let nd := get_node (nodes w) n in
    (Ok tt, mkWorld (<[n := mkNode (name nd) (parent nd) (children nd) (Some v)]> (nodes w))
                    (stderr w)).

Definition write_stderr (vals : list value) : M unit :=
  fun w => (Ok tt, mkWorld (nodes w) (stderr w ++ [vals])).

(** ** The converter *)

(** The fields of an instance: [nesting_levels] and [root_node].  Neither
    is reassigned after [__init__]; the tree below the root is in the
    heap. *)
Record RecordsToTreeConverter : Type := mkConverter {
  nesting_levels : list string;
  root_node : node_id
}.

(** [__init__]. *)
Definition init (levels : list string) : M RecordsToTreeConverter :=
  root <- new_node (PStr "root") None ;;
  ret (mkConverter levels root).

Definition empty_world : world := mkWorld [] [].

(** Decimal numerals, as [str(n)] prints them. *)
Definition str_of_nat (n : nat) : string :=
  NilZero.string_of_uint (Nat.to_uint n).
Definition str_of_Z (z : Z) : string :=
  NilZero.string_of_int (Z.to_int z).

(** [set(self.nesting_levels) - record.keys()] is non-empty. *)
Definition missing_elements (levels : list string) (record : dict) : bool :=
  existsb (fun l => negb (has_key record (PStr l))) levels.

Definition record_items (record : value) : dict :=
  match record with PDict items => items | _ => [] end.

(** The loop of lines 55-59 over the remaining records, [missing_count]
    being the counter. *)
Fixpoint count_missing (levels : list string) (records : list value)
    (missing_count : nat) : M nat :=
  match records with
  | [] => ret missing_count
  | record :: rest =>
      if missing_elements levels (record_items record)
      then write_stderr (dict_values (record_items record)) ;;;
           count_missing levels rest (S missing_count)
      else count_missing levels rest missing_count
  end.

Definition _validate_input_data (self : RecordsToTreeConverter)
    (input_data : value) : M bool :=
  let is_input_data_valid := true in
  let is_input_data_a_list := is_list input_data in
  let input_data_contains_only_dicts :=
    match input_data with
    | PList records => forallb is_dict records
    | _ => true
    end in
  if negb (truthy input_data && is_input_data_a_list && input_data_contains_only_dicts)
  then raise (InvalidDataStructureError
                "Input data should be a non-empty list of dictionaries.")
  else
    missing_count <-
      count_missing (nesting_levels self)
        (match input_data with PList records => records | _ => [] end) 0 ;;
    if negb (Nat.eqb missing_count 0)
    then raise (DataAttributeMissingError
                  ("Key elements were missing in " ++ str_of_nat missing_count
                   ++ " records")%string)
    else ret is_input_data_valid.

(** [record[key]]: [KeyError] on a dictionary without the key,
    [TypeError] on an object that is no dictionary. *)
Definition getitem (record : value) (key : value) : result value :=
  match record with
  | PDict items =>
      match dict_get items key with
      | Some v => Ok v
      | None => Raise (KeyError key)
      end
  | _ => Raise TypeError
  end.

(** [[node for node in current_node.children if node.name == next_level]]. *)
Definition existing_children (h : heap) (current_node : node_id)
    (next_level : value) : list node_id :=
  filter (fun n => py_eq (node_name h n) next_level = true)
         (node_children h current_node).

(** [_build_branch] on a list of remaining levels.  [pop(0)] takes the
    head off the caller's list, so the recursive call and the test of
    line 105 see the tail. *)
Fixpoint build_branch_levels (self : RecordsToTreeConverter)
    (remaining_nesting_levels : list string) (current_node : option node_id)
    (record : value) : M node_id :=
  match current_node with
  | None => raise MissingNodeError
  | Some current =>
      if negb (truthy record) then raise MissingRecordError
      else
        match remaining_nesting_levels with
        | level :: remaining =>
            next_level <- lift (getitem record (PStr level)) ;;
            h <- get_heap ;;
            let existing_nodes := existing_children h current next_level in
            if Nat.ltb 1 (length existing_nodes)
            then raise (DuplicateNodesFoundError InChildren
                          (dict_values (record_items record)))
            else if negb (Nat.eqb (length existing_nodes) 0)
                    && Nat.eqb (length remaining) 0
            then raise (DuplicateNodesFoundError AtLeaf
                          (dict_values (record_items record)))
            else
              next_node <-
                match existing_nodes with
                | n :: _ => ret n
                | [] => new_node next_level (Some current)
                end ;;
              build_branch_levels self remaining (Some next_node) record
        | [] =>
            if Nat.eqb current (root_node self)
            then raise (MissingNestingLevelsError
                          "Cannot build tree branch without nesting levels.")
            else ret current
        end
  end.

(** [_build_branch]: [remaining_nesting_levels] may be [None]. *)
Definition _build_branch (self : RecordsToTreeConverter)
    (remaining_nesting_levels : option (list string))
    (current_node : option node_id) (record : value) : M node_id :=
  match remaining_nesting_levels with
  | Some levels => build_branch_levels self levels current_node record
  | None =>
      match current_node with
      | None => raise MissingNodeError
      | Some current =>
          if negb (truthy record) then raise MissingRecordError
          else raise (MissingNestingLevelsError
                        "Cannot build tree branch without nesting levels.")
      end
  end.

(** [record.keys() ^ set(self.nesting_levels)]: the keys of the record
    that are no nesting level, and the nesting levels that are no key.
    Python iterates the resulting set in an unspecified order; the model
    takes the order of the record, then that of the levels. *)
Definition remaining_keys (record : dict) (levels : list string) : list value :=
  filter (fun k => existsb (fun l => py_eq k (PStr l)) levels = false)
         (dict_keys record)
  ++ map PStr (filter (fun l => has_key record (PStr l) = false)
                      (remove_dups levels)).

(** [{k: record[k] for k in keys}], filled from the left. *)
Fixpoint restrict_record (record : value) (keys : list value) (acc : dict)
    : result dict :=
  match keys with
  | [] => Ok acc
  | k :: rest =>
      match getitem record k with
      | Ok v => restrict_record record rest (dict_set acc k v)
      | Raise e => Raise e
      end
  end.

(** The body of the loop of [create_tree] (lines 77-79). *)
Definition attach_record (self : RecordsToTreeConverter) (record : value)
    : M unit :=
  leaf_node <- _build_branch self (Some (nesting_levels self))
                 (Some (root_node self)) record ;;
  match record with
  | PDict items =>
      let keys := remaining_keys items (nesting_levels self) in
      payload <- lift (restrict_record record keys []) ;;
      set_values leaf_node (PList [PDict payload])
  | _ => raise AttributeError
  end.

Fixpoint attach_records (self : RecordsToTreeConverter) (records : list value)
    : M unit :=
  match records with
  | [] => ret tt
  | record :: rest => attach_record self record ;;; attach_records self rest
  end.

Section Decoder.

(** [json.loads], the decoder of the standard library: the value a text
    denotes, or [JSONDecodeError]. *)
Variable json_loads : string -> result value.

Definition create_tree (self : RecordsToTreeConverter) (input_data : string)
    : M unit :=
  loaded_data <- lift (json_loads input_data) ;;
  valid <- _validate_input_data self loaded_data ;;
  if (valid : bool)
  then attach_records self
         (match loaded_data with PList records => records | _ => [] end)
  else ret tt.

End Decoder.

(** ** Export *)

(** [current_dict.update({key: {} for key in layer_keys})]. *)
Definition add_placeholders (current_dict : dict) (layer_keys : list value)
    : dict :=
  fold_left (fun d key => dict_set d key (PDict [])) layer_keys current_dict.

(** The loop of lines 152-155.  [export] is the recursive call.  A child
    is exported into the placeholder stored under its name, which the
    call updates in place: the placeholder as the call leaves it is
    stored back before line 154 is evaluated. *)
Fixpoint export_children (export : node_id -> value -> result (value * value))
    (h : heap) (cs : list node_id) (d : dict) : result dict :=
  match cs with
  | [] => Ok d
  | child_node :: cs' =>
      match dict_get d (node_name h child_node) with
      | None => Raise (KeyError (node_name h child_node))
      | Some sub =>
          match export child_node sub with
          | Raise e => Raise e
          | Ok (values, sub') =>
              let d1 := dict_set d (node_name h child_node) sub' in
              export_children export h cs'
                (if truthy values
                 then dict_set d1 (node_name h child_node) values
                 else d1)
          end
      end
  end.

(** [_export_layer]: the value returned ([PNone] where the function falls
    off its end) and [current_dict] after the call, which updates the
    dictionary it is given in place.  [fuel] bounds the nesting of
    calls. *)
Fixpoint _export_layer (fuel : nat) (h : heap) (current_node : node_id)
    (current_dict : value) : result (value * value) :=
  match fuel with
  | O => Raise RecursionError
  | S fuel' =>
      if is_leaf h current_node then
        match node_values h current_node with
        | Some v => Ok (v, current_dict)
        | None => Raise AttributeError
        end
      else
        let layer_keys := map (node_name h) (node_children h current_node) in
        match current_dict with
        | PDict d =>
            if negb (forallb hashable layer_keys) then Raise TypeError
            else
              match export_children (_export_layer fuel' h) h
                      (node_children h current_node)
                      (add_placeholders d layer_keys) with
              | Ok d' => Ok (PNone, PDict d')
              | Raise e => Raise e
              end
        | _ => Raise AttributeError
        end
  end.

(** ** [json.dumps(obj, sort_keys=True, indent=2)] *)

(** What the encoder emits: scalars already rendered, arrays, and
    objects whose members are in the order of emission with their keys
    converted to strings. *)
Inductive doc : Type :=
| DAtom (text : string)
| DArr (elems : list doc)
| DObj (members : list (string * doc)).

Definition quote_char : ascii := "034"%char.
Definition backslash : ascii := "092"%char.
Definition newline : ascii := "010"%char.

Definition hex_digit (n : nat) : ascii :=
  nth n ["0"; "1"; "2"; "3"; "4"; "5"; "6"; "7"; "8"; "9";
         "a"; "b"; "c"; "d"; "e"; "f"]%char "0"%char.

(** One character of a string literal with [ensure_ascii]: quote and
    backslash are escaped, the printable ASCII characters stand for
    themselves, the others have a short escape or a [\u00xx] one. *)
Definition escape_char (c : ascii) : string :=
  let n := nat_of_ascii c in
  if Nat.eqb n 34 then String backslash (String quote_char "")
  else if Nat.eqb n 92 then String backslash (String backslash "")
  else if Nat.eqb n 10 then String backslash "n"
  else if Nat.eqb n 13 then String backslash "r"
  else if Nat.eqb n 9 then String backslash "t"
  else if Nat.eqb n 8 then String backslash "b"
  else if Nat.eqb n 12 then String backslash "f"
  else if Nat.leb 32 n && Nat.leb n 126 then String c ""
  else String backslash
         (String "u" (String "0" (String "0"
            (String (hex_digit (n / 16)) (String (hex_digit (n mod 16)) ""))))).

Fixpoint escape_string (s : string) : string :=
  match s with
  | EmptyString => ""
  | String c s' => (escape_char c ++ escape_string s')%string
  end.

Definition encode_string (s : string) : string :=
  String quote_char (escape_string s ++ String quote_char "")%string.

(** [k1 < k2] on dictionary keys: numbers with numbers, strings with
    strings; any other pair is a [TypeError]. *)
Definition key_lt (k1 k2 : value) : result bool :=
  match k1, k2 with
  | PStr a, PStr b => Ok (String.ltb a b)
  | PInt a, PInt b => Ok (Z.ltb a b)
  | PInt a, PBool b => Ok (Z.ltb a (bool_to_Z b))
  | PBool a, PInt b => Ok (Z.ltb (bool_to_Z a) b)
  | PBool a, PBool b => Ok (Z.ltb (bool_to_Z a) (bool_to_Z b))
  | _, _ => Raise TypeError
  end.

(** The key as the encoder writes it. *)
Definition key_text (k : value) : result string :=
  match k with
  | PStr s => Ok s
  | PBool true => Ok "true"
  | PBool false => Ok "false"
  | PNone => Ok "null"
  | PInt z => Ok (str_of_Z z)
  | _ => Raise TypeError
  end.

(** [sorted(dct.items())]: the keys of a dictionary are pairwise
    different, so the order of two items is the order of their keys.
    Insertion from the right; a comparison that raises ends the sort. *)
Fixpoint insert_item {A} (x : value * A) (l : list (value * A))
    : result (list (value * A)) :=
  match l with
  | [] => Ok [x]
  | y :: l' =>
      match key_lt (fst x) (fst y) with
      | Raise e => Raise e
      | Ok true => Ok (x :: y :: l')
      | Ok false =>
          match insert_item x l' with
          | Ok r => Ok (y :: r)
          | Raise e => Raise e
          end
      end
  end.

Fixpoint sort_items {A} (l : list (value * A)) : result (list (value * A)) :=
  match l with
  | [] => Ok []
  | x :: l' =>
      match sort_items l' with
      | Ok s => insert_item x s
      | Raise e => Raise e
      end
  end.

Fixpoint key_texts {A} (l : list (value * A)) : result (list (string * A)) :=
  match l with
  | [] => Ok []
  | (k, a) :: l' =>
      match key_text k, key_texts l' with
      | Ok s, Ok r => Ok ((s, a) :: r)
      | Raise e, _ => Raise e
      | _, Raise e => Raise e
      end
  end.

(** The document the encoder emits for a value. *)
Fixpoint to_doc (v : value) : result doc :=
  match v with
  | PNone => Ok (DAtom "null")
  | PBool true => Ok (DAtom "true")
  | PBool false => Ok (DAtom "false")
  | PInt z => Ok (DAtom (str_of_Z z))
  | PStr s => Ok (DAtom (encode_string s))
  | PList xs =>
      match (fix elems (l : list value) : result (list doc) :=
               match l with
               | [] => Ok []
               | x :: l' =>
                   match to_doc x, elems l' with
                   | Ok d, Ok r => Ok (d :: r)
                   | Raise e, _ => Raise e
                   | _, Raise e => Raise e
                   end
               end) xs with
      | Ok ds => Ok (DArr ds)
      | Raise e => Raise e
      end
  | PDict items =>
      match (fix members (l : list (value * value))
               : result (list (value * doc)) :=
               match l with
               | [] => Ok []
               | (k, x) :: l' =>
                   match to_doc x, members l' with
                   | Ok d, Ok r => Ok ((k, d) :: r)
                   | Raise e, _ => Raise e
                   | _, Raise e => Raise e
                   end
               end) items with
      | Ok ms =>
          match sort_items ms with
          | Ok sorted =>
              match key_texts sorted with
              | Ok r => Ok (DObj r)
              | Raise e => Raise e
              end
          | Raise e => Raise e
          end
      | Raise e => Raise e
      end
  end.

(** [EXPORT_JSON_INDENT]. *)
Definition EXPORT_JSON_INDENT : nat := 2.

Fixpoint spaces (n : nat) : string :=
  match n with
  | O => ""
  | S n' => String " " (spaces n')
  end.

(** A line break followed by the indentation of a nesting level. *)
Definition newline_indent (level : nat) : string :=
  String newline (spaces (EXPORT_JSON_INDENT * level)).

Fixpoint join (sep : string) (parts : list string) : string :=
  match parts with
  | [] => ""
  | [p] => p
  | p :: rest => (p ++ sep ++ join sep rest)%string
  end.

(** The text of a document at a nesting level: an empty array or object
    on one line, otherwise one element or member per line. *)
Fixpoint render (level : nat) (d : doc) : string :=
  match d with
  | DAtom text => text
  | DArr [] => "[]"
  | DArr elems =>
      ("[" ++ newline_indent (S level)
       ++ join ("," ++ newline_indent (S level)) (map (render (S level)) elems)
       ++ newline_indent level ++ "]")%string
  | DObj [] => "{}"
  | DObj members =>
      ("{" ++ newline_indent (S level)
       ++ join ("," ++ newline_indent (S level))
            (map (fun m => (encode_string (fst m) ++ ": "
                            ++ render (S level) (snd m))%string) members)
       ++ newline_indent level ++ "}")%string
  end.

Definition json_dumps (obj : value) : result string :=
  match to_doc obj with
  | Ok d => Ok (render 0 d)
  | Raise e => Raise e
  end.

(** [export_tree].  The nesting of [_export_layer] calls is bounded by
    the number of nodes. *)
Definition export_tree (self : RecordsToTreeConverter) : M string :=
  h <- get_heap ;;
  if is_leaf h (root_node self)
  then raise (NoTreeCreatedError
                "No tree to export. Run create_tree method first.")
  else
    let output_dict := PDict [] in
    exported <- lift (_export_layer (S (length h)) h (root_node self) output_dict) ;;
    lift (json_dumps (snd exported)).

(** ** Specification vocabulary *)

(** A record has the attribute [l]. *)
Definition has_attribute (record : value) (l : string) : Prop :=
  exists items v, record = PDict items /\ In (PStr l, v) items.

(** A record has every declared nesting attribute. *)
Definition complete (levels : list string) (record : value) : Prop :=
  forall l, In l levels -> has_attribute record l.

Definition complete_b (levels : list string) (record : value) : bool :=
  forallb (fun l => has_key (record_items record) (PStr l)) levels.

(** The records that lack a declared nesting attribute. *)
Definition offending (levels : list string) (records : list value) : list value :=
  filter (fun r => complete_b levels r = false) records.

Definition invalid_structure_msg : string :=
  "Input data should be a non-empty list of dictionaries.".

Definition attribute_missing_msg (count : nat) : string :=
  ("Key elements were missing in " ++ str_of_nat count ++ " records")%string.

(** Non-empty lists of dictionaries. *)
Definition list_of_records (input_data : value) : Prop :=
  exists r records, input_data = PList (r :: records)
    /\ Forall (fun x => is_dict x = true) (r :: records).

Definition example_levels : list string := ["currency"; "country"; "city"].

Definition example_record (currency country city : string) (amount : Z) : value :=
  PDict [(PStr "currency", PStr currency); (PStr "country", PStr country);
         (PStr "city", PStr city); (PStr "amount", PInt amount)].

(** The three records of the example scenario. *)
Definition example_records : list value :=
  [example_record "EUR" "FR" "Paris" 10;
   example_record "EUR" "FR" "Lyon" 5;
   example_record "EUR" "ES" "Madrid" 7].

Definition no_levels_msg : string :=
  "Cannot build tree branch without nesting levels.".

(** The key is a declared nesting level. *)
Definition is_level (levels : list string) (k : value) : bool :=
  existsb (fun l => py_eq k (PStr l)) levels.

(** The record restricted to the keys that are no nesting level. *)
Definition residual (levels : list string) (items : dict) : dict :=
  List.filter (fun kv => negb (is_level levels (fst kv))) items.

(** A decoded JSON object: the keys are strings, no key occurs twice. *)
Definition json_object (items : dict) : Prop :=
  Forall (fun k => exists s, k = PStr s) (dict_keys items)
  /\ List.NoDup (dict_keys items).

(** ** Invariants of the heap *)

(** Children are allocated after their parent, every child is a node of
    the heap, and the root is the child of no node. *)
Definition wf_heap (root : node_id) (h : heap) : Prop :=
  root < length h /\
  forall n c, In c (node_children h n) -> n < c /\ c < length h /\ c <> root.

(** No label of the list equals ([==]) a later one. *)
Fixpoint labels_distinct (labels : list value) : bool :=
  match labels with
  | [] => true
  | x :: rest => forallb (fun y => negb (py_eq x y)) rest && labels_distinct rest
  end.

(** Sibling-label uniqueness (I1): at every node the labels of the
    children are pairwise different. *)
Definition siblings_distinct (h : heap) : Prop :=
  forall n, labels_distinct (map (node_name h) (node_children h n)) = true.

(** [h'] is [h] with more nodes and more children: what further calls of
    [_build_branch] and [create_tree] make of a tree. *)
Definition tree_extends (h h' : heap) : Prop :=
  length h <= length h' /\
  forall n, n < length h ->
    node_name h' n = node_name h n
    /\ exists added, node_children h' n = node_children h n ++ added.

(** The invariant of the tree of a converter. *)
Definition tree_invariant (root : node_id) (h : heap) : Prop :=
  wf_heap root h /\ siblings_distinct h.

(** [h'] is [h] after branches have been built below [cur]: nodes are
    only added, no label, parent or payload changes, children are only
    appended, and the nodes before [cur] keep their children. *)
Definition grows_below (cur : node_id) (h h' : heap) : Prop :=
  length h <= length h' /\
  forall n, n < length h ->
    name (get_node h' n) = name (get_node h n) /\
    parent (get_node h' n) = parent (get_node h n) /\
    values (get_node h' n) = values (get_node h n) /\
    (exists added, node_children h' n = node_children h n ++ added) /\
    (n < cur -> node_children h' n = node_children h n).

(** A branch below [cur]: one child per level, each with a label that
    [ok] accepts for the level. *)
Fixpoint branch (ok : string -> value -> Prop) (h : heap) (cur : node_id)
    (levels : list string) : Prop :=
  match levels with
  | [] => True
  | level :: rest =>
      exists c, In c (node_children h cur) /\ ok level (node_name h c)
                /\ branch ok h c rest
  end.

(** A branch from [cur] that ends at [leaf]. *)
Fixpoint branch_to (ok : string -> value -> Prop) (h : heap) (cur : node_id)
    (levels : list string) (leaf : node_id) : Prop :=
  match levels with
  | [] => cur = leaf
  | level :: rest =>
      exists c, In c (node_children h cur) /\ ok level (node_name h c)
                /\ branch_to ok h c rest leaf
  end.

(** The label equals ([==]) the value of the record at the level. *)
Definition matches (record : value) (level : string) (label : value) : Prop :=
  exists v, getitem record (PStr level) = Ok v /\ py_eq label v = true.

(** The path of the nesting-attribute values of [record] exists below
    [cur]. *)
Definition path_exists (h : heap) (cur : node_id) (levels : list string)
    (record : value) : Prop :=
  branch (matches record) h cur levels.

(** The world after [__init__] in an empty heap: the root alone. *)
Definition fresh_world : world :=
  mkWorld [mkNode (PStr "root") None [] None] [].

Definition example_converter : RecordsToTreeConverter :=
  mkConverter example_levels 0.

(** The world after the branch of the first example record is built. *)
Definition one_branch_world : world :=
  snd (_build_branch example_converter (Some example_levels) (Some 0)
         (example_record "EUR" "FR" "Paris" 10) fresh_world).

(** The nested mapping of the example scenario. *)
Definition example_mapping : value :=
  PDict [(PStr "EUR",
          PDict [(PStr "ES",
                  PDict [(PStr "Madrid", PList [PDict [(PStr "amount", PInt 7)]])]);
                 (PStr "FR",
                  PDict [(PStr "Lyon", PList [PDict [(PStr "amount", PInt 5)]]);
                         (PStr "Paris", PList [PDict [(PStr "amount", PInt 10)]])])])].

Definition quoted (s : string) : string :=
  String quote_char (s ++ String quote_char "")%string.

Definition lines (ls : list string) : string := join (String newline "") ls.

(** ** A decoder for the examples *)

(** [json_decode] reads the JSON texts that use no escape sequence, no
    fraction and no exponent, and returns for them the value
    [json.loads] returns; every other text is refused.  It stands in for
    [json.loads] where an example needs a concrete decoder; the
    properties are stated for any decoder. *)

Definition is_ws (c : ascii) : bool :=
  let n := nat_of_ascii c in
  Nat.eqb n 32 || Nat.eqb n 9 || Nat.eqb n 10 || Nat.eqb n 13.

Definition is_digit (c : ascii) : bool :=
  let n := nat_of_ascii c in Nat.leb 48 n && Nat.leb n 57.

Fixpoint skip_ws (s : string) : string :=
  match s with
  | String c s' => if is_ws c then skip_ws s' else s
  | EmptyString => s
  end.

(** The characters up to the closing quote, and the text after it. *)
Fixpoint scan_string (s acc : string) : option (string * string) :=
  match s with
  | EmptyString => None
  | String c s' =>
      if Ascii.eqb c quote_char then Some (acc, s')
      else if Ascii.eqb c backslash || Nat.ltb (nat_of_ascii c) 32 then None
      else scan_string s' (acc ++ String c "")%string
  end.

Fixpoint scan_digits (s : string) (acc : Z) : Z * string :=
  match s with
  | String c s' =>
      if is_digit c
      then scan_digits s' (10 * acc + Z.of_nat (nat_of_ascii c - 48))%Z
      else (acc, s)
  | EmptyString => (acc, s)
  end.

Definition starts_with (p : ascii -> bool) (s : string) : bool :=
  match s with String c _ => p c | EmptyString => false end.

(** An integer without sign: no leading zero, nothing of a fraction or
    an exponent after it. *)
Definition scan_number (s : string) : option (Z * string) :=
  match s with
  | String c s' =>
      if negb (is_digit c) then None
      else if Ascii.eqb c "0" && starts_with is_digit s' then None
      else
        let '(n, rest) := scan_digits s 0 in
        if starts_with (fun d => Ascii.eqb d "." || Ascii.eqb d "e"
                                 || Ascii.eqb d "E") rest
        then None else Some (n, rest)
  | EmptyString => None
  end.

Fixpoint strip_prefix (p s : string) : option string :=
  match p, s with
  | EmptyString, _ => Some s
  | String a p', String b s' => if Ascii.eqb a b then strip_prefix p' s' else None
  | String _ _, EmptyString => None
  end.

Definition scan_literal (s : string) : option (value * string) :=
  match strip_prefix "true" s, strip_prefix "false" s, strip_prefix "null" s with
  | Some rest, _, _ => Some (PBool true, rest)
  | _, Some rest, _ => Some (PBool false, rest)
  | _, _, Some rest => Some (PNone, rest)
  | _, _, _ => None
  end.

(** A value, the members of an object after its brace, the elements of
    an array after its bracket.  A key that occurs again replaces the
    value and keeps the place of the first occurrence. *)
Fixpoint parse_value (fuel : nat) (s : string) : option (value * string) :=
  match fuel with
  | O => None
  | S fuel' =>
      match skip_ws s with
      | EmptyString => None
      | String c rest =>
          if Ascii.eqb c "{" then
            match skip_ws rest with
            | String "}" rest' => Some (PDict [], rest')
            | _ => parse_members fuel' rest []
            end
          else if Ascii.eqb c "[" then
            match skip_ws rest with
            | String "]" rest' => Some (PList [], rest')
            | _ => parse_elements fuel' rest []
            end
          else if Ascii.eqb c quote_char then
            match scan_string rest "" with
            | Some (str, rest') => Some (PStr str, rest')
            | None => None
            end
          else if Ascii.eqb c "-" then
            match scan_number rest with
            | Some (n, rest') => Some (PInt (- n), rest')
            | None => None
            end
          else if is_digit c then
            match scan_number (String c rest) with
            | Some (n, rest') => Some (PInt n, rest')
            | None => None
            end
          else scan_literal (String c rest)
      end
  end
with parse_members (fuel : nat) (s : string) (acc : dict)
    : option (value * string) :=
  match fuel with
  | O => None
  | S fuel' =>
      match skip_ws s with
      | String c rest =>
          if negb (Ascii.eqb c quote_char) then None
          else
            match scan_string rest "" with
            | None => None
            | Some (key, rest1) =>
                match skip_ws rest1 with
                | String ":" rest2 =>
                    match parse_value fuel' rest2 with
                    | None => None
                    | Some (v, rest3) =>
                        let acc' := dict_set acc (PStr key) v in
                        match skip_ws rest3 with
                        | String "," rest4 => parse_members fuel' rest4 acc'
                        | String "}" rest4 => Some (PDict acc', rest4)
                        | _ => None
                        end
                    end
                | _ => None
                end
            end
      | EmptyString => None
      end
  end
with parse_elements (fuel : nat) (s : string) (acc : list value)
    : option (value * string) :=
  match fuel with
  | O => None
  | S fuel' =>
      match parse_value fuel' s with
      | None => None
      | Some (v, rest) =>
          match skip_ws rest with
          | String "," rest' => parse_elements fuel' rest' (acc ++ [v])
          | String "]" rest' => Some (PList (acc ++ [v]), rest')
          | _ => None
          end
      end
  end.

Definition json_decode (text : string) : result value :=
  match parse_value (S (String.length text)) text with
  | Some (v, rest) =>
      match skip_ws rest with
      | EmptyString => Ok v
      | _ => Raise JSONDecodeError
      end
  | None => Raise JSONDecodeError
  end.

(** A member [key: value] of an object, as JSON text. *)
Definition member (key text : string) : string :=
  (quoted key ++ ":" ++ text)%string.

Definition example_record_text (currency country city amount : string) : string :=
  ("{" ++ member "currency" (quoted currency) ++ ","
       ++ member "country" (quoted country) ++ ","
       ++ member "city" (quoted city) ++ ","
       ++ member "amount" amount ++ "}")%string.

(** The input of the example scenario. *)
Definition example_input : string :=
  ("[" ++ example_record_text "EUR" "FR" "Paris" "10" ++ ","
       ++ example_record_text "EUR" "FR" "Lyon" "5" ++ ","
       ++ example_record_text "EUR" "ES" "Madrid" "7" ++ "]")%string.

(** The text of [example_mapping] with sorted keys and an indentation of
    two spaces. *)
Definition example_output : string :=
  lines
    ["{";
     ("  " ++ quoted "EUR" ++ ": {")%string;
     ("    " ++ quoted "ES" ++ ": {")%string;
     ("      " ++ quoted "Madrid" ++ ": [")%string;
     "        {";
     ("          " ++ quoted "amount" ++ ": 7")%string;
     "        }";
     "      ]";
     "    },";
     ("    " ++ quoted "FR" ++ ": {")%string;
     ("      " ++ quoted "Lyon" ++ ": [")%string;
     "        {";
     ("          " ++ quoted "amount" ++ ": 5")%string;
     "        }";
     "      ],";
     ("      " ++ quoted "Paris" ++ ": [")%string;
     "        {";
     ("          " ++ quoted "amount" ++ ": 10")%string;
     "        }";
     "      ]";
     "    }";
     "  }";
     "}"].

(** A record that consists of its nesting attribute alone, and the
    export of the tree built from it. *)
Definition bare_record : value := PDict [(PStr "k", PStr "x")].

Definition bare_input : string :=
  ("[{" ++ member "k" (quoted "x") ++ "}]")%string.


(** ** The order of the keys in a serialization *)

Definition is_str (v : value) : bool :=
  match v with PStr _ => true | _ => false end.

(** The string that is the key, for keys that are strings. *)
Definition key_string (k : value) : string :=
  match k with PStr s => s | _ => "" end.

(** Every dictionary in the value, at any depth, has only strings as
    keys (as everything [json.loads] returns has). *)
Fixpoint str_keyed (v : value) : bool :=
  match v with
  | PList xs => forallb str_keyed xs
  | PDict items =>
      forallb (fun kv => let '(k, x) := kv in is_str k && str_keyed x) items
  | _ => true
  end.

(** Each key is at most the next one in the lexicographic order. *)
Fixpoint ascending (keys : list string) : bool :=
  match keys with
  | [] => true
  | k1 :: rest =>
      match rest with
      | [] => true
      | k2 :: _ => String.leb k1 k2
      end && ascending rest
  end.

(** In every object of the document, at any depth, the members are in
    ascending order of their keys. *)
Fixpoint doc_sorted (d : doc) : bool :=
  match d with
  | DAtom _ => true
  | DArr elems => forallb doc_sorted elems
  | DObj members =>
      ascending (map fst members)
      && forallb (fun m => let '(k, x) := m in doc_sorted x) members
  end.

(** The document [export_tree] renders: [export_tree] with the encoder
    stopped before the text is produced. *)
Definition export_doc (self : RecordsToTreeConverter) (w : world) : result doc :=
  if is_leaf (nodes w) (root_node self)
  then Raise (NoTreeCreatedError
                "No tree to export. Run create_tree method first.")
  else
    match _export_layer (S (length (nodes w))) (nodes w) (root_node self)
            (PDict []) with
    | Ok exported_pair => to_doc (snd exported_pair)
    | Raise e => Raise e
    end.

(** A record with a number as the value of its only nesting attribute. *)
Definition numbered_record (n : Z) : value := PDict [(PStr "k", PInt n)].

Definition numbers_input : string :=
  ("[{" ++ member "k" "10" ++ "},{" ++ member "k" "9" ++ "}]")%string.

Definition mixed_input : string :=
  ("[{" ++ member "k" "1" ++ "},{" ++ member "k" (quoted "a") ++ "}]")%string.

(** The export of the tree built from the records with k = 10 and
    k = 9, in this order. *)
Definition numbers_output : string :=
  lines ["{";
         ("  " ++ quoted "9" ++ ": [")%string; "    {}"; "  ],";
         ("  " ++ quoted "10" ++ ": [")%string; "    {}"; "  ]";
         "}"].

(** A decoded JSON object whose values at the nesting levels are
    strings. *)
Definition string_labelled (levels : list string) (record : value) : Prop :=
  exists items,
    record = PDict items /\ json_object items /\ str_keyed record = true
    /\ forall l v, In l levels -> getitem record (PStr l) = Ok v ->
         is_str v = true.

(** Two calls of [export_tree] in a row. *)
Definition export_twice (self : RecordsToTreeConverter) : M (string * string) :=
  first <- export_tree self ;;
  second <- export_tree self ;;
  ret (first, second).

(** ** Export, as the design describes it *)

(** What a node contributes to the exported mapping: a leaf its payload
    (the empty placeholder when the payload is not a true value), an
    internal node the mapping of its children's labels to what they
    contribute, in the order of the children. *)
Fixpoint exported (fuel : nat) (h : heap) (n : node_id) : value :=
  match fuel with
  | O => PNone
  | S fuel' =>
      if is_leaf h n then
        match node_values h n with
        | Some v => if truthy v then v else PDict []
        | None => PDict []
        end
      else
        PDict (map (fun c => (node_name h c, exported fuel' h c))
                   (node_children h n))
  end.

(** Every child has a hashable label, and a payload if it is a leaf. *)
Definition exportable (h : heap) : Prop :=
  forall n c, In c (node_children h n) ->
    hashable (node_name h c) = true
    /\ (is_leaf h c = true -> exists v, node_values h c = Some v).

(** Every node below the root has a label that [P] accepts. *)
Definition labelled (P : value -> Prop) (root : node_id) (h : heap) : Prop :=
  forall n, n < length h -> n <> root -> P (node_name h n).

(** Every leaf below the root has a payload that [Q] accepts (I2). *)
Definition payloads (Q : value -> Prop) (root : node_id) (h : heap) : Prop :=
  forall n, n < length h -> n <> root -> is_leaf h n = true ->
    exists v, node_values h n = Some v /\ Q v.

(** A decoded record whose values at the nesting levels [P] accepts and
    whose payload [Q] accepts. *)
Definition acceptable (P Q : value -> Prop) (levels : list string)
    (record : value) : Prop :=
  exists items,
    record = PDict items /\ json_object items
    /\ (forall l v, In l levels -> getitem record (PStr l) = Ok v -> P v)
    /\ Q (PList [PDict (residual levels items)]).

(** The world after the branch of the second example record is built
    too. *)
Definition two_branch_world : world :=
  snd (_build_branch example_converter (Some example_levels) (Some 0)
         (example_record "EUR" "FR" "Lyon" 5) one_branch_world).

(** The two records have equal ([==]) values at every nesting level. *)
Definition same_tuple (levels : list string) (record1 record2 : value) : Prop :=
  forall l, In l levels ->
    exists v1 v2, getitem record1 (PStr l) = Ok v1
                  /\ getitem record2 (PStr l) = Ok v2
                  /\ py_eq v1 v2 = true.

(** A decoded record that has every nesting level, with hashable values
    at the levels: what [json.loads] yields for an object whose values
    at the levels are strings, numbers, booleans or null. *)
Definition keyed_record (levels : list string) (record : value) : Prop :=
  exists items,
    record = PDict items /\ json_object items /\ complete levels record
    /\ forall l v, In l levels -> getitem record (PStr l) = Ok v ->
         hashable v = true.

(** The [parent] attribute and the [children] lists agree, as [anytree]
    keeps them: [c] is a child of [p] exactly when [c] is a node whose
    parent is [p]. *)
Definition parent_consistent (h : heap) : Prop :=
  forall p c, In c (node_children h p) <->
              c < length h /\ parent (get_node h c) = Some p.

(** Every path of the length of the nesting levels below the root is the
    path of a record of [seen]. *)
Definition covered (levels : list string) (root : node_id) (h : heap)
    (seen : list value) : Prop :=
  forall leaf, branch_to (fun _ _ => True) h root levels leaf ->
    exists r, In r seen /\ branch_to (matches r) h root levels leaf.

(** An input in which the first and the third record have the same
    currency, country and city. *)
Definition repeated_records : list value :=
  [example_record "EUR" "FR" "Paris" 10;
   example_record "EUR" "FR" "Lyon" 5;
   example_record "EUR" "FR" "Paris" 99].

Definition repeated_input : string :=
  ("[" ++ example_record_text "EUR" "FR" "Paris" "10" ++ ","
       ++ example_record_text "EUR" "FR" "Lyon" "5" ++ ","
       ++ example_record_text "EUR" "FR" "Paris" "99" ++ "]")%string.

(** The world after [create_tree] has run on the input of the example
    scenario. *)
Definition example_tree_world : world :=
  snd (create_tree json_decode example_converter example_input fresh_world).

(** [d[k1][k2]...[kn]]. *)
Fixpoint lookup_path (d : value) (keys : list value) : option value :=
  match keys with
  | [] => Some d
  | k :: rest =>
      match d with
      | PDict items =>
          match dict_get items k with
          | Some sub => lookup_path sub rest
          | None => None
          end
      | _ => None
      end
  end.

(** Every node other than the root lies on a path from the root that is
    no longer than the list of levels. *)
Definition rooted (levels : list string) (root : node_id) (h : heap) : Prop :=
  forall m, m < length h -> m <> root ->
    exists pre post,
      levels = pre ++ post /\ branch_to (fun _ _ => True) h root pre m.

(** ** The command-line script [nest.py] (lines 30-44) *)

(** How a run of the script ends: the export has been written to the
    standard output; or a handler of lines 37-44 has written a line
    break, [prefix], the text of the exception and a line break to the
    standard error, and nothing has been written to the standard
    output; or the exception has no handler and leaves the script. *)
Inductive script_end : Type :=
| Printed (text : string)
| Reported (prefix : string) (e : exception)
| Uncaught (e : exception).

(** The [except] clauses of lines 37-44. *)
Definition handler (e : exception) : option string :=
  match e with
  | DuplicateNodesFoundError _ _ => Some "Duplicate nodes found: "
  | InvalidDataStructureError _ => Some "Invalid input data: "
  | DataAttributeMissingError _ => Some "Badly formed input data: "
  | JSONDecodeError => Some "Invalid json in input data: "
  | _ => None
  end.

(** Lines 30-44, for the nesting levels given on the command line and
    the text read from the standard input. *)
Definition nest (json_loads : string -> result value)
    (nesting_level : list string) (input_text : string)
    : script_end * world :=
  match init nesting_level empty_world with
  | (Raise e, w) => (Uncaught e, w)
  | (Ok data_converter, w0) =>
      match (create_tree json_loads data_converter input_text ;;;
             export_tree data_converter) w0 with
      | (Ok text, w) => (Printed text, w)
      | (Raise e, w) =>
          match handler e with
          | Some prefix => (Reported prefix e, w)
          | None => (Uncaught e, w)
          end
      end
  end.

(** The label stands for the value of the record at the level: it is
    that value (the label of a node that [_build_branch] created for
    the record) or it equals ([==]) that value (the label of a node that
    the test of line 101 found). *)
Definition carries (record : value) (level : string) (label : value) : Prop :=
  exists v, getitem record (PStr level) = Ok v
            /\ (label = v \/ py_eq label v = true).

(** A decoded JSON object that has every nesting level. *)
Definition decoded_record (levels : list string) (record : value) : Prop :=
  exists items,
    record = PDict items /\ json_object items /\ complete levels record.

(** Strings, integers, booleans and [None]. *)
Definition scalar (v : value) : bool :=
  match v with
  | PNone | PBool _ | PInt _ | PStr _ => true
  | _ => false
  end.

(** A decoded JSON object that has every nesting level, with a string,
    an integer, a boolean or [None] at each of them. *)
Definition scalar_record (levels : list string) (record : value) : Prop :=
  exists items,
    record = PDict items /\ json_object items /\ complete levels record
    /\ forall l v, In l levels -> getitem record (PStr l) = Ok v ->
         scalar v = true.

(** Every path of the length of the nesting levels below the root
    carries a record of [seen]. *)
Definition accounted (levels : list string) (root : node_id) (h : heap)
    (seen : list value) : Prop :=
  forall leaf, branch_to (fun _ _ => True) h root levels leaf ->
    exists r, In r seen /\ branch_to (carries r) h root levels leaf.

(** The tree of a converter in use, with scalar labels: the invariant
    that the root-only tree has and that successful calls of
    [create_tree] on records with scalar values at the levels keep. *)
Definition grown_tree (levels : list string) (root : node_id) (h : heap)
    : Prop :=
  wf_heap root h /\ siblings_distinct h /\ parent_consistent h
  /\ rooted levels root h
  /\ labelled (fun v => scalar v = true) root h
  /\ payloads (fun v => truthy v = true) root h.

(** The tree has only string labels, and payloads whose dictionaries
    have string keys: what the root-only tree has and successful calls
    of [create_tree] on records with strings at the levels keep. *)
Definition string_labels (root : node_id) (h : heap) : Prop :=
  wf_heap root h /\ siblings_distinct h
  /\ labelled (fun v => is_str v = true) root h
  /\ payloads (fun v => str_keyed v = true) root h.






(** * Properties *)

(** ** Validation *)

Lemma py_eq_str_r k s : py_eq k (PStr s) = true <-> k = PStr s.
Proof.
  destruct k; simpl; try (split; [discriminate | discriminate]).
  rewrite String.eqb_eq. split; congruence.
Qed.

Lemma has_key_str items l :
  has_key items (PStr l) = true <-> exists v, In (PStr l, v) items.
Proof.
  unfold has_key, dict_keys. rewrite existsb_exists. split.
  - intros (k & Hin & Hk). apply py_eq_str_r in Hk. subst k.
    apply in_map_iff in Hin as ((k, v) & Hfst & Hin). simpl in Hfst. subst k.
    eauto.
  - intros (v & Hin). exists (PStr l). split.
    + apply in_map_iff. exists (PStr l, v). auto.
    + now apply py_eq_str_r.
Qed.

Lemma complete_b_spec levels items :
  complete_b levels (PDict items) = true <-> complete levels (PDict items).
Proof.
  unfold complete_b, complete, has_attribute. rewrite forallb_forall. simpl.
  split.
  - intros H l Hl. apply H, has_key_str in Hl as (v & Hv). eauto.
  - intros H l Hl. apply has_key_str.
    destruct (H l Hl) as (items' & v & Heq & Hin). injection Heq as <-. eauto.
Qed.

Lemma missing_elements_complete_b levels record :
  missing_elements levels (record_items record) = negb (complete_b levels record).
Proof.
  unfold missing_elements, complete_b.
  induction levels as [|l levels IH]; simpl; [reflexivity|].
  rewrite IH. now destruct (has_key _ _), (forallb _ _).
Qed.

(** The counting loop adds the number of offending records to the counter
    and writes one line for each of them. *)
Lemma count_missing_run levels records c w :
  count_missing levels records c w =
    (Ok (c + length (offending levels records)),
     mkWorld (nodes w)
       (stderr w ++ map (fun r => dict_values (record_items r))
                        (offending levels records))).
Proof.
  revert c w. induction records as [|r records IH]; intros c w.
  - simpl. unfold ret. rewrite Nat.add_0_r, app_nil_r. now destruct w.
  - simpl. rewrite missing_elements_complete_b. unfold offending.
    rewrite filter_cons. destruct (complete_b levels r) eqn:Hc; simpl.
    + apply IH.
    + unfold bind, write_stderr.
      rewrite IH. simpl. unfold offending.
      f_equal; [f_equal; lia|]. f_equal. now rewrite <- app_assoc.
Qed.

Lemma offending_cons levels r records :
  offending levels (r :: records) =
    if complete_b levels r then offending levels records
    else r :: offending levels records.
Proof.
  unfold offending. rewrite filter_cons.
  destruct (complete_b levels r); reflexivity.
Qed.

Lemma offending_none levels records :
  (forall r, In r records -> complete_b levels r = true) ->
  offending levels records = [].
Proof.
  induction records as [|r records IH]; intros H; [reflexivity|].
  rewrite offending_cons, (H r) by now left.
  apply IH. intros x Hx. apply H. now right.
Qed.

Lemma structure_check input_data :
  truthy input_data && is_list input_data
    && match input_data with
       | PList records => forallb is_dict records
       | _ => true
       end = true
  <-> list_of_records input_data.
Proof.
  unfold list_of_records. split.
  - intros H. apply andb_prop in H as [H Hd]. apply andb_prop in H as [Ht Hl].
    destruct input_data as [| | | |xs|]; try discriminate.
    destruct xs as [|r records]; [discriminate|].
    exists r, records. split; [reflexivity|].
    apply Forall_forall. intros x Hx.
    rewrite forallb_forall in Hd. apply Hd. exact Hx.
  - intros (r & records & -> & Hall). simpl.
    rewrite Forall_forall in Hall.
    assert (Hr : is_dict r = true) by (apply Hall; now left).
    rewrite Hr. simpl. apply forallb_forall. intros x Hx.
    apply Hall. now right.
Qed.

Lemma validate_rejects self input_data w :
  ~ list_of_records input_data ->
  _validate_input_data self input_data w =
    (Raise (InvalidDataStructureError invalid_structure_msg), w).
Proof.
  intros Hn. unfold _validate_input_data.
  destruct (truthy input_data && is_list input_data && _) eqn:Hc.
  - apply structure_check in Hc. contradiction.
  - reflexivity.
Qed.

(** C4 (validation gate): [_validate_input_data] raises
    [InvalidDataStructureError] on every input that is no list, on the
    empty list and on every list with an element that is no dictionary.
    On a non-empty list of dictionaries it does not raise
    [InvalidDataStructureError], and when no record lacks a nesting
    attribute it returns [True] and leaves the nodes and the diagnostic
    stream as they were. *)
Theorem validate_input_data_gate (self : RecordsToTreeConverter) (w : world) :
  (forall input_data, is_list input_data = false ->
     _validate_input_data self input_data w =
       (Raise (InvalidDataStructureError invalid_structure_msg), w))
  /\ _validate_input_data self (PList []) w =
       (Raise (InvalidDataStructureError invalid_structure_msg), w)
  /\ (forall records x, In x records -> is_dict x = false ->
        _validate_input_data self (PList records) w =
          (Raise (InvalidDataStructureError invalid_structure_msg), w))
  /\ (forall r records,
        Forall (fun x => is_dict x = true) (r :: records) ->
        (forall msg, fst (_validate_input_data self (PList (r :: records)) w)
                     <> Raise (InvalidDataStructureError msg))
        /\ (Forall (complete (nesting_levels self)) (r :: records) ->
            _validate_input_data self (PList (r :: records)) w = (Ok true, w))).
Proof.
  split; [|split; [|split]].
  - intros input_data Hl. apply validate_rejects.
    intros (r & records & -> & _). discriminate.
  - apply validate_rejects. intros (r & records & Heq & _). discriminate.
  - intros records x Hin Hd. apply validate_rejects.
    intros (r & rs & Heq' & Hall).
    injection Heq' as ->. rewrite Forall_forall in Hall.
    apply Hall in Hin. congruence.
  - intros r records Hall.
    assert (Hs : list_of_records (PList (r :: records))).
    { exists r, records. auto. }
    apply structure_check in Hs. split.
    + intros msg. unfold _validate_input_data. rewrite Hs.
      cbn [negb nesting_levels]. unfold bind. rewrite count_missing_run.
      cbn [fst Nat.add]. destruct (length _); simpl; discriminate.
    + intros Hcomplete. unfold _validate_input_data. rewrite Hs.
      cbn [negb]. unfold bind. rewrite count_missing_run.
      assert (Hoff : offending (nesting_levels self) (r :: records) = []).
      { rewrite Forall_forall in Hall, Hcomplete.
        apply offending_none. intros x Hx.
        specialize (Hall x Hx). specialize (Hcomplete x Hx).
        destruct x; try discriminate. now apply complete_b_spec. }
      rewrite Hoff. simpl. rewrite app_nil_r. unfold ret. now destruct w.
Qed.

Lemma example_records_complete :
  Forall (complete example_levels) example_records.
Proof.
  repeat constructor; apply complete_b_spec; reflexivity.
Qed.

Lemma validate_input_data_gate_witness :
  _validate_input_data (mkConverter example_levels 0) (PList example_records)
    empty_world = (Ok true, empty_world).
Proof.
  apply (validate_input_data_gate (mkConverter example_levels 0) empty_world).
  - repeat constructor.
  - exact example_records_complete.
Defined.

(** C5 (attribute completeness): on a list of dictionaries of which at
    least one lacks a declared nesting attribute, [_validate_input_data]
    raises [DataAttributeMissingError]; the count in its message is the
    number of records that lack a nesting attribute, and one diagnostic
    line has been written for each of them. *)
Theorem validate_input_data_missing (self : RecordsToTreeConverter)
    (records : list value) (w : world) :
  Forall (fun x => is_dict x = true) records ->
  (exists r, In r records /\ ~ complete (nesting_levels self) r) ->
  let missing := offending (nesting_levels self) records in
  _validate_input_data self (PList records) w =
    (Raise (DataAttributeMissingError (attribute_missing_msg (length missing))),
     mkWorld (nodes w)
       (stderr w ++ map (fun r => dict_values (record_items r)) missing))
  /\ (forall r, In r missing <->
        In r records /\ ~ complete (nesting_levels self) r).
Proof.
  intros Hall (r0 & Hin0 & Hmiss0) missing.
  assert (Hchar : forall r, In r missing <->
            In r records /\ ~ complete (nesting_levels self) r).
  { intros r. unfold missing, offending.
    rewrite <- list_elem_of_In, list_elem_of_filter, list_elem_of_In.
    split; intros [H1 H2].
    - split; [assumption|]. rewrite Forall_forall in Hall.
      specialize (Hall r H2). destruct r; try discriminate.
      rewrite <- complete_b_spec. congruence.
    - split; [|assumption]. rewrite Forall_forall in Hall.
      specialize (Hall r H1). destruct r; try discriminate.
      rewrite <- complete_b_spec in H2. now destruct (complete_b _ _). }
  split; [|exact Hchar].
  assert (Hs : list_of_records (PList records)).
  { destruct records as [|r records]; [destruct Hin0|]. exists r, records. auto. }
  apply structure_check in Hs. unfold _validate_input_data. rewrite Hs.
  cbn [negb]. unfold bind. rewrite count_missing_run. fold missing.
  cbn [Nat.add]. destruct (length missing) eqn:Hlen.
  - apply length_zero_iff_nil in Hlen.
    assert (Hin : In r0 missing) by now apply Hchar.
    rewrite Hlen in Hin. destruct Hin.
  - reflexivity.
Qed.

Lemma validate_input_data_missing_witness :
  fst (_validate_input_data (mkConverter example_levels 0)
         (PList [example_record "EUR" "FR" "Paris" 10;
                 PDict [(PStr "currency", PStr "EUR")];
                 PDict [(PStr "city", PStr "Lyon")]]) empty_world)
  = Raise (DataAttributeMissingError "Key elements were missing in 2 records").
Proof.
  refine (f_equal fst (proj1 (validate_input_data_missing
            (mkConverter example_levels 0) _ empty_world _ _))).
  - repeat constructor.
  - exists (PDict [(PStr "city", PStr "Lyon")]). split.
    + simpl. auto.
    + intros H. apply complete_b_spec in H. discriminate.
Defined.

Ltac splits := repeat match goal with |- _ /\ _ => split end.

(** ** The heap *)

Lemma get_node_ge (h : heap) n : length h <= n -> get_node h n = dummy_node.
Proof.
  intros H. unfold get_node. now rewrite lookup_ge_None_2.
Qed.

Lemma get_node_app_l (h : heap) x n :
  n < length h -> get_node (h ++ [x]) n = get_node h n.
Proof.
  intros H. unfold get_node. now rewrite lookup_app_l.
Qed.

Lemma get_node_app_new (h : heap) x : get_node (h ++ [x]) (length h) = x.
Proof.
  unfold get_node. rewrite lookup_app_r by lia.
  now rewrite Nat.sub_diag.
Qed.

Lemma get_node_insert_eq (h : heap) n x :
  n < length h -> get_node (<[n := x]> h) n = x.
Proof.
  intros H. unfold get_node. now rewrite list_lookup_insert_eq.
Qed.

Lemma get_node_insert_ne (h : heap) n m x :
  n <> m -> get_node (<[n := x]> h) m = get_node h m.
Proof.
  intros H. unfold get_node. now rewrite list_lookup_insert_ne.
Qed.

Lemma children_out_of_range (h : heap) n :
  length h <= n -> node_children h n = [].
Proof.
  intros H. unfold node_children. now rewrite get_node_ge.
Qed.

(** The heap after [Node(label, parent=q)]. *)
Lemma new_node_heap label q w :
  q < length (nodes w) ->
  let h := nodes w in
  let h' := nodes (snd (new_node label (Some q) w)) in
  fst (new_node label (Some q) w) = Ok (length h)
  /\ stderr (snd (new_node label (Some q) w)) = stderr w
  /\ length h' = S (length h)
  /\ get_node h' (length h) = mkNode label (Some q) [] None
  /\ get_node h' q =
       mkNode (name (get_node h q)) (parent (get_node h q))
              (children (get_node h q) ++ [length h]) (values (get_node h q))
  /\ (forall n, n <> q -> n <> length h -> get_node h' n = get_node h n).
Proof.
  intros Hq h h'. subst h h'. unfold new_node. cbn [fst snd nodes stderr].
  repeat split.
  - now rewrite length_insert, length_app, Nat.add_1_r.
  - rewrite get_node_insert_ne by lia. apply get_node_app_new.
  - rewrite get_node_insert_eq by (rewrite length_app; lia).
    now rewrite get_node_app_l.
  - intros n Hn1 Hn2. rewrite get_node_insert_ne by congruence.
    destruct (Nat.lt_ge_cases n (length (nodes w))) as [Hlt|Hge].
    + now apply get_node_app_l.
    + rewrite !get_node_ge; [reflexivity|lia|rewrite length_app; simpl; lia].
Qed.

Lemma labels_distinct_app labels v :
  labels_distinct (labels ++ [v]) =
    labels_distinct labels && forallb (fun x => negb (py_eq x v)) labels.
Proof.
  induction labels as [|x labels IH]; [reflexivity|].
  simpl. rewrite IH, forallb_app. simpl.
  destruct (forallb _ labels), (labels_distinct labels), (py_eq x v),
    (forallb _ labels); reflexivity.
Qed.

Lemma existing_children_nil h cur v :
  existing_children h cur v = [] ->
  forallb (fun x => negb (py_eq x v)) (map (node_name h) (node_children h cur)) = true.
Proof.
  unfold existing_children. generalize (node_children h cur) as cs.
  induction cs as [|c cs IH]; [reflexivity|].
  rewrite filter_cons. simpl. destruct (py_eq (node_name h c) v) eqn:E.
  - rewrite decide_True by reflexivity. discriminate.
  - rewrite decide_False by discriminate. exact IH.
Qed.

Lemma new_node_name label q w n :
  q < length (nodes w) -> n <> length (nodes w) ->
  node_name (nodes (snd (new_node label (Some q) w))) n = node_name (nodes w) n.
Proof.
  intros Hq Hn.
  destruct (new_node_heap label q w Hq) as (_ & _ & _ & _ & Hqn & Hother).
  unfold node_name. destruct (Nat.eq_dec n q) as [->|Hne].
  - now rewrite Hqn.
  - now rewrite Hother.
Qed.

Lemma new_node_children label q w n :
  q < length (nodes w) ->
  node_children (nodes (snd (new_node label (Some q) w))) n =
    if Nat.eqb n q then node_children (nodes w) q ++ [length (nodes w)]
    else node_children (nodes w) n.
Proof.
  intros Hq.
  destruct (new_node_heap label q w Hq) as (_ & _ & _ & Hnew & Hqn & Hother).
  unfold node_children. destruct (Nat.eqb_spec n q) as [->|Hne].
  - now rewrite Hqn.
  - destruct (Nat.eq_dec n (length (nodes w))) as [->|Hne'].
    + rewrite Hnew, get_node_ge by lia. reflexivity.
    + now rewrite Hother.
Qed.

(** Adding a child whose label no existing child has keeps the
    invariants. *)
Lemma new_node_preserves root label q w :
  wf_heap root (nodes w) ->
  q < length (nodes w) ->
  existing_children (nodes w) q label = [] ->
  let h' := nodes (snd (new_node label (Some q) w)) in
  wf_heap root h'
  /\ (siblings_distinct (nodes w) -> siblings_distinct h')
  /\ grows_below q (nodes w) h'.
Proof.
  intros [Hroot Hwf] Hq Hnone h'.
  destruct (new_node_heap label q w Hq) as (_ & _ & Hlen & Hnew & Hqn & Hother).
  fold h' in Hlen, Hnew, Hqn, Hother.
  assert (Hch := fun n => new_node_children label q w n Hq). fold h' in Hch.
  assert (Hnm := fun n => new_node_name label q w n Hq). fold h' in Hnm.
  split; [|split].
  - split; [lia|]. intros n c Hin. rewrite Hch in Hin.
    destruct (Nat.eqb_spec n q) as [->|Hne].
    + apply in_app_or in Hin as [Hin|[<-|[]]].
      * destruct (Hwf _ _ Hin) as (? & ? & ?). repeat split; lia.
      * repeat split; lia.
    + destruct (Hwf _ _ Hin) as (? & ? & ?). repeat split; lia.
  - intros Hdist n. rewrite Hch.
    assert (Hmap : forall m, map (node_name h') (node_children (nodes w) m) =
                     map (node_name (nodes w)) (node_children (nodes w) m)).
    { intros m. apply map_ext_in. intros c Hc. apply Hnm.
      destruct (Hwf _ _ Hc) as (? & ? & ?). lia. }
    destruct (Nat.eqb_spec n q) as [->|Hne].
    + rewrite List.map_app, Hmap. cbn [map].
      rewrite labels_distinct_app, Hdist. cbn [andb].
      unfold node_name at 1. rewrite Hnew. cbn [name].
      now apply existing_children_nil.
    + rewrite Hmap. apply Hdist.
  - split; [lia|]. intros n Hn.
    assert (Hnode : get_node h' n =
              mkNode (name (get_node (nodes w) n)) (parent (get_node (nodes w) n))
                     (node_children h' n) (values (get_node (nodes w) n))).
    { unfold node_children. destruct (Nat.eq_dec n q) as [->|Hne].
      - rewrite Hqn. reflexivity.
      - rewrite Hother by lia. now destruct (get_node (nodes w) n). }
    rewrite Hnode. cbn [name parent values]. repeat split.
    + rewrite Hch. destruct (Nat.eqb_spec n q) as [->|Hne]; eauto.
      exists []. now rewrite app_nil_r.
    + intros Hlt. rewrite Hch. destruct (Nat.eqb_spec n q); [lia|reflexivity].
Qed.

Lemma grows_below_refl cur h : grows_below cur h h.
Proof.
  split; [lia|]. intros n Hn. repeat split; auto.
  exists []. now rewrite app_nil_r.
Qed.

Lemma grows_below_trans cur cur' h1 h2 h3 :
  cur <= cur' -> grows_below cur h1 h2 -> grows_below cur' h2 h3 ->
  grows_below cur h1 h3.
Proof.
  intros Hle [Hl12 H12] [Hl23 H23]. split; [lia|]. intros n Hn.
  destruct (H12 n Hn) as (Hn1 & Hp1 & Hv1 & [a1 Hc1] & Hk1).
  destruct (H23 n ltac:(lia)) as (Hn2 & Hp2 & Hv2 & [a2 Hc2] & Hk2).
  repeat split; try congruence.
  - exists (a1 ++ a2). rewrite Hc2, Hc1. now rewrite app_assoc.
  - intros Hlt. rewrite Hk2, Hk1 by lia. reflexivity.
Qed.

(** ** Branch building *)

(** One level of [_build_branch] on a non-empty record. *)
Lemma build_branch_levels_cons self level remaining cur record w :
  truthy record = true ->
  build_branch_levels self (level :: remaining) (Some cur) record w =
    match getitem record (PStr level) with
    | Raise e => (Raise e, w)
    | Ok next_level =>
        let existing_nodes := existing_children (nodes w) cur next_level in
        if Nat.ltb 1 (length existing_nodes)
        then (Raise (DuplicateNodesFoundError InChildren
                       (dict_values (record_items record))), w)
        else if negb (Nat.eqb (length existing_nodes) 0)
                && Nat.eqb (length remaining) 0
        then (Raise (DuplicateNodesFoundError AtLeaf
                       (dict_values (record_items record))), w)
        else
          match existing_nodes with
          | n :: _ => build_branch_levels self remaining (Some n) record w
          | [] =>
              build_branch_levels self remaining (Some (length (nodes w))) record
                (snd (new_node next_level (Some cur) w))
          end
    end.
Proof.
  intros Ht. cbn [build_branch_levels]. rewrite Ht. cbn [negb].
  unfold bind at 1. unfold lift.
  destruct (getitem record (PStr level)) as [next_level|e]; [|reflexivity].
  unfold bind at 1. unfold get_heap. cbn [nodes].
  destruct (Nat.ltb 1 _); [reflexivity|].
  destruct (negb _ && _); [reflexivity|].
  destruct (existing_children (nodes w) cur next_level); reflexivity.
Qed.

Lemma build_branch_levels_nil self cur record w :
  truthy record = true ->
  build_branch_levels self [] (Some cur) record w =
    if Nat.eqb cur (root_node self)
    then (Raise (MissingNestingLevelsError no_levels_msg), w)
    else (Ok cur, w).
Proof.
  intros Ht. cbn [build_branch_levels]. rewrite Ht. cbn [negb].
  destruct (Nat.eqb cur (root_node self)); reflexivity.
Qed.

Lemma getitem_error record key e :
  getitem record key = Raise e -> e = KeyError key \/ e = TypeError.
Proof.
  unfold getitem. destruct record; try (intros [= <-]; now right).
  destruct (dict_get items key); [discriminate|]. intros [= <-]. now left.
Qed.

Lemma existing_children_in h cur v n :
  In n (existing_children h cur v) ->
  In n (node_children h cur) /\ py_eq (node_name h n) v = true.
Proof.
  unfold existing_children.
  rewrite <- !list_elem_of_In, list_elem_of_filter. tauto.
Qed.

(** What a call of [_build_branch] on a well-formed heap does, whatever
    its outcome: the invariants are kept, the tree only grows below the
    current node, nothing is written to the diagnostic stream, a
    returned leaf is the current node or a node below it, and
    [MissingNestingLevelsError] is only raised without levels at the
    root. *)
Lemma build_branch_levels_inv self levels : forall cur record w,
  truthy record = true ->
  wf_heap (root_node self) (nodes w) ->
  cur < length (nodes w) ->
  let run := build_branch_levels self levels (Some cur) record w in
  wf_heap (root_node self) (nodes (snd run))
  /\ (siblings_distinct (nodes w) -> siblings_distinct (nodes (snd run)))
  /\ grows_below cur (nodes w) (nodes (snd run))
  /\ stderr (snd run) = stderr w
  /\ (forall leaf, fst run = Ok leaf ->
        leaf < length (nodes (snd run))
        /\ (leaf = cur /\ levels = [] \/ cur < leaf /\ levels <> [])
        /\ leaf <> root_node self)
  /\ (forall msg, fst run = Raise (MissingNestingLevelsError msg) ->
        levels = [] /\ cur = root_node self).
Proof.
  induction levels as [|level remaining IH]; intros cur record w Ht Hwf Hcur run.
  - subst run. rewrite build_branch_levels_nil by assumption.
    destruct (Nat.eqb_spec cur (root_node self)) as [->|Hne]; cbn [fst snd];
      splits; auto using grows_below_refl; try discriminate.
    intros leaf [= <-]. splits; auto.
  - subst run. rewrite build_branch_levels_cons by assumption.
    destruct (getitem record (PStr level)) as [next_level|e] eqn:Hget.
    2:{ cbn [fst snd]. splits; auto using grows_below_refl; try discriminate.
        intros msg [= ->]. apply getitem_error in Hget as [?|?]; discriminate. }
    cbn zeta.
    destruct (Nat.ltb 1 _).
    { cbn [fst snd]. splits; auto using grows_below_refl; discriminate. }
    destruct (negb _ && _).
    { cbn [fst snd]. splits; auto using grows_below_refl; discriminate. }
    destruct (existing_children (nodes w) cur next_level) as [|n ns] eqn:Hex.
    + destruct (new_node_preserves (root_node self) next_level cur w Hwf Hcur Hex)
        as (Hwf' & Hdist' & Hgrow).
      destruct (new_node_heap next_level cur w Hcur) as (_ & Herr & Hlen & _).
      specialize (IH (length (nodes w)) record (snd (new_node next_level (Some cur) w))
                    Ht Hwf' ltac:(lia)).
      cbn zeta in IH. destruct IH as (H1 & H2 & H3 & H4 & H5 & H6).
      splits; auto.
      * eapply grows_below_trans; [|exact Hgrow|exact H3]; lia.
      * intros leaf H. destruct (H5 leaf H) as (Hl & Hcase & Hroot).
        splits; auto. right. split; [|discriminate].
        destruct Hcase as [[-> _]|[? _]]; lia.
      * intros msg H. apply H6 in H as [_ Hroot]. destruct Hwf as [Hr _]. lia.
    + assert (Hin : In n (existing_children (nodes w) cur next_level))
        by (rewrite Hex; now left).
      apply existing_children_in in Hin as [Hin _].
      destruct Hwf as [Hr Hwfc]. destruct (Hwfc _ _ Hin) as (Hlt & Hn & Hnr).
      specialize (IH n record w Ht (conj Hr Hwfc) Hn).
      cbn zeta in IH. destruct IH as (H1 & H2 & H3 & H4 & H5 & H6).
      splits; auto.
      * eapply grows_below_trans; [|apply grows_below_refl|exact H3]; lia.
      * intros leaf H. destruct (H5 leaf H) as (Hl & Hcase & Hroot).
        splits; auto. right. split; [|discriminate].
        destruct Hcase as [[-> _]|[? _]]; lia.
      * intros msg H. apply H6 in H as [_ Hroot]. congruence.
Qed.

Lemma init_run levels :
  init levels empty_world = (Ok (mkConverter levels 0), fresh_world).
Proof. reflexivity. Qed.

Lemma fresh_world_wf : wf_heap 0 (nodes fresh_world).
Proof.
  split; [simpl; lia|]. intros n c Hin.
  destruct n as [|[|n]]; destruct Hin.
Qed.

Lemma fresh_world_distinct : siblings_distinct (nodes fresh_world).
Proof.
  intros n. destruct n as [|[|n]]; reflexivity.
Qed.

Lemma build_branch_some self levels cur record w :
  _build_branch self (Some levels) cur record w =
    build_branch_levels self levels cur record w.
Proof. reflexivity. Qed.

(** C3, as the code has it: with a current node and a non-empty record,
    [_build_branch] raises [MissingNestingLevelsError] exactly when the
    remaining levels are absent ([None]), whatever the current node, or
    are the empty list while the current node is the root. *)
Theorem build_branch_missing_levels (self : RecordsToTreeConverter)
    (remaining : option (list string)) (cur : node_id) (record : value)
    (w : world) :
  truthy record = true ->
  wf_heap (root_node self) (nodes w) ->
  cur < length (nodes w) ->
  (exists msg, fst (_build_branch self remaining (Some cur) record w) =
                 Raise (MissingNestingLevelsError msg))
  <-> (remaining = None \/ (remaining = Some [] /\ cur = root_node self)).
Proof.
  intros Ht Hwf Hcur. split.
  - intros [msg H]. destruct remaining as [levels|]; [right|now left].
    rewrite build_branch_some in H.
    destruct (build_branch_levels_inv self levels cur record w Ht Hwf Hcur)
      as (_ & _ & _ & _ & _ & Hm).
    destruct (Hm msg H) as [-> ->]. auto.
  - intros [->|[-> ->]].
    + exists no_levels_msg. unfold _build_branch. now rewrite Ht.
    + exists no_levels_msg. rewrite build_branch_some, build_branch_levels_nil by assumption.
      now rewrite Nat.eqb_refl.
Qed.

Lemma one_branch_world_nodes :
  nodes one_branch_world =
    [mkNode (PStr "root") None [1] None;
     mkNode (PStr "EUR") (Some 0) [2] None;
     mkNode (PStr "FR") (Some 1) [3] None;
     mkNode (PStr "Paris") (Some 2) [] None].
Proof. reflexivity. Qed.

Lemma one_branch_world_wf : wf_heap 0 (nodes one_branch_world).
Proof.
  rewrite one_branch_world_nodes. split; [simpl; lia|]. intros n c Hin.
  destruct n as [|[|[|[|n]]]]; simpl in Hin;
    try (destruct Hin as [<-|[]]; repeat split; simpl; lia); destruct Hin.
Qed.

Lemma build_branch_missing_levels_witness :
  exists msg,
    fst (_build_branch example_converter None (Some 1)
           (example_record "EUR" "FR" "Lyon" 5) one_branch_world)
    = Raise (MissingNestingLevelsError msg).
Proof.
  apply (build_branch_missing_levels example_converter None 1
           (example_record "EUR" "FR" "Lyon" 5) one_branch_world).
  - reflexivity.
  - exact one_branch_world_wf.
  - rewrite one_branch_world_nodes. simpl. lia.
  - now left.
Defined.

(** C3 as stated fails: the node labelled EUR is not the root, the
    record is not empty, the remaining levels are [None], and the call
    raises [MissingNestingLevelsError]. *)
Lemma build_branch_none_levels_below_root :
  1 <> root_node example_converter
  /\ truthy (example_record "EUR" "FR" "Lyon" 5) = true
  /\ node_name (nodes one_branch_world) 1 = PStr "EUR"
  /\ _build_branch example_converter None (Some 1)
        (example_record "EUR" "FR" "Lyon" 5) one_branch_world
      = (Raise (MissingNestingLevelsError no_levels_msg), one_branch_world).
Proof.
  splits; [discriminate|reflexivity|reflexivity|reflexivity].
Qed.

(** ** Duplicates *)

Lemma getitem_truthy record key v : getitem record key = Ok v -> truthy record = true.
Proof.
  destruct record; try discriminate. destruct items; [discriminate|reflexivity].
Qed.

Lemma in_existing_children h cur v c :
  In c (node_children h cur) -> py_eq (node_name h c) v = true ->
  In c (existing_children h cur v).
Proof.
  intros Hin Heq. unfold existing_children.
  rewrite <- list_elem_of_In, list_elem_of_filter, list_elem_of_In. auto.
Qed.

(** A record whose path exists below the current node is rejected as a
    duplicate before anything is written. *)
Lemma build_branch_levels_duplicate self levels : forall cur record w,
  levels <> [] ->
  path_exists (nodes w) cur levels record ->
  exists site,
    build_branch_levels self levels (Some cur) record w =
      (Raise (DuplicateNodesFoundError site (dict_values (record_items record))), w).
Proof.
  induction levels as [|level rest IH]; intros cur record w Hne Hpath;
    [contradiction|].
  destruct Hpath as (c & Hin & (v & Hget & Heq) & Hrest).
  rewrite build_branch_levels_cons by (eapply getitem_truthy; eauto).
  rewrite Hget. cbn zeta.
  pose proof (in_existing_children _ _ _ _ Hin Heq) as Hc.
  destruct (existing_children (nodes w) cur v) as [|c1 [|c2 cs]] eqn:Hex.
  - destruct Hc.
  - destruct Hc as [->|[]]. cbn [length Nat.ltb Nat.leb Nat.eqb negb andb].
    destruct rest as [|level' rest'].
    + exists AtLeaf. reflexivity.
    + cbn [length Nat.eqb]. apply IH; [discriminate|exact Hrest].
  - exists InChildren. reflexivity.
Qed.

(** C9 (a duplicate changes nothing): when [_build_branch] is called
    at the root with the full list of levels on a record whose path of
    nesting-attribute values already exists in the tree, it raises
    [DuplicateNodesFoundError] and the world after the call is the world
    before it: no node is created or removed, no label, child list or
    payload changes. *)
Theorem build_branch_duplicate_atomic (self : RecordsToTreeConverter)
    (record : value) (w : world) :
  nesting_levels self <> [] ->
  path_exists (nodes w) (root_node self) (nesting_levels self) record ->
  exists site,
    _build_branch self (Some (nesting_levels self)) (Some (root_node self))
      record w
    = (Raise (DuplicateNodesFoundError site (dict_values (record_items record))),
       w).
Proof.
  intros Hne Hpath. rewrite build_branch_some.
  now apply build_branch_levels_duplicate.
Qed.

Lemma one_branch_world_path :
  path_exists (nodes one_branch_world) 0 example_levels
    (example_record "EUR" "FR" "Paris" 99).
Proof.
  rewrite one_branch_world_nodes.
  exists 1. splits; [now left|exists (PStr "EUR"); now split|].
  exists 2. splits; [now left|exists (PStr "FR"); now split|].
  exists 3. splits; [now left|exists (PStr "Paris"); now split|].
  exact I.
Qed.

Lemma build_branch_duplicate_atomic_witness :
  exists site,
    _build_branch example_converter (Some example_levels) (Some 0)
      (example_record "EUR" "FR" "Paris" 99) one_branch_world
    = (Raise (DuplicateNodesFoundError site
                [PStr "EUR"; PStr "FR"; PStr "Paris"; PInt 99]),
       one_branch_world).
Proof.
  apply (build_branch_duplicate_atomic example_converter
           (example_record "EUR" "FR" "Paris" 99) one_branch_world).
  - discriminate.
  - exact one_branch_world_path.
Defined.

Lemma branch_impl (ok ok' : string -> value -> Prop) h levels : forall cur,
  (forall l label, In l levels -> ok l label -> ok' l label) ->
  branch ok h cur levels -> branch ok' h cur levels.
Proof.
  induction levels as [|level rest IH]; intros cur Himp Hb; [exact I|].
  destruct Hb as (c & Hin & Hok & Hrest). exists c. splits; auto.
  - apply Himp; [now left|assumption].
  - apply IH; [|assumption]. intros l label Hl. apply Himp. now right.
Qed.

(** Below a node without children every level gets a new node, labelled
    with the value of the record at that level, and the call returns. *)
Lemma build_branch_levels_fresh self levels : forall cur record w,
  truthy record = true ->
  wf_heap (root_node self) (nodes w) ->
  cur < length (nodes w) ->
  node_children (nodes w) cur = [] ->
  (forall l, In l levels -> exists v, getitem record (PStr l) = Ok v) ->
  levels <> [] \/ cur <> root_node self ->
  exists leaf w1,
    build_branch_levels self levels (Some cur) record w = (Ok leaf, w1)
    /\ branch (fun l label => getitem record (PStr l) = Ok label)
         (nodes w1) cur levels.
Proof.
  induction levels as [|level rest IH];
    intros cur record w Ht Hwf Hcur Hleaf Hkeys Hroot.
  - rewrite build_branch_levels_nil by assumption.
    destruct Hroot as [Hroot|Hroot]; [contradiction|].
    apply Nat.eqb_neq in Hroot. rewrite Hroot. exists cur, w. now split.
  - rewrite build_branch_levels_cons by assumption.
    destruct (Hkeys level ltac:(now left)) as [v Hget]. rewrite Hget. cbn zeta.
    assert (Hex : existing_children (nodes w) cur v = []).
    { unfold existing_children. now rewrite Hleaf. }
    rewrite Hex. cbn [length Nat.ltb Nat.leb Nat.eqb negb andb].
    set (w' := snd (new_node v (Some cur) w)).
    destruct (new_node_preserves (root_node self) v cur w Hwf Hcur Hex)
      as (Hwf' & _ & _). fold w' in Hwf'.
    destruct (new_node_heap v cur w Hcur) as (_ & _ & Hlen & Hnew & _).
    fold w' in Hlen, Hnew.
    assert (Hn : length (nodes w) < length (nodes w')) by lia.
    assert (Hnleaf : node_children (nodes w') (length (nodes w)) = []).
    { unfold node_children. now rewrite Hnew. }
    destruct (IH (length (nodes w)) record w' Ht Hwf' Hn Hnleaf) as (leaf & w1 & Hrun & Hb).
    { intros l Hl. apply Hkeys. now right. }
    { right. destruct Hwf as [Hr _]. lia. }
    exists leaf, w1. split; [exact Hrun|].
    destruct (build_branch_levels_inv self rest (length (nodes w)) record w' Ht Hwf' Hn)
      as (_ & _ & [_ Hgrow] & _). rewrite Hrun in Hgrow. cbn [snd] in Hgrow.
    exists (length (nodes w)). splits.
    + destruct (Hgrow cur ltac:(lia)) as (_ & _ & _ & _ & Hsame).
      rewrite Hsame by assumption. unfold w'.
      rewrite new_node_children, Nat.eqb_refl, Hleaf by assumption. now left.
    + destruct (Hgrow (length (nodes w)) Hn) as (Hname & _).
      unfold node_name. rewrite Hname, Hnew. exact Hget.
    + exact Hb.
Qed.


(** ** Sibling labels *)

Lemma set_values_heap n v w :
  let h' := nodes (snd (set_values n v w)) in
  length h' = length (nodes w)
  /\ stderr (snd (set_values n v w)) = stderr w
  /\ (forall m, node_name h' m = node_name (nodes w) m)
  /\ (forall m, node_children h' m = node_children (nodes w) m)
  /\ (forall m, m <> n -> get_node h' m = get_node (nodes w) m)
  /\ (n < length (nodes w) -> node_values h' n = Some v).
Proof.
  unfold set_values. cbn [snd nodes stderr]. splits.
  - apply length_insert.
  - reflexivity.
  - intros m. unfold node_name. destruct (Nat.eq_dec m n) as [->|Hne].
    + destruct (Nat.lt_ge_cases n (length (nodes w))).
      * now rewrite get_node_insert_eq.
      * now rewrite list_insert_ge.
    + now rewrite get_node_insert_ne.
  - intros m. unfold node_children. destruct (Nat.eq_dec m n) as [->|Hne].
    + destruct (Nat.lt_ge_cases n (length (nodes w))).
      * now rewrite get_node_insert_eq.
      * now rewrite list_insert_ge.
    + now rewrite get_node_insert_ne.
  - intros m Hne. now rewrite get_node_insert_ne.
  - intros Hn. unfold node_values. now rewrite get_node_insert_eq.
Qed.

Lemma set_values_preserves root n v w :
  let h' := nodes (snd (set_values n v w)) in
  (wf_heap root (nodes w) -> wf_heap root h')
  /\ (siblings_distinct (nodes w) -> siblings_distinct h').
Proof.
  intros h'.
  destruct (set_values_heap n v w) as (Hlen & _ & Hname & Hch & _).
  fold h' in Hlen, Hname, Hch. split.
  - intros [Hr Hwf]. split; [lia|]. intros m c. rewrite Hch, Hlen. apply Hwf.
  - intros Hd m. rewrite Hch.
    rewrite (map_ext _ _ Hname). apply Hd.
Qed.

(** [_build_branch] keeps the invariants, whatever its arguments and
    outcome. *)
Lemma build_branch_preserves self remaining current_node record w :
  wf_heap (root_node self) (nodes w) ->
  (forall cur, current_node = Some cur -> cur < length (nodes w)) ->
  let w' := snd (_build_branch self remaining current_node record w) in
  wf_heap (root_node self) (nodes w')
  /\ (siblings_distinct (nodes w) -> siblings_distinct (nodes w'))
  /\ stderr w' = stderr w
  /\ (forall leaf, fst (_build_branch self remaining current_node record w) = Ok leaf ->
        leaf < length (nodes w')).
Proof.
  intros Hwf Hcur w'. subst w'.
  destruct current_node as [cur|].
  2:{ destruct remaining as [[|l ls]|]; cbn; splits; auto; discriminate. }
  destruct (truthy record) eqn:Ht.
  2:{ destruct remaining as [[|l ls]|]; cbn; rewrite Ht; cbn; splits; auto;
        discriminate. }
  destruct remaining as [levels|].
  - rewrite build_branch_some.
    destruct (build_branch_levels_inv self levels cur record w Ht Hwf (Hcur _ eq_refl))
      as (H1 & H2 & _ & H4 & H5 & _).
    splits; auto. intros leaf H. now apply H5.
  - cbn. rewrite Ht. cbn. splits; auto. discriminate.
Qed.

Lemma bind_run {A B} (m : M A) (k : A -> M B) w r w' :
  bind m k w = (r, w') ->
  (exists a w1, m w = (Ok a, w1) /\ k a w1 = (r, w'))
  \/ (exists e, m w = (Raise e, w') /\ r = Raise e).
Proof.
  unfold bind. destruct (m w) as [[a|e] w1]; intros H.
  - left. eauto.
  - right. injection H as <- <-. eauto.
Qed.

Lemma attach_record_preserves self record w r w' :
  wf_heap (root_node self) (nodes w) ->
  attach_record self record w = (r, w') ->
  wf_heap (root_node self) (nodes w')
  /\ (siblings_distinct (nodes w) -> siblings_distinct (nodes w'))
  /\ stderr w' = stderr w.
Proof.
  intros Hwf Hrun.
  assert (Hr : forall cur, Some (root_node self) = Some cur ->
                 cur < length (nodes w)) by (intros cur [= <-]; exact (proj1 Hwf)).
  destruct (build_branch_preserves self (Some (nesting_levels self))
              (Some (root_node self)) record w Hwf Hr) as (H1 & H2 & H3 & H4).
  apply bind_run in Hrun as [(leaf & w1 & Hb & Hrun)|(e & Hb & _)];
    rewrite Hb in *; cbn [snd fst] in *; [|now splits].
  destruct record; try (injection Hrun as <- <-; now splits).
  apply bind_run in Hrun as [(payload & w2 & Hp & Hrun)|(e & Hp & _)].
  - unfold lift in Hp. injection Hp as Hp <-.
    destruct (set_values_preserves (root_node self) leaf (PList [PDict payload]) w1)
      as [Hs1 Hs2].
    destruct (set_values_heap leaf (PList [PDict payload]) w1) as (_ & Hs3 & _).
    rewrite Hrun in *. cbn [snd] in *. splits; auto. congruence.
  - unfold lift in Hp. injection Hp as _ <-. now splits.
Qed.

Lemma attach_records_preserves self records : forall w r w',
  wf_heap (root_node self) (nodes w) ->
  attach_records self records w = (r, w') ->
  wf_heap (root_node self) (nodes w')
  /\ (siblings_distinct (nodes w) -> siblings_distinct (nodes w'))
  /\ stderr w' = stderr w.
Proof.
  induction records as [|record rest IH]; intros w r w' Hwf Hrun.
  - injection Hrun as <- <-. now splits.
  - cbn [attach_records] in Hrun.
    apply bind_run in Hrun as [([] & w1 & Hb & Hrun)|(e & Hb & _)].
    + destruct (attach_record_preserves _ _ _ _ _ Hwf Hb) as (H1 & H2 & H3).
      destruct (IH _ _ _ H1 Hrun) as (H4 & H5 & H6). splits; auto. congruence.
    + exact (attach_record_preserves _ _ _ _ _ Hwf Hb).
Qed.

Lemma validate_nodes self input_data w :
  nodes (snd (_validate_input_data self input_data w)) = nodes w.
Proof.
  unfold _validate_input_data. destruct (negb _); [reflexivity|].
  unfold bind. rewrite count_missing_run.
  destruct (negb _); reflexivity.
Qed.

Lemma create_tree_preserves json_loads self input_data w r w' :
  wf_heap (root_node self) (nodes w) ->
  create_tree json_loads self input_data w = (r, w') ->
  wf_heap (root_node self) (nodes w')
  /\ (siblings_distinct (nodes w) -> siblings_distinct (nodes w')).
Proof.
  intros Hwf Hrun. unfold create_tree in Hrun.
  apply bind_run in Hrun as [(loaded_data & w0 & Hl & Hrun)|(e & Hl & _)];
    unfold lift in Hl.
  2:{ injection Hl as _ <-. now split. }
  injection Hl as _ <-.
  pose proof (validate_nodes self loaded_data w) as Hv.
  apply bind_run in Hrun as [(valid & w1 & Hval & Hrun)|(e & Hval & _)];
    rewrite Hval in Hv; cbn [snd] in Hv.
  2:{ rewrite Hv. now split. }
  destruct valid.
  - rewrite <- Hv in Hwf.
    destruct (attach_records_preserves _ _ _ _ _ Hwf Hrun) as (H1 & H2 & _).
    rewrite <- Hv. now split.
  - injection Hrun as _ <-. rewrite Hv. now split.
Qed.

Lemma py_eq_sym_hashable a b :
  hashable a = true \/ hashable b = true -> py_eq a b = py_eq b a.
Proof.
  intros [H|H]; destruct a, b; try discriminate; cbn [py_eq];
    try reflexivity;
    try apply Z.eqb_sym; try apply String.eqb_sym;
    try (destruct b, b0; reflexivity).
Qed.

Lemma labels_distinct_lookup labels : forall (i j : nat) x y,
  labels_distinct labels = true -> i < j ->
  labels !! i = Some x -> labels !! j = Some y -> py_eq x y = false.
Proof.
  induction labels as [|l labels IH]; intros i j x y Hd Hij Hi Hj;
    [discriminate|].
  cbn [labels_distinct] in Hd. apply andb_prop in Hd as [Hall Hd].
  destruct j as [|j]; [lia|]. cbn in Hj. destruct i as [|i].
  - cbn in Hi. injection Hi as ->. rewrite forallb_forall in Hall.
    apply negb_true_iff, Hall. apply list_elem_of_In.
    eapply list_elem_of_lookup_2; eauto.
  - cbn in Hi. apply (IH i j x y); auto. lia.
Qed.

(** One call either leaves the children of the current node as they
    were, or appends one new child, and this only if no child has the
    looked-up value as its label. *)
Lemma build_branch_levels_children self level rest cur record w v :
  truthy record = true ->
  wf_heap (root_node self) (nodes w) ->
  cur < length (nodes w) ->
  getitem record (PStr level) = Ok v ->
  let h := nodes w in
  let h' := nodes (snd (build_branch_levels self (level :: rest) (Some cur) record w)) in
  node_children h' cur = node_children h cur
  \/ (existing_children h cur v = []
      /\ node_children h' cur = node_children h cur ++ [length h]
      /\ node_name h' (length h) = v).
Proof.
  intros Ht Hwf Hcur Hget h h'. subst h h'.
  rewrite build_branch_levels_cons by assumption. rewrite Hget. cbn zeta.
  destruct (Nat.ltb 1 _); [now left|].
  destruct (negb _ && _); [now left|].
  destruct (existing_children (nodes w) cur v) as [|n ns] eqn:Hex.
  - right. split; [reflexivity|].
    destruct (new_node_preserves (root_node self) v cur w Hwf Hcur Hex)
      as (Hwf' & _ & _).
    destruct (new_node_heap v cur w Hcur) as (_ & _ & Hlen & Hnew & _).
    destruct (build_branch_levels_inv self rest (length (nodes w)) record
                (snd (new_node v (Some cur) w)) Ht Hwf' ltac:(lia))
      as (_ & _ & [_ Hgrow] & _).
    split.
    + destruct (Hgrow cur ltac:(lia)) as (_ & _ & _ & _ & Hsame).
      rewrite Hsame by assumption.
      now rewrite new_node_children, Nat.eqb_refl.
    + destruct (Hgrow (length (nodes w)) ltac:(lia)) as (Hname & _).
      unfold node_name. now rewrite Hname, Hnew.
  - left.
    assert (Hin : In n (existing_children (nodes w) cur v))
      by (rewrite Hex; now left).
    apply existing_children_in in Hin as [Hin _].
    destruct (proj2 Hwf _ _ Hin) as (Hlt & Hn & _).
    destruct (build_branch_levels_inv self rest n record w Ht Hwf Hn)
      as (_ & _ & [_ Hgrow] & _).
    destruct (Hgrow cur Hcur) as (_ & _ & _ & _ & Hsame). now apply Hsame.
Qed.

(** C8 (sibling-label uniqueness): the tree with only its root satisfies
    the invariant; every call of [_build_branch] and of [create_tree]
    keeps it, whatever the outcome of the call; under the invariant no
    node has two different children with equal ([==]) labels (the
    comparison being the one of line 101, label of the earlier child
    first, or either way round when one of the labels is hashable);
    and a call of [_build_branch] appends a child to the
    current node only if no child of it has the looked-up value as its
    label, and then the new child has that label. *)
Theorem sibling_labels_unique :
  tree_invariant 0 (nodes fresh_world)
  /\ (forall self remaining cur record w,
        tree_invariant (root_node self) (nodes w) ->
        cur < length (nodes w) ->
        tree_invariant (root_node self)
          (nodes (snd (_build_branch self remaining (Some cur) record w))))
  /\ (forall json_loads self input_data w,
        tree_invariant (root_node self) (nodes w) ->
        tree_invariant (root_node self)
          (nodes (snd (create_tree json_loads self input_data w))))
  /\ (forall root h, tree_invariant root h ->
        forall n (i j : nat) ci cj, i <> j ->
          node_children h n !! i = Some ci ->
          node_children h n !! j = Some cj ->
          i < j \/ hashable (node_name h ci) = true
                \/ hashable (node_name h cj) = true ->
          py_eq (node_name h ci) (node_name h cj) = false)
  /\ (forall self level rest cur record w v,
        truthy record = true ->
        tree_invariant (root_node self) (nodes w) ->
        cur < length (nodes w) ->
        getitem record (PStr level) = Ok v ->
        let h := nodes w in
        let h' := nodes (snd (_build_branch self (Some (level :: rest)) (Some cur)
                                record w)) in
        node_children h' cur = node_children h cur
        \/ (existing_children h cur v = []
            /\ node_children h' cur = node_children h cur ++ [length h]
            /\ node_name h' (length h) = v)).
Proof.
  splits.
  - split; [exact fresh_world_wf|exact fresh_world_distinct].
  - intros self remaining cur record w [Hwf Hd] Hcur.
    destruct (build_branch_preserves self remaining (Some cur) record w Hwf)
      as (H1 & H2 & _).
    { intros c [= <-]. exact Hcur. }
    split; auto.
  - intros json_loads self input_data w [Hwf Hd].
    destruct (create_tree json_loads self input_data w) as [r w'] eqn:Hrun.
    destruct (create_tree_preserves _ _ _ _ _ _ Hwf Hrun). split; auto.
  - intros root h [_ Hd] n i j ci cj Hne Hi Hj Hcase.
    assert (Hlt : forall (a b : nat) ca cb, a < b ->
              node_children h n !! a = Some ca ->
              node_children h n !! b = Some cb ->
              py_eq (node_name h ca) (node_name h cb) = false).
    { intros a b ca cb Hab Ha Hb.
      apply (labels_distinct_lookup _ a b _ _ (Hd n) Hab).
      - now rewrite list_lookup_fmap, Ha.
      - now rewrite list_lookup_fmap, Hb. }
    destruct (Nat.lt_ge_cases i j) as [Hij|Hji]; [eauto|].
    destruct Hcase as [Hij|Hhash]; [lia|].
    rewrite py_eq_sym_hashable by assumption.
    apply (Hlt j i cj ci); auto. lia.
  - intros self level rest cur record w v Ht [Hwf _] Hcur Hget.
    now apply build_branch_levels_children.
Qed.

Lemma sibling_labels_unique_witness :
  tree_invariant 0
    (nodes (snd (_build_branch example_converter (Some example_levels) (Some 0)
                   (example_record "EUR" "FR" "Lyon" 5) one_branch_world))).
Proof.
  apply (proj1 (proj2 sibling_labels_unique) example_converter
           (Some example_levels) 0 (example_record "EUR" "FR" "Lyon" 5)
           one_branch_world).
  - split; [exact one_branch_world_wf|].
    intros n. rewrite one_branch_world_nodes.
    destruct n as [|[|[|[|[|n]]]]]; reflexivity.
  - rewrite one_branch_world_nodes. simpl. lia.
Defined.

(** ** Leaf payloads *)

Lemma py_eq_str a b : py_eq (PStr a) (PStr b) = true <-> a = b.
Proof. simpl. apply String.eqb_eq. Qed.

Lemma dict_get_in items : forall k v,
  json_object items -> In (k, v) items -> dict_get items k = Some v.
Proof.
  induction items as [|[k0 v0] items IH]; intros k v [Hstr Hnd] Hin;
    [destruct Hin|].
  cbn in Hstr, Hnd. apply List.Forall_cons_iff in Hstr as [[s0 ->] Hstr].
  apply List.NoDup_cons_iff in Hnd as [Hnotin Hnd]. cbn [dict_get].
  destruct Hin as [[= <- <-]|Hin].
  - now rewrite (proj2 (py_eq_str s0 s0) eq_refl).
  - destruct (py_eq (PStr s0) k) eqn:E.
    + exfalso. apply Hnotin.
      assert (Hk : In k (dict_keys items)) by (apply in_map_iff; now exists (k, v)).
      rewrite Forall_forall in Hstr. destruct (Hstr k Hk) as [s ->].
      apply py_eq_str in E. now subst.
    + apply IH; [now split|assumption].
Qed.

Lemma dict_set_new acc k v :
  (forall k', In k' (dict_keys acc) -> py_eq k' k = false) ->
  dict_set acc k v = acc ++ [(k, v)].
Proof.
  induction acc as [|[k0 v0] acc IH]; intros H; [reflexivity|].
  cbn [dict_set]. rewrite (H k0) by now left.
  cbn. f_equal. apply IH. intros k' Hk'. apply H. now right.
Qed.

(** Copying the entries of a decoded object one by one gives them back. *)
Lemma restrict_record_sub items : forall sub acc,
  json_object items ->
  json_object (acc ++ sub) ->
  (forall kv, In kv sub -> In kv items) ->
  restrict_record (PDict items) (dict_keys sub) acc = Ok (acc ++ sub).
Proof.
  induction sub as [|[k v] sub IH]; intros acc Hitems Hobj Hsub.
  - cbn. now rewrite app_nil_r.
  - cbn [dict_keys map fst restrict_record getitem].
    rewrite (dict_get_in items k v Hitems) by (apply Hsub; now left).
    destruct Hobj as [Hstr Hnd].
    rewrite dict_set_new.
    + fold (dict_keys sub). rewrite IH; auto.
      * now rewrite <- app_assoc.
      * rewrite <- app_assoc. now split.
      * intros kv Hkv. apply Hsub. now right.
    + intros k' Hk'. unfold dict_keys in Hstr, Hnd.
      rewrite List.map_app in Hstr, Hnd. cbn in Hstr, Hnd.
      apply List.NoDup_remove_2 in Hnd.
      rewrite Forall_forall in Hstr.
      destruct (Hstr k' ltac:(apply in_or_app; now left)) as [s' ->].
      destruct (Hstr k ltac:(apply in_or_app; right; now left)) as [s ->].
      destruct (py_eq (PStr s') (PStr s)) eqn:E; [|reflexivity].
      apply py_eq_str in E. subst s'. exfalso. apply Hnd.
      apply in_or_app. now left.
Qed.

Lemma filter_none {A} (P : A -> Prop) `{forall x, Decision (P x)} (l : list A) :
  (forall x, In x l -> ~ P x) -> filter P l = [].
Proof.
  induction l as [|x l IH]; intros Hn; [reflexivity|].
  rewrite filter_cons, decide_False by (apply Hn; now left).
  apply IH. intros y Hy. apply Hn. now right.
Qed.

Lemma remaining_keys_complete levels items :
  complete levels (PDict items) ->
  remaining_keys items levels = dict_keys (residual levels items).
Proof.
  intros Hc. unfold remaining_keys.
  rewrite (filter_none (fun l => has_key items (PStr l) = false)).
  - rewrite app_nil_r. unfold residual, is_level, dict_keys.
    induction items as [|[k v] items' IH'] in |- *; [reflexivity|].
    cbn [map fst List.filter]. rewrite filter_cons.
    destruct (existsb (fun l => py_eq k (PStr l)) levels) eqn:E; cbn [negb].
    + rewrite decide_False by discriminate. apply IH'.
    + rewrite decide_True by reflexivity. cbn [map fst]. f_equal. apply IH'.
  - intros l Hl. rewrite <- list_elem_of_In, elem_of_remove_dups, list_elem_of_In in Hl.
    apply (proj2 (complete_b_spec levels items)) in Hc.
    unfold complete_b in Hc. rewrite forallb_forall in Hc.
    cbn [record_items] in Hc. rewrite (Hc l Hl). discriminate.
Qed.

Lemma residual_in levels items kv :
  In kv (residual levels items) <->
  In kv items /\ forall l, In l levels -> fst kv <> PStr l.
Proof.
  unfold residual. rewrite filter_In, negb_true_iff. unfold is_level.
  split; intros [Hin H]; (split; [exact Hin|]).
  - intros l Hl Heq.
    assert (Hex : existsb (fun l => py_eq (fst kv) (PStr l)) levels = true).
    { apply existsb_exists. exists l. split; [exact Hl|]. now apply py_eq_str_r. }
    congruence.
  - destruct (existsb _ levels) eqn:E; [|reflexivity].
    apply existsb_exists in E as (l & Hl & Heq). apply py_eq_str_r in Heq.
    now apply H in Hl.
Qed.

Lemma residual_object levels items :
  json_object items -> json_object (residual levels items).
Proof.
  unfold json_object, residual, dict_keys.
  induction items as [|[k v] items IH]; intros [Hstr Hnd]; [now split|].
  cbn in Hstr, Hnd. apply List.Forall_cons_iff in Hstr as [Hk Hstr].
  apply List.NoDup_cons_iff in Hnd as [Hnotin Hnd].
  destruct (IH (conj Hstr Hnd)) as [IH1 IH2].
  cbn [List.filter fst]. destruct (negb (is_level levels k)); [|now split].
  cbn [map fst]. split.
  - now constructor.
  - constructor; [|assumption]. intros Hin. apply Hnotin.
    apply in_map_iff in Hin as (kv & Hfst & Hin). apply filter_In in Hin as [Hin _].
    apply in_map_iff. now exists kv.
Qed.

(** The payload computed in line 78-79 for a decoded object that has every
    nesting level. *)
Lemma restrict_record_residual levels items :
  json_object items -> complete levels (PDict items) ->
  restrict_record (PDict items) (remaining_keys items levels) [] =
    Ok (residual levels items).
Proof.
  intros Hobj Hc. rewrite remaining_keys_complete by assumption.
  rewrite (restrict_record_sub items (residual levels items) []); auto.
  - now apply residual_object.
  - intros kv Hkv. now apply residual_in in Hkv.
Qed.

(** The loop body of [create_tree] on a decoded object that has every
    nesting level: the leaf that [_build_branch] returns gets the
    residual attributes as its payload, no other node changes. *)
Lemma attach_record_payload self items w leaf w1 :
  wf_heap (root_node self) (nodes w) ->
  json_object items ->
  complete (nesting_levels self) (PDict items) ->
  _build_branch self (Some (nesting_levels self)) (Some (root_node self))
    (PDict items) w = (Ok leaf, w1) ->
  exists w2,
    attach_record self (PDict items) w = (Ok tt, w2)
    /\ w2 = snd (set_values leaf
                   (PList [PDict (residual (nesting_levels self) items)]) w1)
    /\ leaf < length (nodes w1)
    /\ node_values (nodes w2) leaf
       = Some (PList [PDict (residual (nesting_levels self) items)])
    /\ (forall m, m <> leaf -> get_node (nodes w2) m = get_node (nodes w1) m).
Proof.
  intros Hwf Hobj Hc Hrun.
  assert (Hr : forall cur, Some (root_node self) = Some cur ->
                 cur < length (nodes w)) by (intros cur [= <-]; exact (proj1 Hwf)).
  destruct (build_branch_preserves self (Some (nesting_levels self))
              (Some (root_node self)) (PDict items) w Hwf Hr) as (_ & _ & _ & Hleaf).
  rewrite Hrun in Hleaf. cbn [fst snd] in Hleaf. specialize (Hleaf leaf eq_refl).
  unfold attach_record, bind. rewrite Hrun. unfold lift.
  rewrite restrict_record_residual by assumption.
  destruct (set_values_heap leaf
              (PList [PDict (residual (nesting_levels self) items)]) w1)
    as (_ & _ & _ & _ & Hother & Hval).
  eexists. split; [reflexivity|]. cbn [snd] in *. splits; auto.
Qed.


(** ** Export *)

Lemma py_eq_refl_hashable k : hashable k = true -> py_eq k k = true.
Proof.
  destruct k; try discriminate; intros _; simpl.
  - reflexivity.
  - now destruct b.
  - apply Z.eqb_refl.
  - apply String.eqb_refl.
Qed.

Lemma labels_distinct_middle l1 k l2 :
  labels_distinct (l1 ++ k :: l2) = true ->
  forall k', In k' l1 -> py_eq k' k = false.
Proof.
  induction l1 as [|x l1 IH]; intros Hd k' Hin; [destruct Hin|].
  cbn in Hd. apply andb_prop in Hd as [Hall Hd]. destruct Hin as [->|Hin].
  - rewrite forallb_forall in Hall. apply negb_true_iff, Hall.
    apply in_or_app. right. now left.
  - now apply IH.
Qed.

Lemma dict_get_middle done k x rest :
  (forall k', In k' (dict_keys done) -> py_eq k' k = false) ->
  py_eq k k = true ->
  dict_get (done ++ (k, x) :: rest) k = Some x.
Proof.
  induction done as [|[k0 v0] done IH]; intros Hnew Hrefl; cbn.
  - now rewrite Hrefl.
  - rewrite (Hnew k0) by now left. apply IH; [|assumption].
    intros k' Hk'. apply Hnew. now right.
Qed.

Lemma dict_set_middle done k x rest v :
  (forall k', In k' (dict_keys done) -> py_eq k' k = false) ->
  py_eq k k = true ->
  dict_set (done ++ (k, x) :: rest) k v = done ++ (k, v) :: rest.
Proof.
  induction done as [|[k0 v0] done IH]; intros Hnew Hrefl; cbn.
  - now rewrite Hrefl.
  - rewrite (Hnew k0) by now left. f_equal. apply IH; [|assumption].
    intros k' Hk'. apply Hnew. now right.
Qed.

Lemma add_placeholders_distinct keys : forall acc,
  labels_distinct (dict_keys acc ++ keys) = true ->
  add_placeholders acc keys = acc ++ map (fun k => (k, PDict [])) keys.
Proof.
  induction keys as [|k keys IH]; intros acc Hd.
  - cbn. now rewrite app_nil_r.
  - cbn [add_placeholders fold_left]. rewrite dict_set_new.
    + fold (add_placeholders (acc ++ [(k, PDict [])]) keys). rewrite IH.
      * now rewrite <- app_assoc.
      * unfold dict_keys. rewrite List.map_app, <- app_assoc. exact Hd.
    + now apply labels_distinct_middle with (l2 := keys).
Qed.

(** The loop over the children, started on their placeholders, stores
    for every child what its export yields. *)
Lemma export_children_run export h (res : node_id -> value) cs : forall done,
  labels_distinct (dict_keys done ++ map (node_name h) cs) = true ->
  (forall c, In c cs -> hashable (node_name h c) = true) ->
  (forall c, In c cs ->
     exists vals sub', export c (PDict []) = Ok (vals, sub')
                       /\ res c = if truthy vals then vals else sub') ->
  export_children export h cs
    (done ++ map (fun c => (node_name h c, PDict [])) cs)
  = Ok (done ++ map (fun c => (node_name h c, res c)) cs).
Proof.
  induction cs as [|c cs IH]; intros done Hd Hhash Hexp; [reflexivity|].
  cbn [map export_children].
  assert (Hnew : forall k', In k' (dict_keys done) ->
                   py_eq k' (node_name h c) = false).
  { eapply labels_distinct_middle. exact Hd. }
  assert (Hrefl : py_eq (node_name h c) (node_name h c) = true).
  { apply py_eq_refl_hashable, Hhash. now left. }
  rewrite dict_get_middle by assumption.
  destruct (Hexp c ltac:(now left)) as (vals & sub' & Hrun & Hres).
  rewrite Hrun. rewrite dict_set_middle by assumption.
  assert (Hstored :
    (if truthy vals
     then dict_set (done ++ (node_name h c, sub')
                      :: map (fun c0 => (node_name h c0, PDict [])) cs)
            (node_name h c) vals
     else done ++ (node_name h c, sub')
            :: map (fun c0 => (node_name h c0, PDict [])) cs)
    = (done ++ [(node_name h c, res c)])
        ++ map (fun c0 => (node_name h c0, PDict [])) cs).
  { rewrite Hres. destruct (truthy vals).
    - rewrite dict_set_middle by assumption. now rewrite <- app_assoc.
    - now rewrite <- app_assoc. }
  rewrite Hstored, IH.
  - now rewrite <- app_assoc.
  - unfold dict_keys. rewrite List.map_app, <- app_assoc. exact Hd.
  - intros c' Hc'. apply Hhash. now right.
  - intros c' Hc'. apply Hexp. now right.
Qed.

(** [_export_layer] computes what the design describes: on the empty
    placeholder it returns the payload of a leaf, and for an internal
    node it leaves the mapping of its children in the placeholder. *)
Lemma export_layer_exported root h :
  wf_heap root h -> siblings_distinct h -> exportable h ->
  forall fuel n,
    length h <= n + fuel -> n < length h ->
    (is_leaf h n = true -> exists v, node_values h n = Some v) ->
    exists vals sub',
      _export_layer fuel h n (PDict []) = Ok (vals, sub')
      /\ exported fuel h n = (if truthy vals then vals else sub')
      /\ (is_leaf h n = false -> vals = PNone /\ sub' = exported fuel h n).
Proof.
  intros Hwf Hdist Hexp. induction fuel as [|fuel IH]; intros n Hfuel Hn Hleaf;
    [lia|].
  cbn [_export_layer exported]. destruct (is_leaf h n) eqn:Hl.
  - destruct (Hleaf eq_refl) as [v Hv]. rewrite Hv.
    exists v, (PDict []). splits; auto. discriminate.
  - assert (Hhash : forallb hashable (map (node_name h) (node_children h n)) = true).
    { apply forallb_forall. intros k Hk.
      apply in_map_iff in Hk as (c & <- & Hc). now apply (Hexp n c). }
    rewrite Hhash. cbn [negb].
    rewrite (add_placeholders_distinct _ []) by apply Hdist.
    cbn [app]. rewrite List.map_map.
    pose proof (export_children_run (_export_layer fuel h) h (exported fuel h)
                  (node_children h n) []) as Hloop.
    cbn [app dict_keys map] in Hloop. rewrite Hloop.
    + eexists PNone, _. splits; [reflexivity|reflexivity|auto].
    + apply Hdist.
    + intros c Hc. now apply (Hexp n c).
    + intros c Hc. destruct (proj2 Hwf n c Hc) as (Hlt & Hc' & _).
      destruct (IH c ltac:(lia) Hc' (proj2 (Hexp n c Hc)))
        as (vals & sub' & Hrun & Hres & _).
      eauto.
Qed.

(** ** The example scenario *)

(** C1 (end-to-end example): a converter for the levels currency,
    country, city, given a text that decodes to the three records of the
    scenario, builds the tree without raising, and [export_tree] then
    returns the serialization (sorted keys, two spaces of indentation)
    of the nested mapping EUR: (ES: (Madrid: [amount 7]), FR: (Lyon:
    [amount 5], Paris: [amount 10])). *)
Theorem example_scenario (json_loads : string -> result value)
    (input_data : string) :
  json_loads input_data = Ok (PList example_records) ->
  exists w1,
    init example_levels empty_world = (Ok example_converter, fresh_world)
    /\ create_tree json_loads example_converter input_data fresh_world
       = (Ok tt, w1)
    /\ export_tree example_converter w1 = (Ok example_output, w1)
    /\ json_dumps example_mapping = Ok example_output.
Proof.
  intros Hload. eexists. splits.
  - reflexivity.
  - unfold create_tree, bind, lift. rewrite Hload. vm_compute. reflexivity.
  - vm_compute. reflexivity.
  - vm_compute. reflexivity.
Qed.

Lemma example_input_decodes :
  json_decode example_input = Ok (PList example_records).
Proof. vm_compute. reflexivity. Qed.

Lemma example_scenario_witness :
  exists w1,
    init example_levels empty_world = (Ok example_converter, fresh_world)
    /\ create_tree json_decode example_converter example_input fresh_world
       = (Ok tt, w1)
    /\ export_tree example_converter w1 = (Ok example_output, w1)
    /\ json_dumps example_mapping = Ok example_output.
Proof.
  apply (example_scenario json_decode example_input).
  exact example_input_decodes.
Defined.

(** ** The tree after successful builds *)

(** One step of a successful call: the value of the level was found,
    there was at most one matching child, and the call went on at that
    child or at a new one. *)
Lemma build_branch_levels_ok_step self level rest cur record w leaf w1 :
  truthy record = true ->
  build_branch_levels self (level :: rest) (Some cur) record w = (Ok leaf, w1) ->
  exists v,
    getitem record (PStr level) = Ok v
    /\ ((exists n, In n (node_children (nodes w) cur)
                   /\ py_eq (node_name (nodes w) n) v = true
                   /\ rest <> []
                   /\ build_branch_levels self rest (Some n) record w = (Ok leaf, w1))
        \/ (existing_children (nodes w) cur v = []
            /\ build_branch_levels self rest (Some (length (nodes w))) record
                 (snd (new_node v (Some cur) w)) = (Ok leaf, w1))).
Proof.
  intros Ht. rewrite build_branch_levels_cons by assumption.
  destruct (getitem record (PStr level)) as [v|e]; [|discriminate].
  cbn zeta. intros Hrun. exists v. split; [reflexivity|].
  destruct (Nat.ltb 1 _); [discriminate|].
  destruct (existing_children (nodes w) cur v) as [|n ns] eqn:Hex.
  - right. cbn in Hrun. auto.
  - left. exists n.
    assert (Hin : In n (existing_children (nodes w) cur v))
      by (rewrite Hex; now left).
    apply existing_children_in in Hin as [Hin Heq].
    destruct rest as [|l rest']; [discriminate|].
    cbn in Hrun. splits; auto.
Qed.

(** After a successful call with at least one level the current node
    has a child. *)
Lemma build_branch_levels_ok_children self level rest cur record w leaf w1 :
  truthy record = true ->
  wf_heap (root_node self) (nodes w) ->
  cur < length (nodes w) ->
  build_branch_levels self (level :: rest) (Some cur) record w = (Ok leaf, w1) ->
  is_leaf (nodes w1) cur = false.
Proof.
  intros Ht Hwf Hcur Hrun.
  destruct (build_branch_levels_ok_step _ _ _ _ _ _ _ _ Ht Hrun) as (v & Hget & _).
  pose proof (build_branch_levels_children self level rest cur record w v
                Ht Hwf Hcur Hget) as Hch.
  cbn zeta in Hch. rewrite Hrun in Hch. cbn [snd] in Hch.
  destruct (build_branch_levels_ok_step _ _ _ _ _ _ _ _ Ht Hrun)
    as (v' & Hget' & Hcase).
  assert (v' = v) by congruence. subst v'. unfold is_leaf.
  destruct Hch as [Hsame|(_ & Happ & _)].
  - destruct Hcase as [(n & Hin & _)|(Hex & Hrun')].
    + rewrite Hsame. destruct (node_children (nodes w) cur); [destruct Hin|reflexivity].
    + destruct (new_node_preserves (root_node self) v cur w Hwf Hcur Hex)
        as (Hwf' & _ & _).
      destruct (new_node_heap v cur w Hcur) as (_ & _ & Hlen & _).
      destruct (build_branch_levels_inv self rest (length (nodes w)) record
                  (snd (new_node v (Some cur) w)) Ht Hwf' ltac:(lia))
        as (_ & _ & [_ Hgrow] & _).
      rewrite Hrun' in Hgrow. cbn [snd] in Hgrow.
      destruct (Hgrow cur ltac:(lia)) as (_ & _ & _ & _ & Hkeep).
      rewrite Hkeep, new_node_children, Nat.eqb_refl by assumption.
      now destruct (node_children (nodes w) cur).
  - rewrite Happ. now destruct (node_children (nodes w) cur).
Qed.

(** The nodes a successful call creates: each carries the value of the
    record at one of the levels, and each but the returned leaf has a
    child. *)
Lemma build_branch_levels_new self levels : forall cur record w leaf w1,
  truthy record = true ->
  wf_heap (root_node self) (nodes w) ->
  cur < length (nodes w) ->
  build_branch_levels self levels (Some cur) record w = (Ok leaf, w1) ->
  forall m, length (nodes w) <= m -> m < length (nodes w1) ->
    (m = leaf \/ is_leaf (nodes w1) m = false)
    /\ (exists l v, In l levels /\ getitem record (PStr l) = Ok v
                    /\ node_name (nodes w1) m = v).
Proof.
  induction levels as [|level rest IH]; intros cur record w leaf w1 Ht Hwf Hcur Hrun m Hm1 Hm2.
  - rewrite build_branch_levels_nil in Hrun by assumption.
    destruct (Nat.eqb cur (root_node self)); [discriminate|].
    injection Hrun as <- <-. lia.
  - destruct (build_branch_levels_ok_step _ _ _ _ _ _ _ _ Ht Hrun)
      as (v & Hget & [(n & Hin & _ & _ & Hrun')|(Hex & Hrun')]).
    + destruct (proj2 Hwf _ _ Hin) as (_ & Hn & _).
      destruct (IH n record w leaf w1 Ht Hwf Hn Hrun' m Hm1 Hm2)
        as (H1 & l & v' & Hl & Hg & Hname).
      split; [exact H1|]. exists l, v'. splits; auto. now right.
    + set (w' := snd (new_node v (Some cur) w)) in *.
      destruct (new_node_preserves (root_node self) v cur w Hwf Hcur Hex)
        as (Hwf' & _ & _). fold w' in Hwf'.
      destruct (new_node_heap v cur w Hcur) as (_ & _ & Hlen & Hnew & _).
      fold w' in Hlen, Hnew.
      assert (Hn : length (nodes w) < length (nodes w')) by lia.
      destruct (Nat.eq_dec m (length (nodes w))) as [->|Hne].
      * destruct (build_branch_levels_inv self rest (length (nodes w)) record w'
                    Ht Hwf' Hn) as (_ & _ & [_ Hgrow] & _ & Hleaf & _).
        rewrite Hrun' in Hgrow, Hleaf. cbn [fst snd] in Hgrow, Hleaf.
        split.
        -- destruct rest as [|l rest'].
           ++ left. destruct (Hleaf leaf eq_refl) as (_ & [[-> _]|[_ Hc]] & _);
                [reflexivity|contradiction].
           ++ right. eapply build_branch_levels_ok_children; eauto.
        -- exists level, v. splits; [now left|exact Hget|].
           destruct (Hgrow (length (nodes w)) Hn) as (Hname & _).
           unfold node_name. now rewrite Hname, Hnew.
      * destruct (IH (length (nodes w)) record w' leaf w1 Ht Hwf' Hn Hrun' m
                    ltac:(lia) Hm2) as (H1 & l & v' & Hl & Hg & Hname).
        split; [exact H1|]. exists l, v'. splits; auto. now right.
Qed.

Lemma build_branch_levels_ok_truthy self levels cur record w leaf w1 :
  build_branch_levels self levels (Some cur) record w = (Ok leaf, w1) ->
  truthy record = true.
Proof.
  destruct (truthy record) eqn:Ht; [reflexivity|].
  destruct levels; cbn; rewrite Ht; discriminate.
Qed.

Lemma is_leaf_grows cur h h' n :
  grows_below cur h h' -> n < length h ->
  is_leaf h' n = true -> is_leaf h n = true.
Proof.
  intros [_ Hg] Hn. destruct (Hg n Hn) as (_ & _ & _ & [added Hch] & _).
  unfold is_leaf. rewrite Hch. now destruct (node_children h n).
Qed.

(** A successful pass of the loop body of [create_tree] keeps: labels
    accepted by [P], payloads on all leaves accepted by [Q]. *)
Lemma attach_record_ok_invariants (P Q : value -> Prop) self items w w2 :
  wf_heap (root_node self) (nodes w) ->
  labelled P (root_node self) (nodes w) ->
  payloads Q (root_node self) (nodes w) ->
  json_object items ->
  complete (nesting_levels self) (PDict items) ->
  (forall l v, In l (nesting_levels self) ->
     getitem (PDict items) (PStr l) = Ok v -> P v) ->
  Q (PList [PDict (residual (nesting_levels self) items)]) ->
  attach_record self (PDict items) w = (Ok tt, w2) ->
  wf_heap (root_node self) (nodes w2)
  /\ is_leaf (nodes w2) (root_node self) = false
  /\ labelled P (root_node self) (nodes w2)
  /\ payloads Q (root_node self) (nodes w2).
Proof.
  intros Hwf Hlab Hpay Hobj Hc HP HQ Hrun.
  split; [exact (proj1 (attach_record_preserves _ _ _ _ _ Hwf Hrun))|].
  pose proof Hrun as Hrun0.
  apply bind_run in Hrun as [(leaf & w1 & Hb & _)|(e & _ & [=])].
  destruct (attach_record_payload self items w leaf w1 Hwf Hobj Hc Hb)
    as (w2' & Hatt & Hw2 & Hleaf & Hval & Hother).
  assert (Heq2 : w2' = w2) by congruence. rewrite Heq2 in *. clear Heq2 w2'.
  destruct (set_values_heap leaf
              (PList [PDict (residual (nesting_levels self) items)]) w1)
    as (Hlen & _ & Hname & Hch & _). rewrite <- Hw2 in Hlen, Hname, Hch.
  rewrite build_branch_some in Hb.
  pose proof (build_branch_levels_ok_truthy _ _ _ _ _ _ _ Hb) as Ht.
  destruct (build_branch_levels_inv self (nesting_levels self) (root_node self)
              (PDict items) w Ht Hwf (proj1 Hwf)) as (_ & _ & Hgrow & _).
  rewrite Hb in Hgrow. cbn [snd] in Hgrow.
  pose proof (build_branch_levels_new self (nesting_levels self) (root_node self)
                (PDict items) w leaf w1 Ht Hwf (proj1 Hwf) Hb) as Hnew.
  splits.
  - unfold is_leaf. rewrite Hch. fold (is_leaf (nodes w1) (root_node self)).
    destruct (nesting_levels self) as [|level rest] eqn:Hlv.
    + rewrite build_branch_levels_nil, Nat.eqb_refl in Hb by assumption.
      discriminate.
    + eapply build_branch_levels_ok_children; eauto. exact (proj1 Hwf).
  - intros n Hn Hroot. rewrite Hname. rewrite Hlen in Hn.
    destruct (Nat.lt_ge_cases n (length (nodes w))) as [Hold|Hnewn].
    + destruct (proj2 Hgrow n Hold) as (Hnm & _).
      unfold node_name. rewrite Hnm. now apply Hlab.
    + destruct (Hnew n Hnewn Hn) as (_ & l & v & Hl & Hget & <-). eauto.
  - intros n Hn Hroot Hlf. rewrite Hlen in Hn.
    destruct (Nat.eq_dec n leaf) as [->|Hne]; [eauto|].
    unfold node_values. rewrite Hother by assumption.
    assert (Hlf1 : is_leaf (nodes w1) n = true).
    { unfold is_leaf in *. now rewrite <- Hch. }
    destruct (Nat.lt_ge_cases n (length (nodes w))) as [Hold|Hnewn].
    + destruct (proj2 Hgrow n Hold) as (_ & _ & Hv & _). rewrite Hv.
      apply Hpay; auto. eapply is_leaf_grows; eauto.
    + destruct (Hnew n Hnewn Hn) as ([?|Hnl] & _); congruence.
Qed.

(** What a successful validation has checked. *)
Lemma validate_ok self input_data w valid w1 :
  _validate_input_data self input_data w = (Ok valid, w1) ->
  valid = true /\ w1 = w
  /\ exists r records,
       input_data = PList (r :: records)
       /\ forall x, In x (r :: records) ->
            exists items, x = PDict items /\ complete (nesting_levels self) x.
Proof.
  unfold _validate_input_data.
  destruct (truthy input_data && is_list input_data && _) eqn:Hs;
    [|discriminate].
  apply structure_check in Hs as (r & records & -> & Hall).
  cbn [negb]. unfold bind. rewrite count_missing_run. cbn [Nat.add].
  destruct (offending (nesting_levels self) (r :: records)) as [|o os] eqn:Hoff;
    [|discriminate].
  cbn. rewrite app_nil_r. intros [= <- <-]. splits; auto; [now destruct w|].
  exists r, records. split; [reflexivity|]. intros x Hx.
  rewrite Forall_forall in Hall. specialize (Hall x Hx).
  destruct x; try discriminate. exists items. split; [reflexivity|].
  apply complete_b_spec. destruct (complete_b _ (PDict items)) eqn:Hcb;
    [reflexivity|].
  assert (Hin : In (PDict items) (offending (nesting_levels self) (r :: records))).
  { unfold offending. rewrite <- list_elem_of_In, list_elem_of_filter, list_elem_of_In.
    now split. }
  rewrite Hoff in Hin. destruct Hin.
Qed.

Lemma attach_records_ok_invariants (P Q : value -> Prop) self records :
  forall w w2,
    wf_heap (root_node self) (nodes w) ->
    labelled P (root_node self) (nodes w) ->
    payloads Q (root_node self) (nodes w) ->
    Forall (complete (nesting_levels self)) records ->
    Forall (acceptable P Q (nesting_levels self)) records ->
    attach_records self records w = (Ok tt, w2) ->
    wf_heap (root_node self) (nodes w2)
    /\ (records <> [] -> is_leaf (nodes w2) (root_node self) = false)
    /\ labelled P (root_node self) (nodes w2)
    /\ payloads Q (root_node self) (nodes w2).
Proof.
  induction records as [|record rest IH]; intros w w2 Hwf Hlab Hpay Hc Hacc Hrun.
  - injection Hrun as <-. now splits.
  - cbn [attach_records] in Hrun.
    apply bind_run in Hrun as [([] & w1 & Hb & Hrun)|(e & _ & [=])].
    apply List.Forall_cons_iff in Hc as [Hc Hcs].
    apply List.Forall_cons_iff in Hacc as [(items & -> & Hobj & HP & HQ) Haccs].
    destruct (attach_record_ok_invariants P Q self items w w1
                Hwf Hlab Hpay Hobj Hc HP HQ Hb) as (H1 & Hroot & H2 & H3).
    destruct (IH w1 w2 H1 H2 H3 Hcs Haccs Hrun) as (H4 & Hroot' & H5 & H6).
    splits; auto. intros _. destruct rest as [|r' rest'].
    + injection Hrun as <-. exact Hroot.
    + apply Hroot'. discriminate.
Qed.

Lemma create_tree_ok_invariants (P Q : value -> Prop) json_loads self
    input_data records w w2 :
  json_loads input_data = Ok (PList records) ->
  Forall (acceptable P Q (nesting_levels self)) records ->
  wf_heap (root_node self) (nodes w) ->
  labelled P (root_node self) (nodes w) ->
  payloads Q (root_node self) (nodes w) ->
  create_tree json_loads self input_data w = (Ok tt, w2) ->
  wf_heap (root_node self) (nodes w2)
  /\ is_leaf (nodes w2) (root_node self) = false
  /\ labelled P (root_node self) (nodes w2)
  /\ payloads Q (root_node self) (nodes w2).
Proof.
  intros Hload Hacc Hwf Hlab Hpay Hrun. unfold create_tree in Hrun.
  apply bind_run in Hrun as [(loaded & w0 & Hl & Hrun)|(e & _ & [=])].
  unfold lift in Hl. rewrite Hload in Hl. injection Hl as <- <-.
  apply bind_run in Hrun as [(valid & w1 & Hval & Hrun)|(e & _ & [=])].
  apply validate_ok in Hval as (-> & -> & r & rs & Heq & Hall).
  injection Heq as ->.
  assert (Hc : Forall (complete (nesting_levels self)) (r :: rs)).
  { apply Forall_forall. intros x Hx. now destruct (Hall x Hx) as (_ & _ & ?). }
  destruct (attach_records_ok_invariants P Q self (r :: rs) w w2
              Hwf Hlab Hpay Hc Hacc Hrun) as (H1 & Hroot & H2 & H3).
  splits; auto; apply Hroot; discriminate.
Qed.

Lemma exportable_of_invariants (Q : value -> Prop) root h :
  wf_heap root h ->
  labelled (fun v => hashable v = true) root h ->
  payloads Q root h ->
  exportable h.
Proof.
  intros Hwf Hlab Hpay n c Hc. destruct (proj2 Hwf n c Hc) as (_ & Hlt & Hroot).
  split; [now apply Hlab|]. intros Hl.
  destruct (Hpay c Hlt Hroot Hl) as (v & Hv & _). eauto.
Qed.

(** On a tree that satisfies the invariants [export_tree] serializes
    what the design describes for the root, and changes nothing. *)
Lemma export_tree_run self w :
  wf_heap (root_node self) (nodes w) ->
  siblings_distinct (nodes w) ->
  exportable (nodes w) ->
  is_leaf (nodes w) (root_node self) = false ->
  export_tree self w =
    (json_dumps (exported (S (length (nodes w))) (nodes w) (root_node self)), w).
Proof.
  intros Hwf Hdist Hexp Hroot. unfold export_tree, bind, get_heap.
  rewrite Hroot. unfold lift.
  destruct (export_layer_exported (root_node self) (nodes w) Hwf Hdist Hexp
              (S (length (nodes w))) (root_node self))
    as (vals & sub' & Hrun & _ & Hint); [lia|exact (proj1 Hwf)|congruence|].
  destruct (Hint Hroot) as [-> ->]. rewrite Hrun. cbn [snd].
  now destruct (json_dumps _).
Qed.



(** ** The serializer *)

(** Induction on values through their lists and dictionaries. *)
Lemma value_nested_ind (P : value -> Prop) :
  P PNone -> (forall b, P (PBool b)) -> (forall z, P (PInt z)) ->
  (forall s, P (PStr s)) ->
  (forall xs, Forall P xs -> P (PList xs)) ->
  (forall items, Forall (fun kv => P (fst kv) /\ P (snd kv)) items ->
     P (PDict items)) ->
  forall v, P v.
Proof.
  intros HNone HBool HInt HStr HList HDict. fix IH 1. intros v.
  destruct v as [|b|z|s|xs|items].
  - exact HNone.
  - apply HBool.
  - apply HInt.
  - apply HStr.
  - apply HList. induction xs as [|x xs IHxs]; constructor.
    + apply IH.
    + exact IHxs.
  - apply HDict. induction items as [|[k x] items IHitems]; constructor.
    + split; apply IH.
    + exact IHitems.
Qed.

Lemma export_tree_doc self w :
  export_tree self w =
    (match export_doc self w with
     | Ok d => Ok (render 0 d)
     | Raise e => Raise e
     end, w).
Proof.
  unfold export_tree, export_doc, bind, get_heap, raise, lift, json_dumps.
  destruct (is_leaf (nodes w) (root_node self)); [reflexivity|].
  destruct (_export_layer _ _ _ _) as [[vals sub]|e]; [|reflexivity].
  cbn [snd]. now destruct (to_doc sub).
Qed.

Lemma ltb_leb a b : String.ltb a b = true -> String.leb a b = true.
Proof.
  unfold String.ltb, String.leb. now destruct (String.compare a b).
Qed.

Lemma not_ltb_leb a b : String.ltb a b = false -> String.leb b a = true.
Proof.
  unfold String.ltb, String.leb. rewrite (String.compare_antisym b a).
  now destruct (String.compare a b).
Qed.

Lemma ascending_tail k keys : ascending (k :: keys) = true -> ascending keys = true.
Proof.
  cbn [ascending]. intros H. now apply andb_prop in H as [_ H].
Qed.

(** Inserting an item with a string key into items sorted by their
    string keys: no comparison raises, the result is sorted, and its
    first key is the new key or the old first key. *)
Lemma insert_item_strings {A} (a : string) (xa : A) (l : list (value * A)) :
  Forall (fun kv => is_str (fst kv) = true) l ->
  ascending (map (fun kv => key_string (fst kv)) l) = true ->
  exists r,
    insert_item (PStr a, xa) l = Ok r
    /\ Forall (fun kv => is_str (fst kv) = true) r
    /\ ascending (map (fun kv => key_string (fst kv)) r) = true
    /\ (forall z, In z r -> z = (PStr a, xa) \/ In z l)
    /\ (forall b, String.leb b a = true ->
          (forall y l', l = y :: l' -> String.leb b (key_string (fst y)) = true) ->
          forall z r', r = z :: r' -> String.leb b (key_string (fst z)) = true).
Proof.
  induction l as [|[k ya] l IH]; intros Hstr Hasc.
  - exists [(PStr a, xa)]. cbn. splits; auto.
    + intros z [<-|[]]. now left.
    + intros b Hb _ z r' [= <- <-]. exact Hb.
  - apply List.Forall_cons_iff in Hstr as [Hk Hstr]. cbn [fst] in Hk.
    destruct k as [| | |c| |]; try discriminate.
    cbn [insert_item fst key_lt]. destruct (String.ltb a c) eqn:Hlt.
    + eexists. splits; [reflexivity| | | |].
      * repeat constructor; assumption.
      * cbn [map fst key_string ascending] in Hasc |- *.
        now rewrite (ltb_leb _ _ Hlt), Hasc.
      * intros z Hz. destruct Hz as [<-|Hz]; [now left|now right].
      * intros b Hb _ z r' [= <- <-]. exact Hb.
    + destruct (IH Hstr (ascending_tail _ _ Hasc)) as (r & Hr & Hstr' & Hasc' & Hin & Hhead).
      rewrite Hr. exists ((PStr c, ya) :: r). splits; [reflexivity| | | |].
      * constructor; assumption.
      * cbn [map fst key_string ascending]. rewrite Hasc', andb_true_r.
        destruct r as [|z r']; [reflexivity|]. cbn [map].
        apply (Hhead c (not_ltb_leb _ _ Hlt)) with (r' := r'); [|reflexivity].
        intros y l' ->. cbn [map fst key_string ascending] in Hasc.
        now apply andb_prop in Hasc as [Hasc _].
      * intros z [<-|Hz]; [right; now left|].
        destruct (Hin z Hz) as [->|Hz']; [now left|right; now right].
      * intros b Hb Hl z r' [= <- <-]. now apply (Hl (PStr c, ya) l).
Qed.

Lemma sort_items_strings {A} (l : list (value * A)) :
  Forall (fun kv => is_str (fst kv) = true) l ->
  exists r,
    sort_items l = Ok r
    /\ Forall (fun kv => is_str (fst kv) = true) r
    /\ ascending (map (fun kv => key_string (fst kv)) r) = true
    /\ (forall z, In z r -> In z l).
Proof.
  induction l as [|[k xa] l IH]; intros Hstr.
  - exists []. cbn. splits; auto.
  - apply List.Forall_cons_iff in Hstr as [Hk Hstr]. cbn [fst] in Hk.
    destruct k as [| | |a| |]; try discriminate.
    destruct (IH Hstr) as (s & Hs & Hstr' & Hasc & Hin).
    destruct (insert_item_strings a xa s Hstr' Hasc) as (r & Hr & H1 & H2 & H3 & _).
    exists r. cbn [sort_items]. rewrite Hs. splits; auto.
    intros z Hz. destruct (H3 z Hz) as [->|Hz']; [now left|right; auto].
Qed.

Lemma key_texts_strings {A} (l : list (value * A)) :
  Forall (fun kv => is_str (fst kv) = true) l ->
  key_texts l = Ok (map (fun kv => (key_string (fst kv), snd kv)) l).
Proof.
  induction l as [|[k xa] l IH]; intros Hstr; [reflexivity|].
  apply List.Forall_cons_iff in Hstr as [Hk Hstr]. cbn [fst] in Hk.
  destruct k; try discriminate. cbn [key_texts key_text].
  now rewrite (IH Hstr).
Qed.

(** On values whose dictionaries have only strings as keys the encoder
    does not raise, and every object it emits has its keys in ascending
    order. *)
Lemma to_doc_str_keyed v :
  str_keyed v = true -> exists d, to_doc v = Ok d /\ doc_sorted d = true.
Proof.
  induction v as [|b|z|s|xs IH|items IH] using value_nested_ind; intros Hk.
  - eexists. split; reflexivity.
  - destruct b; eexists; split; reflexivity.
  - eexists. split; reflexivity.
  - eexists. split; reflexivity.
  - cbn [to_doc].
    match goal with
    | |- exists d, match ?F xs with _ => _ end = _ /\ _ =>
        assert (HF : exists ds, F xs = Ok ds /\ forallb doc_sorted ds = true)
    end.
    { cbn [str_keyed] in Hk. induction xs as [|x xs IHxs].
      - exists []. split; reflexivity.
      - apply List.Forall_cons_iff in IH as [IHx IH].
        cbn [forallb] in Hk. apply andb_prop in Hk as [Hx Hk].
        destruct (IHx Hx) as (d & Hd & Hsd).
        destruct (IHxs IH Hk) as (ds & Hds & Hsds).
        exists (d :: ds). rewrite Hd, Hds. cbn [forallb].
        now rewrite Hsd, Hsds. }
    destruct HF as (ds & -> & Hsds). exists (DArr ds). now split.
  - cbn [to_doc].
    match goal with
    | |- exists d, match ?F items with _ => _ end = _ /\ _ =>
        assert (HF : exists ms,
                  F items = Ok ms
                  /\ Forall (fun kv => is_str (fst kv) = true) ms
                  /\ Forall (fun kv => doc_sorted (snd kv) = true) ms)
    end.
    { cbn [str_keyed] in Hk. induction items as [|[k x] items IHitems].
      - exists []. splits; auto.
      - apply List.Forall_cons_iff in IH as [[_ IHx] IH]. cbn [snd] in IHx.
        cbn [forallb] in Hk. apply andb_prop in Hk as [Hx Hk].
        apply andb_prop in Hx as [Hkstr Hx].
        destruct (IHx Hx) as (d & Hd & Hsd).
        destruct (IHitems IH Hk) as (ms & Hms & Hstr & Hsorted).
        exists ((k, d) :: ms). rewrite Hd, Hms. splits; auto. }
    destruct HF as (ms & -> & Hstr & Hsorted).
    destruct (sort_items_strings ms Hstr) as (r & -> & Hstr' & Hasc & Hin).
    rewrite (key_texts_strings r Hstr'). eexists. split; [reflexivity|].
    cbn [doc_sorted]. rewrite List.map_map. cbn [fst]. rewrite Hasc. cbn [andb].
    apply forallb_forall. intros [k d] Hm.
    apply in_map_iff in Hm as ([k' d'] & [= <- <-] & Hm). cbn [snd].
    rewrite Forall_forall in Hsorted. exact (Hsorted _ (Hin _ Hm)).
Qed.

(** ** Determinism and key order of the export *)

Lemma exported_str_keyed root h :
  wf_heap root h ->
  labelled (fun v => is_str v = true) root h ->
  payloads (fun v => str_keyed v = true) root h ->
  forall fuel n,
    n < length h -> (is_leaf h n = true -> n <> root) ->
    str_keyed (exported fuel h n) = true.
Proof.
  intros Hwf Hlab Hpay. induction fuel as [|fuel IH]; intros n Hn Hroot;
    [reflexivity|].
  cbn [exported]. destruct (is_leaf h n) eqn:Hl.
  - destruct (Hpay n Hn (Hroot eq_refl) Hl) as (v & -> & Hv).
    now destruct (truthy v).
  - cbn [str_keyed]. apply forallb_forall. intros [k x] Hkx.
    apply in_map_iff in Hkx as (c & [= <- <-] & Hc).
    destruct (proj2 Hwf n c Hc) as (_ & Hlt & Hne).
    rewrite (Hlab c Hlt Hne). cbn [andb]. now apply IH.
Qed.

Lemma residual_str_keyed levels items :
  str_keyed (PDict items) = true ->
  str_keyed (PList [PDict (residual levels items)]) = true.
Proof.
  cbn [str_keyed forallb]. rewrite andb_true_r. intros H.
  rewrite forallb_forall in H. apply forallb_forall. intros kv Hkv.
  apply H. unfold residual in Hkv. now apply filter_In in Hkv.
Qed.

Lemma string_labelled_acceptable levels record :
  string_labelled levels record ->
  acceptable (fun v => is_str v = true) (fun v => str_keyed v = true)
    levels record.
Proof.
  intros (items & -> & Hobj & Hk & Hl). exists items. splits; auto.
  now apply residual_str_keyed.
Qed.

Lemma fresh_world_labelled P : labelled P 0 (nodes fresh_world).
Proof. intros n Hn Hne. cbn in Hn. lia. Qed.

Lemma fresh_world_payloads Q : payloads Q 0 (nodes fresh_world).
Proof. intros n Hn Hne. cbn in Hn. lia. Qed.

Lemma labelled_impl (P P' : value -> Prop) root h :
  (forall v, P v -> P' v) -> labelled P root h -> labelled P' root h.
Proof. intros Himp H n Hn Hne. apply Himp. now apply H. Qed.

Lemma is_str_hashable v : is_str v = true -> hashable v = true.
Proof. now destruct v. Qed.

Lemma export_doc_run self w :
  wf_heap (root_node self) (nodes w) ->
  siblings_distinct (nodes w) ->
  exportable (nodes w) ->
  is_leaf (nodes w) (root_node self) = false ->
  export_doc self w =
    to_doc (exported (S (length (nodes w))) (nodes w) (root_node self)).
Proof.
  intros Hwf Hdist Hexp Hroot. unfold export_doc. rewrite Hroot.
  destruct (export_layer_exported (root_node self) (nodes w) Hwf Hdist Hexp
              (S (length (nodes w))) (root_node self))
    as (vals & sub' & Hrun & _ & Hint); [lia|exact (proj1 Hwf)|congruence|].
  destruct (Hint Hroot) as [-> ->]. now rewrite Hrun.
Qed.


Lemma export_tree_world self w : snd (export_tree self w) = w.
Proof. now rewrite export_tree_doc. Qed.

Lemma fresh_world_string_labels : string_labels 0 (nodes fresh_world).
Proof.
  unfold string_labels.
  splits; [exact fresh_world_wf|exact fresh_world_distinct
          |apply fresh_world_labelled|apply fresh_world_payloads].
Qed.

(** After a successful [create_tree] on records with strings at the
    nesting levels, in a tree with string labels, the tree has string
    labels and [export_tree] returns the rendering of a document with
    sorted keys. *)
Lemma export_string_labels json_loads self input_data records w w2 :
  string_labels (root_node self) (nodes w) ->
  json_loads input_data = Ok (PList records) ->
  Forall (string_labelled (nesting_levels self)) records ->
  create_tree json_loads self input_data w = (Ok tt, w2) ->
  string_labels (root_node self) (nodes w2)
  /\ exists d,
       export_doc self w2 = Ok d
       /\ doc_sorted d = true
       /\ export_tree self w2 = (Ok (render 0 d), w2).
Proof.
  intros (Hwf0 & Hd0 & Hlab0 & Hpay0) Hload Hrec Hrun.
  assert (Hacc : Forall (acceptable (fun v => is_str v = true)
                           (fun v => str_keyed v = true) (nesting_levels self))
                   records).
  { eapply Forall_impl; [|exact Hrec]. apply string_labelled_acceptable. }
  destruct (create_tree_ok_invariants _ _ json_loads self input_data records
              w w2 Hload Hacc Hwf0 Hlab0 Hpay0 Hrun)
    as (Hwf & Hroot & Hlab & Hpay).
  destruct (create_tree_preserves json_loads self input_data w _ _
              Hwf0 Hrun) as [_ Hdist].
  specialize (Hdist Hd0).
  split; [unfold string_labels; now splits|].
  assert (Hexp : exportable (nodes w2)).
  { eapply exportable_of_invariants; eauto.
    eapply labelled_impl; [|exact Hlab]. apply is_str_hashable. }
  pose proof (export_doc_run self w2 Hwf Hdist Hexp Hroot) as Hdoc.
  pose proof (exported_str_keyed (root_node self) (nodes w2) Hwf Hlab Hpay
                (S (length (nodes w2))) (root_node self) (proj1 Hwf)) as Hkeyed.
  destruct (to_doc_str_keyed _ (Hkeyed ltac:(congruence)))
    as (d & Hd & Hsorted).
  rewrite Hd in Hdoc.
  exists d. splits; auto.
  rewrite export_tree_doc. now rewrite Hdoc.
Qed.

(** C7, as the code has it: [export_tree] changes nothing, so a second
    call on the same instance has the outcome of the first, and when the
    first returns a string the second returns the same string; the tree
    of a new converter has only string labels, a successful
    [create_tree] on decoded records whose values at the nesting levels
    are strings keeps it so, and after such a call [export_tree] does
    return a string, in which the keys of every mapping, at every level,
    are in ascending lexicographic order, whatever the order of the
    records. *)
Theorem export_deterministic_sorted :
  (forall self w, snd (export_tree self w) = w)
  /\ (forall self w s,
        fst (export_tree self w) = Ok s ->
        export_twice self w = (Ok (s, s), w))
  /\ (forall self w s1 s2 w',
        export_twice self w = (Ok (s1, s2), w') -> s1 = s2 /\ w' = w)
  /\ string_labels 0 (nodes fresh_world)
  /\ (forall json_loads self input_data records w w2,
        string_labels (root_node self) (nodes w) ->
        json_loads input_data = Ok (PList records) ->
        Forall (string_labelled (nesting_levels self)) records ->
        create_tree json_loads self input_data w = (Ok tt, w2) ->
        string_labels (root_node self) (nodes w2)
        /\ exists d,
             export_doc self w2 = Ok d
             /\ doc_sorted d = true
             /\ export_twice self w2 = (Ok (render 0 d, render 0 d), w2)).
Proof.
  assert (Htwice : forall self w s,
            fst (export_tree self w) = Ok s ->
            export_twice self w = (Ok (s, s), w)).
  { intros self w s Hs. unfold export_twice, bind.
    pose proof (export_tree_world self w) as Hw.
    destruct (export_tree self w) as [r w0] eqn:Hrun. cbn [fst snd] in Hs, Hw.
    subst r w0. now rewrite Hrun. }
  splits.
  - exact export_tree_world.
  - exact Htwice.
  - intros self w s1 s2 w' Hrun. unfold export_twice, bind in Hrun.
    pose proof (export_tree_world self w) as Hw.
    destruct (export_tree self w) as [[s|e] w0] eqn:Hfirst; cbn [snd] in Hw;
      [|discriminate].
    subst w0. rewrite Hfirst in Hrun. now injection Hrun as <- <- <-.
  - exact fresh_world_string_labels.
  - intros json_loads self input_data records w w2 Hinv Hload Hrec Hrun.
    destruct (export_string_labels json_loads self input_data records w w2
                Hinv Hload Hrec Hrun) as (Hinv2 & d & Hd & Hsorted & Htree).
    split; [exact Hinv2|].
    exists d. splits; auto. apply Htwice. now rewrite Htree.
Qed.

Lemma example_records_string_labelled :
  Forall (string_labelled example_levels) example_records.
Proof.
  repeat constructor; eexists; (splits; [reflexivity| | |]);
    try reflexivity.
  all: try (split; [repeat constructor; eexists; reflexivity
                   |repeat constructor; cbn; intuition discriminate]).
  all: intros l v [<-|[<-|[<-|[]]]] [= <-]; reflexivity.
Qed.

Lemma export_deterministic_sorted_witness :
  exists w2 d,
    create_tree json_decode example_converter example_input fresh_world
      = (Ok tt, w2)
    /\ string_labels 0 (nodes w2)
    /\ export_doc example_converter w2 = Ok d
    /\ doc_sorted d = true
    /\ export_twice example_converter w2 = (Ok (render 0 d, render 0 d), w2).
Proof.
  destruct (create_tree json_decode example_converter example_input
              fresh_world) as [r w2] eqn:Hrun.
  assert (Hr : r = Ok tt).
  { vm_compute in Hrun. now injection Hrun as <- _. }
  subst r.
  destruct (proj2 (proj2 (proj2 (proj2 export_deterministic_sorted)))
              json_decode example_converter example_input
              example_records fresh_world w2
              (proj1 (proj2 (proj2 (proj2 export_deterministic_sorted))))
              example_input_decodes
              example_records_string_labelled Hrun)
    as (Hinv & d & Hd & Hsorted & Htwice).
  exists w2, d. splits; auto.
Defined.

(** C7 as stated fails: for the records with k = 10 and k = 9
    [create_tree] returns, and [export_tree] returns a text whose keys
    are in the order 9, 10, the order of the numbers; as strings, 10
    comes before 9. *)
Lemma export_numbers_in_numeric_order :
  exists w2,
    json_decode numbers_input
      = Ok (PList [numbered_record 10; numbered_record 9])
    /\ create_tree json_decode (mkConverter ["k"] 0) numbers_input fresh_world
       = (Ok tt, w2)
    /\ export_tree (mkConverter ["k"] 0) w2 = (Ok numbers_output, w2)
    /\ export_doc (mkConverter ["k"] 0) w2
       = Ok (DObj [("9", DArr [DObj []]); ("10", DArr [DObj []])])
    /\ doc_sorted (DObj [("9", DArr [DObj []]); ("10", DArr [DObj []])]) = false
    /\ String.ltb "10" "9" = true.
Proof.
  eexists. splits.
  - vm_compute. reflexivity.
  - vm_compute. reflexivity.
  - vm_compute. reflexivity.
  - vm_compute. reflexivity.
  - reflexivity.
  - reflexivity.
Qed.

(** Labels of different types: [create_tree] returns, the encoder cannot
    order the keys and [export_tree] raises [TypeError]. *)
Lemma export_mixed_labels_raises :
  exists w2,
    create_tree json_decode (mkConverter ["k"] 0) mixed_input fresh_world
      = (Ok tt, w2)
    /\ export_tree (mkConverter ["k"] 0) w2 = (Raise TypeError, w2).
Proof.
  eexists. split; vm_compute; reflexivity.
Qed.

(** ** Duplicates in a grown tree *)

Lemma py_eq_trans_hashable x a b :
  hashable a = true -> py_eq x a = true -> py_eq a b = true ->
  py_eq x b = true.
Proof.
  destruct x, a, b; cbn [py_eq hashable]; try discriminate; intros _;
    rewrite ?Z.eqb_eq, ?String.eqb_eq, ?Bool.eqb_true_iff;
    unfold bool_to_Z;
    try congruence;
    repeat match goal with b : bool |- _ => destruct b end;
    intros; subst; try lia; try discriminate; reflexivity.
Qed.

Lemma tree_extends_refl h : tree_extends h h.
Proof.
  split; [lia|]. intros n _. split; [reflexivity|].
  exists []. now rewrite app_nil_r.
Qed.

Lemma tree_extends_trans h1 h2 h3 :
  tree_extends h1 h2 -> tree_extends h2 h3 -> tree_extends h1 h3.
Proof.
  intros [Hl12 H12] [Hl23 H23]. split; [lia|]. intros n Hn.
  destruct (H12 n Hn) as (Hn1 & a1 & Hc1).
  destruct (H23 n ltac:(lia)) as (Hn2 & a2 & Hc2).
  split; [congruence|]. exists (a1 ++ a2). rewrite Hc2, Hc1.
  now rewrite app_assoc.
Qed.

Lemma grows_below_extends cur h h' : grows_below cur h h' -> tree_extends h h'.
Proof.
  intros [Hl H]. split; [exact Hl|]. intros n Hn.
  destruct (H n Hn) as (Hname & _ & _ & Hadd & _).
  split; [exact (f_equal id Hname)|exact Hadd].
Qed.

(** A branch stays a branch when the tree grows. *)
Lemma branch_extends (ok : string -> value -> Prop) root h h' levels :
  wf_heap root h -> tree_extends h h' ->
  forall cur, cur < length h -> branch ok h cur levels -> branch ok h' cur levels.
Proof.
  intros Hwf [_ Hext]. induction levels as [|level rest IH]; intros cur Hcur Hb;
    [exact I|].
  destruct Hb as (c & Hin & Hok & Hrest).
  destruct (proj2 Hwf cur c Hin) as (_ & Hc & _).
  destruct (Hext cur Hcur) as (_ & added & Hch).
  destruct (Hext c Hc) as (Hname & _).
  exists c. splits.
  - rewrite Hch. apply in_or_app. now left.
  - now rewrite Hname.
  - now apply IH.
Qed.

(** After a successful call the path of the record exists below the
    current node. *)
Lemma build_branch_levels_path self levels : forall cur record w leaf w1,
  wf_heap (root_node self) (nodes w) ->
  cur < length (nodes w) ->
  (forall l v, In l levels -> getitem record (PStr l) = Ok v ->
     hashable v = true) ->
  build_branch_levels self levels (Some cur) record w = (Ok leaf, w1) ->
  path_exists (nodes w1) cur levels record.
Proof.
  induction levels as [|level rest IH]; intros cur record w leaf w1 Hwf Hcur Hhash Hrun;
    [exact I|].
  pose proof (build_branch_levels_ok_truthy _ _ _ _ _ _ _ Hrun) as Ht.
  destruct (build_branch_levels_ok_step _ _ _ _ _ _ _ _ Ht Hrun)
    as (v & Hget & [(n & Hin & Heq & _ & Hrun')|(Hex & Hrun')]).
  - destruct (proj2 Hwf _ _ Hin) as (Hlt & Hn & _).
    destruct (build_branch_levels_inv self rest n record w Ht Hwf Hn)
      as (_ & _ & [_ Hgrow] & _). rewrite Hrun' in Hgrow. cbn [snd] in Hgrow.
    exists n. splits.
    + destruct (Hgrow cur Hcur) as (_ & _ & _ & _ & Hsame). now rewrite Hsame.
    + exists v. split; [exact Hget|].
      destruct (Hgrow n Hn) as (Hname & _). unfold node_name. now rewrite Hname.
    + apply (IH n record w leaf w1); auto.
      intros l v' Hl. apply Hhash. now right.
  - set (w' := snd (new_node v (Some cur) w)) in *.
    destruct (new_node_preserves (root_node self) v cur w Hwf Hcur Hex)
      as (Hwf' & _ & _). fold w' in Hwf'.
    destruct (new_node_heap v cur w Hcur) as (_ & _ & Hlen & Hnew & _).
    fold w' in Hlen, Hnew.
    assert (Hn : length (nodes w) < length (nodes w')) by lia.
    destruct (build_branch_levels_inv self rest (length (nodes w)) record w'
                Ht Hwf' Hn) as (_ & _ & [_ Hgrow] & _).
    rewrite Hrun' in Hgrow. cbn [snd] in Hgrow.
    exists (length (nodes w)). splits.
    + destruct (Hgrow cur ltac:(lia)) as (_ & _ & _ & _ & Hsame).
      rewrite Hsame by assumption. unfold w'.
      rewrite new_node_children, Nat.eqb_refl by assumption.
      apply in_or_app. right. now left.
    + exists v. split; [exact Hget|].
      destruct (Hgrow (length (nodes w)) Hn) as (Hname & _).
      unfold node_name. rewrite Hname, Hnew. cbn [name].
      apply py_eq_refl_hashable. apply (Hhash level); [now left|exact Hget].
    + apply (IH (length (nodes w)) record w' leaf w1); auto.
      intros l v' Hl. apply Hhash. now right.
Qed.

Lemma build_branch_extends self remaining cur record w :
  wf_heap (root_node self) (nodes w) -> cur < length (nodes w) ->
  tree_extends (nodes w)
    (nodes (snd (_build_branch self remaining (Some cur) record w))).
Proof.
  intros Hwf Hcur. destruct (truthy record) eqn:Ht.
  - destruct remaining as [levels|].
    + rewrite build_branch_some.
      destruct (build_branch_levels_inv self levels cur record w Ht Hwf Hcur)
        as (_ & _ & Hgrow & _).
      eapply grows_below_extends, Hgrow.
    + cbn. rewrite Ht. apply tree_extends_refl.
  - destruct remaining as [[|l ls]|]; cbn; rewrite Ht; apply tree_extends_refl.
Qed.

Lemma attach_record_extends self record w r w' :
  wf_heap (root_node self) (nodes w) ->
  attach_record self record w = (r, w') ->
  tree_extends (nodes w) (nodes w').
Proof.
  intros Hwf Hrun.
  pose proof (build_branch_extends self (Some (nesting_levels self))
                (root_node self) record w Hwf (proj1 Hwf)) as Hext.
  apply bind_run in Hrun as [(leaf & w1 & Hb & Hrun)|(e & Hb & _)];
    rewrite Hb in Hext; cbn [snd] in Hext; [|exact Hext].
  destruct record; try (injection Hrun as _ <-; exact Hext).
  apply bind_run in Hrun as [(payload & w2 & Hp & Hrun)|(e & Hp & _)];
    unfold lift in Hp.
  - injection Hp as _ <-.
    destruct (set_values_heap leaf (PList [PDict payload]) w1)
      as (Hlen & _ & Hname & Hch & _).
    rewrite Hrun in Hlen, Hname, Hch. cbn [snd] in Hlen, Hname, Hch.
    eapply tree_extends_trans; [exact Hext|].
    split; [lia|]. intros n _. split; [apply Hname|].
    exists []. now rewrite app_nil_r.
  - injection Hp as _ <-. exact Hext.
Qed.

Lemma attach_records_extends self records : forall w r w',
  wf_heap (root_node self) (nodes w) ->
  attach_records self records w = (r, w') ->
  tree_extends (nodes w) (nodes w').
Proof.
  induction records as [|record rest IH]; intros w r w' Hwf Hrun.
  - injection Hrun as _ <-. apply tree_extends_refl.
  - cbn [attach_records] in Hrun.
    apply bind_run in Hrun as [([] & w1 & Hb & Hrun)|(e & Hb & _)].
    + eapply tree_extends_trans.
      * eapply attach_record_extends; eauto.
      * eapply IH; [|exact Hrun].
        exact (proj1 (attach_record_preserves _ _ _ _ _ Hwf Hb)).
    + eapply attach_record_extends; eauto.
Qed.

(** C2 (duplicate detection): for nesting levels (at least one) and two
    records that have them all, with equal ([==]) values at every level:
    building the first record in the tree that has only its root
    returns a leaf, and building the second then raises
    [DuplicateNodesFoundError] and changes nothing; and in any
    well-formed tree, if building the first record (with hashable values
    at the levels) returns a leaf, then building the second raises
    [DuplicateNodesFoundError], also after the tree has grown by
    further builds. *)
Theorem build_branch_second_is_duplicate (levels : list string)
    (first_record duplicate_record : value) :
  levels <> [] ->
  (forall l, In l levels ->
     exists v1 v2, getitem first_record (PStr l) = Ok v1
                   /\ getitem duplicate_record (PStr l) = Ok v2
                   /\ py_eq v1 v2 = true) ->
  (exists leaf w1 site,
     _build_branch (mkConverter levels 0) (Some levels) (Some 0) first_record
       fresh_world = (Ok leaf, w1)
     /\ _build_branch (mkConverter levels 0) (Some levels) (Some 0)
          duplicate_record w1
        = (Raise (DuplicateNodesFoundError site
                    (dict_values (record_items duplicate_record))), w1))
  /\ (forall root w leaf w1 w2,
        wf_heap root (nodes w) ->
        (forall l v, In l levels -> getitem first_record (PStr l) = Ok v ->
           hashable v = true) ->
        _build_branch (mkConverter levels root) (Some levels) (Some root)
          first_record w = (Ok leaf, w1) ->
        tree_extends (nodes w1) (nodes w2) ->
        exists site,
          _build_branch (mkConverter levels root) (Some levels) (Some root)
            duplicate_record w2
          = (Raise (DuplicateNodesFoundError site
                      (dict_values (record_items duplicate_record))), w2)).
Proof.
  intros Hne Heq.
  assert (Ht : truthy first_record = true).
  { destruct levels as [|l ls]; [contradiction|].
    destruct (Heq l ltac:(now left)) as (v1 & _ & Hget & _).
    eapply getitem_truthy; eauto. }
  split.
  - set (self := mkConverter levels 0).
    destruct (build_branch_levels_fresh self levels 0 first_record fresh_world Ht)
      as (leaf & w1 & Hrun & Hb).
    + exact fresh_world_wf.
    + simpl. lia.
    + reflexivity.
    + intros l Hl. destruct (Heq l Hl) as (v1 & _ & Hget & _). eauto.
    + now left.
    + destruct (build_branch_levels_duplicate self levels 0 duplicate_record w1 Hne)
        as [site Hdup].
      * eapply branch_impl; [|exact Hb]. intros l label Hl Hget.
        destruct (Heq l Hl) as (v1 & v2 & Hget1 & Hget2 & Hv).
        exists v2. split; [exact Hget2|]. congruence.
      * exists leaf, w1, site. now rewrite !build_branch_some.
  - intros root w leaf w1 w2 Hwf Hhash Hrun Hext.
    set (self := mkConverter levels root) in *.
    rewrite build_branch_some in Hrun.
    pose proof (build_branch_levels_path self levels root first_record w leaf w1
                  Hwf (proj1 Hwf) Hhash Hrun) as Hpath.
    destruct (build_branch_levels_inv self levels root first_record w Ht Hwf
                (proj1 Hwf)) as (Hwf1 & _).
    rewrite Hrun in Hwf1. cbn [snd] in Hwf1.
    rewrite build_branch_some.
    apply build_branch_levels_duplicate; [exact Hne|].
    eapply branch_impl;
      [|eapply branch_extends; [exact Hwf1|exact Hext|exact (proj1 Hwf1)|exact Hpath]].
    intros l label Hl (v1 & Hget1 & Hlabel).
    destruct (Heq l Hl) as (v1' & v2 & Hget1' & Hget2 & Hv).
    assert (v1' = v1) by congruence. subst v1'.
    exists v2. split; [exact Hget2|].
    eapply py_eq_trans_hashable; eauto.
Qed.

Lemma build_branch_second_is_duplicate_witness :
  exists leaf w1 site,
    _build_branch example_converter (Some example_levels) (Some 0)
      (example_record "EUR" "FR" "Paris" 10) fresh_world = (Ok leaf, w1)
    /\ _build_branch example_converter (Some example_levels) (Some 0)
         (example_record "EUR" "FR" "Paris" 11) w1
       = (Raise (DuplicateNodesFoundError site
                   [PStr "EUR"; PStr "FR"; PStr "Paris"; PInt 11]), w1).
Proof.
  apply (build_branch_second_is_duplicate example_levels
           (example_record "EUR" "FR" "Paris" 10)
           (example_record "EUR" "FR" "Paris" 11)).
  - discriminate.
  - intros l [<-|[<-|[<-|[]]]].
    + exists (PStr "EUR"), (PStr "EUR"). now splits.
    + exists (PStr "FR"), (PStr "FR"). now splits.
    + exists (PStr "Paris"), (PStr "Paris"). now splits.
Defined.

(** ** The payloads in the finished tree *)

(** The leaf a successful call returns is a new node. *)
Lemma build_branch_levels_leaf_new self levels : forall cur record w leaf w1,
  levels <> [] ->
  wf_heap (root_node self) (nodes w) ->
  cur < length (nodes w) ->
  build_branch_levels self levels (Some cur) record w = (Ok leaf, w1) ->
  length (nodes w) <= leaf.
Proof.
  induction levels as [|level rest IH]; intros cur record w leaf w1 Hne Hwf Hcur Hrun;
    [contradiction|].
  pose proof (build_branch_levels_ok_truthy _ _ _ _ _ _ _ Hrun) as Ht.
  destruct (build_branch_levels_ok_step _ _ _ _ _ _ _ _ Ht Hrun)
    as (v & Hget & [(n & Hin & _ & Hrest & Hrun')|(Hex & Hrun')]).
  - destruct (proj2 Hwf _ _ Hin) as (_ & Hn & _).
    now apply (IH n record w leaf w1).
  - destruct (new_node_preserves (root_node self) v cur w Hwf Hcur Hex)
      as (Hwf' & _ & _).
    destruct (new_node_heap v cur w Hcur) as (_ & _ & Hlen & _).
    destruct rest as [|l rest'].
    + rewrite build_branch_levels_nil in Hrun' by assumption.
      destruct (Nat.eqb _ _); [discriminate|]. injection Hrun' as <- _. lia.
    + assert (Hle : length (nodes (snd (new_node v (Some cur) w))) <= leaf).
      { apply (IH (length (nodes w)) record _ leaf w1); auto;
          first [discriminate|lia]. }
      lia.
Qed.

(** After a successful call the path of the record leads from the
    current node to the returned leaf. *)
Lemma build_branch_levels_path_to self levels : forall cur record w leaf w1,
  wf_heap (root_node self) (nodes w) ->
  cur < length (nodes w) ->
  (forall l v, In l levels -> getitem record (PStr l) = Ok v ->
     hashable v = true) ->
  build_branch_levels self levels (Some cur) record w = (Ok leaf, w1) ->
  branch_to (matches record) (nodes w1) cur levels leaf.
Proof.
  induction levels as [|level rest IH]; intros cur record w leaf w1 Hwf Hcur Hhash Hrun.
  - pose proof (build_branch_levels_ok_truthy _ _ _ _ _ _ _ Hrun) as Ht.
    rewrite build_branch_levels_nil in Hrun by assumption.
    destruct (Nat.eqb _ _); [discriminate|]. now injection Hrun as <- _.
  - pose proof (build_branch_levels_ok_truthy _ _ _ _ _ _ _ Hrun) as Ht.
    destruct (build_branch_levels_ok_step _ _ _ _ _ _ _ _ Ht Hrun)
      as (v & Hget & [(n & Hin & Heq & _ & Hrun')|(Hex & Hrun')]).
    + destruct (proj2 Hwf _ _ Hin) as (Hlt & Hn & _).
      destruct (build_branch_levels_inv self rest n record w Ht Hwf Hn)
        as (_ & _ & [_ Hgrow] & _). rewrite Hrun' in Hgrow. cbn [snd] in Hgrow.
      exists n. splits.
      * destruct (Hgrow cur Hcur) as (_ & _ & _ & _ & Hsame). now rewrite Hsame.
      * exists v. split; [exact Hget|].
        destruct (Hgrow n Hn) as (Hname & _). unfold node_name. now rewrite Hname.
      * apply (IH n record w leaf w1); auto.
        intros l v' Hl. apply Hhash. now right.
    + set (w' := snd (new_node v (Some cur) w)) in *.
      destruct (new_node_preserves (root_node self) v cur w Hwf Hcur Hex)
        as (Hwf' & _ & _). fold w' in Hwf'.
      destruct (new_node_heap v cur w Hcur) as (_ & _ & Hlen & Hnew & _).
      fold w' in Hlen, Hnew.
      assert (Hn : length (nodes w) < length (nodes w')) by lia.
      destruct (build_branch_levels_inv self rest (length (nodes w)) record w'
                  Ht Hwf' Hn) as (_ & _ & [_ Hgrow] & _).
      rewrite Hrun' in Hgrow. cbn [snd] in Hgrow.
      exists (length (nodes w)). splits.
      * destruct (Hgrow cur ltac:(lia)) as (_ & _ & _ & _ & Hsame).
        rewrite Hsame by assumption. unfold w'.
        rewrite new_node_children, Nat.eqb_refl by assumption.
        apply in_or_app. right. now left.
      * exists v. split; [exact Hget|].
        destruct (Hgrow (length (nodes w)) Hn) as (Hname & _).
        unfold node_name. rewrite Hname, Hnew. cbn [name].
        apply py_eq_refl_hashable. apply (Hhash level); [now left|exact Hget].
      * apply (IH (length (nodes w)) record w' leaf w1); auto.
        intros l v' Hl. apply Hhash. now right.
Qed.

Lemma branch_to_extends (ok : string -> value -> Prop) root h h' levels leaf :
  wf_heap root h -> tree_extends h h' ->
  forall cur, cur < length h ->
    branch_to ok h cur levels leaf -> branch_to ok h' cur levels leaf.
Proof.
  intros Hwf [_ Hext]. induction levels as [|level rest IH]; intros cur Hcur Hb;
    [exact Hb|].
  destruct Hb as (c & Hin & Hok & Hrest).
  destruct (proj2 Hwf cur c Hin) as (_ & Hc & _).
  destruct (Hext cur Hcur) as (_ & added & Hch).
  destruct (Hext c Hc) as (Hname & _).
  exists c. splits.
  - rewrite Hch. apply in_or_app. now left.
  - now rewrite Hname.
  - now apply IH.
Qed.

Lemma branch_to_end (ok : string -> value -> Prop) root h levels :
  wf_heap root h ->
  forall cur leaf, cur < length h -> branch_to ok h cur levels leaf ->
    leaf < length h.
Proof.
  intros Hwf. induction levels as [|level rest IH]; intros cur leaf Hcur Hb.
  - cbn in Hb. now subst.
  - destruct Hb as (c & Hin & _ & Hrest).
    destruct (proj2 Hwf cur c Hin) as (_ & Hc & _). now apply (IH c).
Qed.

(** A successful pass of the loop body of [create_tree]: the path of the
    record leads to a leaf that holds its payload, and the payloads of
    the nodes that existed before are as they were. *)
Lemma attach_record_ok_leaf self items w w2 :
  wf_heap (root_node self) (nodes w) ->
  json_object items ->
  complete (nesting_levels self) (PDict items) ->
  (forall l v, In l (nesting_levels self) ->
     getitem (PDict items) (PStr l) = Ok v -> hashable v = true) ->
  attach_record self (PDict items) w = (Ok tt, w2) ->
  (exists leaf,
     branch_to (matches (PDict items)) (nodes w2) (root_node self)
       (nesting_levels self) leaf
     /\ node_values (nodes w2) leaf
        = Some (PList [PDict (residual (nesting_levels self) items)]))
  /\ (forall n, n < length (nodes w) ->
        node_values (nodes w2) n = node_values (nodes w) n).
Proof.
  intros Hwf Hobj Hc Hhash Hrun.
  pose proof Hrun as Hrun0.
  apply bind_run in Hrun as [(leaf & w1 & Hb & _)|(e & _ & [=])].
  destruct (attach_record_payload self items w leaf w1 Hwf Hobj Hc Hb)
    as (w2' & Hatt & Hw2 & Hleaf & Hval & Hother).
  assert (Heq2 : w2' = w2) by congruence. rewrite Heq2 in *. clear Heq2 w2'.
  destruct (set_values_heap leaf
              (PList [PDict (residual (nesting_levels self) items)]) w1)
    as (Hlen & _ & Hname & Hch & _). rewrite <- Hw2 in Hlen, Hname, Hch.
  rewrite build_branch_some in Hb.
  pose proof (build_branch_levels_ok_truthy _ _ _ _ _ _ _ Hb) as Ht.
  destruct (build_branch_levels_inv self (nesting_levels self) (root_node self)
              (PDict items) w Ht Hwf (proj1 Hwf)) as (Hwf1 & _ & Hgrow & _).
  rewrite Hb in Hwf1, Hgrow. cbn [snd] in Hwf1, Hgrow.
  split.
  - exists leaf. split; [|exact Hval].
    assert (Hp1 : branch_to (matches (PDict items)) (nodes w1) (root_node self)
                    (nesting_levels self) leaf).
    { eapply build_branch_levels_path_to;
        [exact Hwf|exact (proj1 Hwf)|exact Hhash|exact Hb]. }
    assert (Hext : tree_extends (nodes w1) (nodes w2)).
    { split; [lia|]. intros n _. split; [apply Hname|].
      exists []. now rewrite app_nil_r. }
    exact (branch_to_extends _ (root_node self) (nodes w1) (nodes w2) _ leaf
             Hwf1 Hext (root_node self) (proj1 Hwf1) Hp1).
  - intros n Hn.
    assert (Hnew : length (nodes w) <= leaf).
    { eapply build_branch_levels_leaf_new; [|exact Hwf|exact (proj1 Hwf)|exact Hb].
      intros Hnil. rewrite Hnil in Hb.
      rewrite build_branch_levels_nil, Nat.eqb_refl in Hb by assumption.
      discriminate. }
    unfold node_values. rewrite Hother by lia.
    now destruct (proj2 Hgrow n Hn) as (_ & _ & Hv & _).
Qed.

Lemma attach_records_ok_leaves self records : forall w w2,
  wf_heap (root_node self) (nodes w) ->
  Forall (complete (nesting_levels self)) records ->
  Forall (acceptable (fun v => hashable v = true) (fun _ => True)
            (nesting_levels self)) records ->
  attach_records self records w = (Ok tt, w2) ->
  (forall items, In (PDict items) records ->
     exists leaf,
       branch_to (matches (PDict items)) (nodes w2) (root_node self)
         (nesting_levels self) leaf
       /\ node_values (nodes w2) leaf
          = Some (PList [PDict (residual (nesting_levels self) items)]))
  /\ (forall n, n < length (nodes w) ->
        node_values (nodes w2) n = node_values (nodes w) n).
Proof.
  induction records as [|record rest IH]; intros w w2 Hwf Hc Hacc Hrun.
  - injection Hrun as <-. split; [intros items []|reflexivity].
  - cbn [attach_records] in Hrun.
    apply bind_run in Hrun as [([] & w1 & Hb & Hrun)|(e & _ & [=])].
    apply List.Forall_cons_iff in Hc as [Hc Hcs].
    apply List.Forall_cons_iff in Hacc as [(items0 & -> & Hobj & Hhash & _) Haccs].
    destruct (attach_record_ok_leaf self items0 w w1 Hwf Hobj Hc Hhash Hb)
      as ((leaf & Hpath & Hval) & Hold).
    pose proof (proj1 (attach_record_preserves _ _ _ _ _ Hwf Hb)) as Hwf1.
    pose proof (attach_record_extends _ _ _ _ _ Hwf Hb) as Hext01.
    pose proof (attach_records_extends _ _ _ _ _ Hwf1 Hrun) as Hext12.
    destruct (IH w1 w2 Hwf1 Hcs Haccs Hrun) as (Hleaves & Hold').
    split.
    + intros items [[= <-]|Hin]; [|now apply Hleaves].
      exists leaf. split.
      * exact (branch_to_extends _ (root_node self) (nodes w1) (nodes w2) _ leaf
                 Hwf1 Hext12 (root_node self) (proj1 Hwf1) Hpath).
      * rewrite Hold'; [exact Hval|].
        eapply branch_to_end; [exact Hwf1|exact (proj1 Hwf1)|exact Hpath].
    + intros n Hn. rewrite Hold' by (destruct Hext01; lia). now apply Hold.
Qed.

(** After a successful [create_tree] every record is found in the tree:
    its path leads from the root to a leaf with its payload. *)
Lemma create_tree_ok_leaves json_loads self input_data records w w2 :
  json_loads input_data = Ok (PList records) ->
  Forall (acceptable (fun v => hashable v = true) (fun _ => True)
            (nesting_levels self)) records ->
  wf_heap (root_node self) (nodes w) ->
  create_tree json_loads self input_data w = (Ok tt, w2) ->
  forall items, In (PDict items) records ->
    exists leaf,
      branch_to (matches (PDict items)) (nodes w2) (root_node self)
        (nesting_levels self) leaf
      /\ node_values (nodes w2) leaf
         = Some (PList [PDict (residual (nesting_levels self) items)]).
Proof.
  intros Hload Hacc Hwf Hrun. unfold create_tree in Hrun.
  apply bind_run in Hrun as [(loaded & w0 & Hl & Hrun)|(e & _ & [=])].
  unfold lift in Hl. rewrite Hload in Hl. injection Hl as <- <-.
  apply bind_run in Hrun as [(valid & w1 & Hval & Hrun)|(e & _ & [=])].
  apply validate_ok in Hval as (-> & -> & r & rs & Heq & Hall).
  injection Heq as ->.
  assert (Hc : Forall (complete (nesting_levels self)) (r :: rs)).
  { apply Forall_forall. intros x Hx. now destruct (Hall x Hx) as (_ & _ & ?). }
  exact (proj1 (attach_records_ok_leaves self (r :: rs) w w2 Hwf Hc Hacc Hrun)).
Qed.

(** C6 (leaf payload): for a record (a decoded JSON object) that has
    every declared nesting attribute, whenever [_build_branch] returns
    its leaf, the loop body of [create_tree] goes on to set the payload
    of exactly that leaf to the one-element list holding the record
    restricted to the keys that are no nesting level, and changes no
    other node; after a successful [create_tree] the path of every
    record (with hashable values at the levels) leads from the root to
    a leaf that holds this payload.  In particular, for the levels
    currency, country, city and the record with EUR, FR, Paris and
    amount 10, [create_tree] builds the path root, EUR, FR, Paris and
    the leaf Paris has the payload [[{amount: 10}]]. *)
Theorem leaf_payload_correct :
  (forall self items w leaf w1,
     wf_heap (root_node self) (nodes w) ->
     json_object items ->
     complete (nesting_levels self) (PDict items) ->
     _build_branch self (Some (nesting_levels self)) (Some (root_node self))
       (PDict items) w = (Ok leaf, w1) ->
     exists w2,
       attach_record self (PDict items) w = (Ok tt, w2)
       /\ node_values (nodes w2) leaf
          = Some (PList [PDict (residual (nesting_levels self) items)])
       /\ (forall k v, In (k, v) (residual (nesting_levels self) items) <->
             In (k, v) items /\ forall l, In l (nesting_levels self) -> k <> PStr l)
       /\ (forall m, m <> leaf -> get_node (nodes w2) m = get_node (nodes w1) m))
  /\ (forall json_loads self input_data records w w2,
        json_loads input_data = Ok (PList records) ->
        Forall (acceptable (fun v => hashable v = true) (fun _ => True)
                  (nesting_levels self)) records ->
        wf_heap (root_node self) (nodes w) ->
        create_tree json_loads self input_data w = (Ok tt, w2) ->
        forall items, In (PDict items) records ->
          exists leaf,
            branch_to (matches (PDict items)) (nodes w2) (root_node self)
              (nesting_levels self) leaf
            /\ node_values (nodes w2) leaf
               = Some (PList [PDict (residual (nesting_levels self) items)]))
  /\ (forall json_loads input_data,
        json_loads input_data = Ok (PList [example_record "EUR" "FR" "Paris" 10]) ->
        create_tree json_loads example_converter input_data fresh_world =
          (Ok tt,
           mkWorld
             [mkNode (PStr "root") None [1] None;
              mkNode (PStr "EUR") (Some 0) [2] None;
              mkNode (PStr "FR") (Some 1) [3] None;
              mkNode (PStr "Paris") (Some 2) []
                (Some (PList [PDict [(PStr "amount", PInt 10)]]))] [])).
Proof.
  splits.
  - intros self items w leaf w1 Hwf Hobj Hc Hrun.
    destruct (attach_record_payload self items w leaf w1 Hwf Hobj Hc Hrun)
      as (w2 & Hatt & _ & _ & Hval & Hother).
    exists w2. splits; auto.
    intros k v. apply (residual_in (nesting_levels self) items (k, v)).
  - intros json_loads self input_data records w w2 Hload Hacc Hwf Hrun.
    exact (create_tree_ok_leaves json_loads self input_data records w w2
             Hload Hacc Hwf Hrun).
  - intros json_loads input_data Hload. unfold create_tree, bind, lift.
    rewrite Hload. reflexivity.
Qed.

Lemma leaf_payload_correct_witness :
  exists w2,
    attach_record example_converter (example_record "EUR" "FR" "Lyon" 5)
      one_branch_world = (Ok tt, w2)
    /\ node_values (nodes w2) 4 = Some (PList [PDict [(PStr "amount", PInt 5)]]).
Proof.
  destruct (proj1 leaf_payload_correct example_converter
              [(PStr "currency", PStr "EUR"); (PStr "country", PStr "FR");
               (PStr "city", PStr "Lyon"); (PStr "amount", PInt 5)]
              one_branch_world 4
              (snd (_build_branch example_converter (Some example_levels) (Some 0)
                      (example_record "EUR" "FR" "Lyon" 5) one_branch_world)))
    as (w2 & Hrun & Hval & _).
  - exact one_branch_world_wf.
  - split.
    + repeat constructor; eexists; reflexivity.
    + repeat constructor; simpl; intuition discriminate.
  - apply complete_b_spec. reflexivity.
  - reflexivity.
  - exists w2. split; [exact Hrun|exact Hval].
Defined.

(** ** The other scenarios of the design *)

(** Export before any build raises [NoTreeCreatedError]. *)
Lemma export_tree_no_tree levels :
  export_tree (mkConverter levels 0) fresh_world
  = (Raise (NoTreeCreatedError
              "No tree to export. Run create_tree method first."),
     fresh_world).
Proof. reflexivity. Qed.

(** The error of the decoder is passed on as it is, and nothing has been
    built. *)
Lemma create_tree_decode_error json_loads self input_data w e :
  json_loads input_data = Raise e ->
  create_tree json_loads self input_data w = (Raise e, w).
Proof.
  intros H. unfold create_tree, bind, lift. now rewrite H.
Qed.

Lemma create_tree_empty_text :
  create_tree json_decode example_converter "" fresh_world
  = (Raise JSONDecodeError, fresh_world).
Proof. reflexivity. Qed.

(** The three branches of the example are built as the test of
    [_build_branch] expects: the leaves are Paris, Lyon and Madrid. *)
Lemma build_branch_example_leaves :
  exists w1 w2 w3,
    _build_branch example_converter (Some example_levels) (Some 0)
      (example_record "EUR" "FR" "Paris" 10) fresh_world = (Ok 3, w1)
    /\ _build_branch example_converter (Some example_levels) (Some 0)
         (example_record "EUR" "FR" "Lyon" 5) w1 = (Ok 4, w2)
    /\ _build_branch example_converter (Some example_levels) (Some 0)
         (example_record "EUR" "ES" "Madrid" 7) w2 = (Ok 6, w3)
    /\ map (node_name (nodes w3)) [3; 4; 6]
       = [PStr "Paris"; PStr "Lyon"; PStr "Madrid"].
Proof.
  eexists _, _, _. splits; vm_compute; reflexivity.
Qed.

(** * Further properties of the converter *)

(** ** What a call of [_build_branch] does to the tree *)

(** A call adds at most one node per remaining level, whatever its
    outcome. *)
Lemma build_branch_levels_growth self levels : forall cur record w,
  wf_heap (root_node self) (nodes w) ->
  cur < length (nodes w) ->
  length (nodes (snd (build_branch_levels self levels (Some cur) record w)))
  <= length (nodes w) + length levels.
Proof.
  induction levels as [|level rest IH]; intros cur record w Hwf Hcur.
  - cbn. destruct (negb (truthy record)); [cbn; lia|].
    destruct (Nat.eqb cur (root_node self)); cbn; lia.
  - destruct (truthy record) eqn:Ht.
    2:{ cbn. rewrite Ht. cbn. lia. }
    rewrite build_branch_levels_cons by assumption.
    destruct (getitem record (PStr level)) as [v|e]; [|cbn; lia].
    cbn zeta. destruct (Nat.ltb 1 _); [cbn; lia|].
    destruct (negb _ && _); [cbn; lia|].
    destruct (existing_children (nodes w) cur v) as [|n ns] eqn:Hex.
    + destruct (new_node_preserves (root_node self) v cur w Hwf Hcur Hex)
        as (Hwf' & _ & _).
      destruct (new_node_heap v cur w Hcur) as (_ & _ & Hlen & _).
      specialize (IH (length (nodes w)) record (snd (new_node v (Some cur) w))
                    Hwf' ltac:(lia)).
      cbn [length]. lia.
    + assert (Hin : In n (existing_children (nodes w) cur v))
        by (rewrite Hex; now left).
      apply existing_children_in in Hin as [Hin _].
      destruct (proj2 Hwf _ _ Hin) as (_ & Hn & _).
      specialize (IH n record w Hwf Hn). cbn [length]. lia.
Qed.

(** The leaf a successful call returns has no children. *)
Lemma build_branch_levels_leaf_childless self levels : forall cur record w leaf w1,
  levels <> [] ->
  wf_heap (root_node self) (nodes w) ->
  cur < length (nodes w) ->
  build_branch_levels self levels (Some cur) record w = (Ok leaf, w1) ->
  is_leaf (nodes w1) leaf = true.
Proof.
  induction levels as [|level rest IH]; intros cur record w leaf w1 Hne Hwf Hcur Hrun;
    [contradiction|].
  pose proof (build_branch_levels_ok_truthy _ _ _ _ _ _ _ Hrun) as Ht.
  destruct (build_branch_levels_ok_step _ _ _ _ _ _ _ _ Ht Hrun)
    as (v & Hget & [(n & Hin & _ & Hrest & Hrun')|(Hex & Hrun')]).
  - destruct (proj2 Hwf _ _ Hin) as (_ & Hn & _).
    now apply (IH n record w leaf w1).
  - destruct (new_node_preserves (root_node self) v cur w Hwf Hcur Hex)
      as (Hwf' & _ & _).
    destruct (new_node_heap v cur w Hcur) as (_ & _ & Hlen & Hnew & _).
    set (w' := snd (new_node v (Some cur) w)) in *.
    destruct rest as [|l rest'].
    + rewrite build_branch_levels_nil in Hrun' by assumption.
      destruct (Nat.eqb _ _); [discriminate|].
      assert (Hl : length (nodes w) = leaf) by congruence.
      assert (Hw : w' = w1) by congruence. subst leaf w1.
      unfold is_leaf, node_children. now rewrite Hnew.
    + apply (IH (length (nodes w)) record w' leaf w1); auto;
        first [discriminate|lia].
Qed.

(** X1 (bounded, monotone growth): a call of [_build_branch] at a node of
    a well-formed tree, whatever its arguments and its outcome, removes
    no node, changes no label, parent or payload, only appends children,
    leaves the children of all nodes before the current one as they
    were, and adds at most one node per remaining level. *)
Theorem build_branch_only_grows (self : RecordsToTreeConverter)
    (remaining : option (list string)) (cur : node_id) (record : value)
    (w : world) :
  wf_heap (root_node self) (nodes w) ->
  cur < length (nodes w) ->
  let w' := snd (_build_branch self remaining (Some cur) record w) in
  grows_below cur (nodes w) (nodes w')
  /\ length (nodes w')
     <= length (nodes w)
        + match remaining with Some levels => length levels | None => 0 end
  /\ stderr w' = stderr w.
Proof.
  intros Hwf Hcur w'. subst w'. destruct remaining as [levels|].
  - rewrite build_branch_some. destruct (truthy record) eqn:Ht.
    + destruct (build_branch_levels_inv self levels cur record w Ht Hwf Hcur)
        as (_ & _ & Hgrow & Herr & _).
      splits; auto. now apply build_branch_levels_growth.
    + assert (Hsame : snd (build_branch_levels self levels (Some cur) record w) = w).
      { destruct levels; cbn; now rewrite Ht. }
      rewrite Hsame. splits; [apply grows_below_refl|lia|reflexivity].
  - assert (Hsame : snd (_build_branch self None (Some cur) record w) = w).
    { cbn. now destruct (negb (truthy record)). }
    rewrite Hsame. splits; [apply grows_below_refl|lia|reflexivity].
Qed.

Lemma build_branch_only_grows_witness :
  grows_below 0 (nodes one_branch_world) (nodes two_branch_world)
  /\ length (nodes two_branch_world) <= length (nodes one_branch_world) + 3
  /\ stderr two_branch_world = stderr one_branch_world.
Proof.
  apply (build_branch_only_grows example_converter (Some example_levels) 0
           (example_record "EUR" "FR" "Lyon" 5) one_branch_world).
  - exact one_branch_world_wf.
  - rewrite one_branch_world_nodes. simpl. lia.
Defined.

Lemma dict_get_has_key items k :
  dict_get items k = None <-> has_key items k = false.
Proof.
  unfold has_key, dict_keys.
  induction items as [|[k0 v0] items IH]; [now split|].
  cbn [dict_get map fst existsb]. destruct (py_eq k0 k); [now split|].
  exact IH.
Qed.

(** Below a node without children, a record that has the first levels
    but not the next one gets a node for each of the first levels
    before [KeyError] is raised; the nodes stay. *)
Lemma build_branch_levels_missing_key self pre missing post :
  forall cur record w,
    truthy record = true ->
    wf_heap (root_node self) (nodes w) ->
    cur < length (nodes w) ->
    node_children (nodes w) cur = [] ->
    (forall l, In l pre -> exists v, getitem record (PStr l) = Ok v) ->
    getitem record (PStr missing) = Raise (KeyError (PStr missing)) ->
    exists w',
      build_branch_levels self (pre ++ missing :: post) (Some cur) record w
        = (Raise (KeyError (PStr missing)), w')
      /\ length (nodes w') = length (nodes w) + length pre
      /\ branch (fun l label => getitem record (PStr l) = Ok label)
           (nodes w') cur pre.
Proof.
  induction pre as [|level pre IH]; intros cur record w Ht Hwf Hcur Hleaf Hkeys Hmiss.
  - cbn [app]. rewrite build_branch_levels_cons by assumption. rewrite Hmiss.
    exists w. splits; [reflexivity|cbn; lia|exact I].
  - cbn [app]. rewrite build_branch_levels_cons by assumption.
    destruct (Hkeys level ltac:(now left)) as [v Hget]. rewrite Hget. cbn zeta.
    assert (Hex : existing_children (nodes w) cur v = []).
    { unfold existing_children. now rewrite Hleaf. }
    rewrite Hex. cbn [length Nat.ltb Nat.leb Nat.eqb negb andb].
    set (w' := snd (new_node v (Some cur) w)).
    destruct (new_node_preserves (root_node self) v cur w Hwf Hcur Hex)
      as (Hwf' & _ & _). fold w' in Hwf'.
    destruct (new_node_heap v cur w Hcur) as (_ & _ & Hlen & Hnew & _).
    fold w' in Hlen, Hnew.
    assert (Hn : length (nodes w) < length (nodes w')) by lia.
    assert (Hnleaf : node_children (nodes w') (length (nodes w)) = []).
    { unfold node_children. now rewrite Hnew. }
    destruct (IH (length (nodes w)) record w' Ht Hwf' Hn Hnleaf)
      as (w2 & Hrun & Hlen2 & Hb); [|exact Hmiss|].
    { intros l Hl. apply Hkeys. now right. }
    exists w2. splits; [exact Hrun|cbn [length]; lia|].
    destruct (build_branch_levels_inv self (pre ++ missing :: post)
                (length (nodes w)) record w' Ht Hwf' Hn)
      as (_ & _ & [_ Hgrow] & _). rewrite Hrun in Hgrow. cbn [snd] in Hgrow.
    exists (length (nodes w)). splits.
    + destruct (Hgrow cur ltac:(lia)) as (_ & _ & _ & _ & Hsame).
      rewrite Hsame by assumption. unfold w'.
      rewrite new_node_children, Nat.eqb_refl, Hleaf by assumption. now left.
    + destruct (Hgrow (length (nodes w)) Hn) as (Hname & _).
      unfold node_name. rewrite Hname, Hnew. exact Hget.
    + exact Hb.
Qed.

(** X3 (no rollback on a missing key): called on a tree that has only its
    root, with a record that has the first levels but lacks the next
    one, [_build_branch] raises [KeyError] for the missing level after
    it has created one node for each of the first levels; these nodes
    stay in the tree. *)
Theorem build_branch_missing_key_keeps_nodes (pre : list string)
    (missing : string) (post : list string) (items : dict) :
  (forall l, In l pre -> has_attribute (PDict items) l) ->
  ~ has_attribute (PDict items) missing ->
  items <> [] ->
  exists w',
    _build_branch (mkConverter (pre ++ missing :: post) 0)
      (Some (pre ++ missing :: post)) (Some 0) (PDict items) fresh_world
      = (Raise (KeyError (PStr missing)), w')
    /\ length (nodes w') = 1 + length pre
    /\ branch (fun l label => getitem (PDict items) (PStr l) = Ok label)
         (nodes w') 0 pre.
Proof.
  intros Hpre Hmiss Hne.
  assert (Hget : forall l, has_attribute (PDict items) l <->
                   exists v, getitem (PDict items) (PStr l) = Ok v).
  { intros l. cbn [getitem]. split.
    - intros (items' & v & [= <-] & Hin).
      destruct (dict_get items (PStr l)) as [v'|] eqn:E; [eauto|].
      apply dict_get_has_key in E.
      assert (has_key items (PStr l) = true) by (apply has_key_str; eauto).
      congruence.
    - intros [v Hv]. destruct (dict_get items (PStr l)) as [v'|] eqn:E;
        [|discriminate].
      assert (Hk : has_key items (PStr l) = true).
      { destruct (has_key items (PStr l)) eqn:Hk; [reflexivity|].
        apply dict_get_has_key in Hk. congruence. }
      apply has_key_str in Hk as [v0 Hv0]. exists items, v0. auto. }
  destruct (build_branch_levels_missing_key (mkConverter (pre ++ missing :: post) 0)
              pre missing post 0 (PDict items) fresh_world)
    as (w' & Hrun & Hlen & Hb).
  - now destruct items.
  - exact fresh_world_wf.
  - cbn. lia.
  - reflexivity.
  - intros l Hl. now apply Hget, Hpre.
  - cbn [getitem]. destruct (dict_get items (PStr missing)) as [v|] eqn:E;
      [|reflexivity].
    exfalso. apply Hmiss, Hget. cbn [getitem]. rewrite E. eauto.
  - exists w'. rewrite build_branch_some. splits; auto.
Qed.

Lemma build_branch_missing_key_keeps_nodes_witness :
  exists w',
    _build_branch (mkConverter ["currency"; "country"; "city"] 0)
      (Some ["currency"; "country"; "city"]) (Some 0)
      (PDict [(PStr "currency", PStr "EUR"); (PStr "country", PStr "FR")])
      fresh_world
      = (Raise (KeyError (PStr "city")), w')
    /\ length (nodes w') = 3
    /\ branch (fun l label =>
                 getitem (PDict [(PStr "currency", PStr "EUR");
                                 (PStr "country", PStr "FR")]) (PStr l)
                 = Ok label)
         (nodes w') 0 ["currency"; "country"].
Proof.
  apply (build_branch_missing_key_keeps_nodes ["currency"; "country"] "city" []
           [(PStr "currency", PStr "EUR"); (PStr "country", PStr "FR")]).
  - intros l [<-|[<-|[]]]; eexists _, _; (split; [reflexivity|]); cbn; auto.
  - intros (items & v & [= <-] & [[=]|[[=]|[]]]).
  - discriminate.
Defined.

(** ** Paths are determined by the values *)

Lemma hashable_py_eq_l x a : hashable a = true -> py_eq x a = true -> hashable x = true.
Proof. destruct x, a; try discriminate; reflexivity. Qed.

Lemma hashable_py_eq_r a b : hashable a = true -> py_eq a b = true -> hashable b = true.
Proof. destruct a, b; try discriminate; reflexivity. Qed.

(** Under sibling-label uniqueness a node has at most one child whose
    label equals a given hashable value. *)
Lemma matching_child_unique h p c1 c2 v1 v2 :
  siblings_distinct h ->
  In c1 (node_children h p) -> In c2 (node_children h p) ->
  py_eq (node_name h c1) v1 = true -> py_eq (node_name h c2) v2 = true ->
  hashable v1 = true -> py_eq v1 v2 = true ->
  c1 = c2.
Proof.
  intros Hd Hin1 Hin2 H1 H2 Hh Hv.
  assert (Hh2 : hashable v2 = true) by (eapply hashable_py_eq_r; eauto).
  assert (H12 : py_eq (node_name h c1) (node_name h c2) = true).
  { apply (py_eq_trans_hashable (node_name h c1) v2 (node_name h c2) Hh2).
    - exact (py_eq_trans_hashable _ v1 v2 Hh H1 Hv).
    - rewrite py_eq_sym_hashable by (now left). exact H2. }
  assert (H21 : py_eq (node_name h c2) (node_name h c1) = true).
  { rewrite py_eq_sym_hashable; [exact H12|].
    left. eapply hashable_py_eq_l; eauto. }
  apply list_elem_of_In, list_elem_of_lookup in Hin1 as [i Hi].
  apply list_elem_of_In, list_elem_of_lookup in Hin2 as [j Hj].
  destruct (Nat.lt_trichotomy i j) as [Hlt|[->|Hgt]].
  - assert (Hf : py_eq (node_name h c1) (node_name h c2) = false).
    { apply (labels_distinct_lookup _ i j _ _ (Hd p) Hlt).
      - now rewrite list_lookup_fmap, Hi.
      - now rewrite list_lookup_fmap, Hj. }
    congruence.
  - congruence.
  - assert (Hf : py_eq (node_name h c2) (node_name h c1) = false).
    { apply (labels_distinct_lookup _ j i _ _ (Hd p) Hgt).
      - now rewrite list_lookup_fmap, Hj.
      - now rewrite list_lookup_fmap, Hi. }
    congruence.
Qed.

Lemma branch_to_app (ok : string -> value -> Prop) h pre post : forall cur leaf,
  branch_to ok h cur (pre ++ post) leaf <->
  exists mid, branch_to ok h cur pre mid /\ branch_to ok h mid post leaf.
Proof.
  induction pre as [|level pre IH]; intros cur leaf; cbn [app branch_to].
  - split; [eauto|]. now intros (mid & -> & H).
  - split.
    + intros (c & Hin & Hok & Hrest). apply IH in Hrest as (mid & H1 & H2).
      exists mid. split; [|exact H2]. exists c. auto.
    + intros (mid & (c & Hin & Hok & H1) & H2). exists c. splits; auto.
      apply IH. eauto.
Qed.

(** ** Outcomes of building a branch for a complete record *)

Lemma complete_getitem levels items l :
  json_object items -> complete levels (PDict items) -> In l levels ->
  exists v, getitem (PDict items) (PStr l) = Ok v.
Proof.
  intros Hj Hc Hl. destruct (Hc l Hl) as (items' & v & Heq & Hin).
  injection Heq as <-. exists v. simpl.
  now rewrite (dict_get_in items (PStr l) v Hj Hin).
Qed.

Lemma build_branch_levels_outcome self levels : forall cur record w,
  truthy record = true ->
  wf_heap (root_node self) (nodes w) ->
  cur < length (nodes w) ->
  (forall l, In l levels -> exists v, getitem record (PStr l) = Ok v) ->
  levels <> [] \/ cur <> root_node self ->
  (exists leaf w1,
     build_branch_levels self levels (Some cur) record w = (Ok leaf, w1))
  \/ (exists site,
        build_branch_levels self levels (Some cur) record w =
          (Raise (DuplicateNodesFoundError site
                    (dict_values (record_items record))), w)).
Proof.
  induction levels as [|level rest IH]; intros cur record w Ht Hwf Hcur Hkeys Hne.
  - left. rewrite build_branch_levels_nil by exact Ht.
    destruct Hne as [Hne|Hne]; [congruence|].
    apply Nat.eqb_neq in Hne. rewrite Hne. eauto.
  - rewrite build_branch_levels_cons by exact Ht.
    destruct (Hkeys level (or_introl eq_refl)) as (v & Hv). rewrite Hv.
    cbv zeta.
    destruct (Nat.ltb 1 (length (existing_children (nodes w) cur v))) eqn:Hlt;
      [right; eauto|].
    destruct (negb (Nat.eqb (length (existing_children (nodes w) cur v)) 0)
              && Nat.eqb (length rest) 0) eqn:Hleaf; [right; eauto|].
    destruct (existing_children (nodes w) cur v) as [|n ns] eqn:Hex.
    + destruct (new_node_preserves (root_node self) v cur w Hwf Hcur Hex)
        as (Hwf' & _ & Hg).
      destruct (new_node_heap v cur w Hcur) as (_ & _ & Hlen & _).
      assert (Hfresh :
        node_children (nodes (snd (new_node v (Some cur) w))) (length (nodes w))
        = []).
      { rewrite new_node_children by exact Hcur.
        destruct (Nat.eqb_spec (length (nodes w)) cur); [lia|].
        unfold node_children, get_node.
        now rewrite lookup_ge_None_2 by lia. }
      destruct (build_branch_levels_fresh self rest (length (nodes w)) record
                  (snd (new_node v (Some cur) w)) Ht Hwf')
        as (leaf & w1 & Hrun & _).
      * cbv zeta in Hlen. lia.
      * exact Hfresh.
      * intros l Hl. apply Hkeys. now right.
      * right. destruct Hwf as [Hr _]. lia.
      * left. eauto.
    + assert (Hin : In n (existing_children (nodes w) cur v))
        by (rewrite Hex; now left).
      apply existing_children_in in Hin as [Hin _].
      destruct Hwf as [Hr Hch]. destruct (Hch cur n Hin) as (_ & Hn & Hnr).
      apply (IH n record w Ht (conj Hr Hch) Hn).
      * intros l Hl. apply Hkeys. now right.
      * now right.
Qed.

(** A complete record is either attached or rejected as a duplicate;
    a rejection changes nothing. *)
Lemma attach_record_outcome self items w :
  wf_heap (root_node self) (nodes w) ->
  nesting_levels self <> [] ->
  json_object items ->
  complete (nesting_levels self) (PDict items) ->
  (exists w2, attach_record self (PDict items) w = (Ok tt, w2))
  \/ (exists site,
        attach_record self (PDict items) w =
          (Raise (DuplicateNodesFoundError site (dict_values items)), w)).
Proof.
  intros Hwf Hne Hj Hc.
  assert (Ht : truthy (PDict items) = true).
  { destruct (nesting_levels self) as [|l ls]; [congruence|].
    destruct (complete_getitem (l :: ls) items l Hj Hc) as (v & Hv);
      [now left|].
    exact (getitem_truthy _ _ _ Hv). }
  destruct (build_branch_levels_outcome self (nesting_levels self)
              (root_node self) (PDict items) w Ht Hwf (proj1 Hwf))
    as [(leaf & w1 & Hrun)|(site & Hrun)].
  - intros l Hl. now apply (complete_getitem (nesting_levels self)).
  - now left.
  - left. rewrite <- build_branch_some in Hrun.
    destruct (attach_record_payload self items w leaf w1 Hwf Hj Hc Hrun)
      as (w2 & Hw2 & _). eauto.
  - right. exists site. unfold attach_record, bind, _build_branch.
    now rewrite Hrun.
Qed.

(** ** Records with the same values at the nesting levels *)

Lemma validate_accepts self records w :
  records <> [] ->
  (forall r, In r records ->
     exists items, r = PDict items /\ complete (nesting_levels self) r) ->
  _validate_input_data self (PList records) w = (Ok true, w).
Proof.
  intros Hne Hall.
  assert (Hs : list_of_records (PList records)).
  { destruct records as [|r records]; [congruence|]. exists r, records.
    split; [reflexivity|]. apply Forall_forall. intros x Hx.
    destruct (Hall x Hx) as (items & -> & _). reflexivity. }
  apply structure_check in Hs. unfold _validate_input_data. rewrite Hs.
  cbn [negb]. unfold bind. rewrite count_missing_run.
  assert (Hoff : offending (nesting_levels self) records = []).
  { apply offending_none. intros x Hx.
    destruct (Hall x Hx) as (items & -> & Hc). now apply complete_b_spec. }
  rewrite Hoff. simpl. rewrite app_nil_r. unfold ret. now destruct w.
Qed.

Lemma branch_to_branch (ok : string -> value -> Prop) h levels :
  forall cur leaf, branch_to ok h cur levels leaf -> branch ok h cur levels.
Proof.
  induction levels as [|l rest IH]; intros cur leaf H; [exact I|].
  destruct H as (c & Hin & Hok & Hrest). exists c. eauto.
Qed.

Lemma same_tuple_matches levels record1 record2 :
  same_tuple levels record1 record2 ->
  (forall l v, In l levels -> getitem record1 (PStr l) = Ok v ->
     hashable v = true) ->
  forall l label, In l levels ->
    matches record1 l label -> matches record2 l label.
Proof.
  intros Hsame Hh l label Hl (v & Hv & Heq).
  destruct (Hsame l Hl) as (v1 & v2 & H1 & H2 & H12).
  assert (v = v1) by congruence. subst v1.
  exists v2. split; [exact H2|].
  exact (py_eq_trans_hashable label v v2 (Hh l v Hl Hv) Heq H12).
Qed.

Lemma attach_record_ok_path self items w w2 :
  wf_heap (root_node self) (nodes w) ->
  keyed_record (nesting_levels self) (PDict items) ->
  attach_record self (PDict items) w = (Ok tt, w2) ->
  path_exists (nodes w2) (root_node self) (nesting_levels self) (PDict items).
Proof.
  intros Hwf (items' & Heq & Hj & Hc & Hh) Hrun. injection Heq as <-.
  destruct (attach_record_ok_leaf self items w w2 Hwf Hj Hc Hh Hrun)
    as ((leaf & Hp & _) & _).
  exact (branch_to_branch _ _ _ _ _ Hp).
Qed.

Lemma attach_records_raise self record rest w e w' :
  attach_record self record w = (Raise e, w') ->
  attach_records self (record :: rest) w = (Raise e, w').
Proof. intros H. simpl. unfold bind. now rewrite H. Qed.

Lemma attach_records_step self record rest w w2 :
  attach_record self record w = (Ok tt, w2) ->
  attach_records self (record :: rest) w = attach_records self rest w2.
Proof. intros H. simpl. unfold bind. now rewrite H. Qed.

(** Once the path of a later record exists, the loop of [create_tree]
    ends with [DuplicateNodesFoundError]. *)
Lemma attach_records_hits self records : forall w,
  wf_heap (root_node self) (nodes w) ->
  nesting_levels self <> [] ->
  Forall (keyed_record (nesting_levels self)) records ->
  (exists r2, In r2 records
     /\ path_exists (nodes w) (root_node self) (nesting_levels self) r2) ->
  exists site r w',
    In r records
    /\ attach_records self records w =
         (Raise (DuplicateNodesFoundError site (dict_values (record_items r))),
          w').
Proof.
  induction records as [|x xs IH]; intros w Hwf Hne Hall (r2 & Hin & Hp);
    [destruct Hin|].
  apply List.Forall_cons_iff in Hall as [Hx Hxs].
  destruct Hx as (items & -> & Hj & Hc & Hh).
  destruct (attach_record_outcome self items w Hwf Hne Hj Hc)
    as [(w2 & Hrun)|(site & Hrun)].
  - destruct Hin as [<-|Hin].
    + destruct (build_branch_levels_duplicate self (nesting_levels self)
                  (root_node self) (PDict items) w Hne Hp) as (site & Hdup).
      unfold attach_record, bind, _build_branch in Hrun.
      rewrite Hdup in Hrun. discriminate.
    + destruct (attach_record_preserves self (PDict items) w _ _ Hwf Hrun)
        as (Hwf2 & _).
      pose proof (attach_record_extends self (PDict items) w _ _ Hwf Hrun)
        as Hext.
      destruct (IH w2 Hwf2 Hne Hxs) as (site & r & w' & Hr & Hrest).
      * exists r2. split; [exact Hin|].
        exact (branch_extends _ (root_node self) _ _ _ Hwf Hext
                 (root_node self) (proj1 Hwf) Hp).
      * exists site, r, w'. split; [now right|].
        now rewrite (attach_records_step _ _ _ _ _ Hrun).
  - exists site, (PDict items), w. split; [now left|].
    exact (attach_records_raise _ _ _ _ _ _ Hrun).
Qed.

Lemma attach_records_repeated self before r1 between r2 after : forall w,
  wf_heap (root_node self) (nodes w) ->
  nesting_levels self <> [] ->
  Forall (keyed_record (nesting_levels self))
    (before ++ r1 :: between ++ r2 :: after) ->
  same_tuple (nesting_levels self) r1 r2 ->
  exists site r w',
    In r (before ++ r1 :: between ++ r2 :: after)
    /\ attach_records self (before ++ r1 :: between ++ r2 :: after) w =
         (Raise (DuplicateNodesFoundError site (dict_values (record_items r))),
          w').
Proof.
  induction before as [|x xs IH]; intros w Hwf Hne Hall Hsame.
  - simpl app in *. apply List.Forall_cons_iff in Hall as [H1 Hrest].
    pose proof H1 as (items & -> & Hj & Hc & Hh).
    destruct (attach_record_outcome self items w Hwf Hne Hj Hc)
      as [(w2 & Hrun)|(site & Hrun)].
    + destruct (attach_record_preserves self (PDict items) w _ _ Hwf Hrun)
        as (Hwf2 & _).
      pose proof (attach_record_ok_path self items w w2 Hwf H1 Hrun) as Hp.
      destruct (attach_records_hits self (between ++ r2 :: after) w2 Hwf2 Hne
                  Hrest) as (site & r & w' & Hr & Hrun').
      * exists r2. split; [apply in_or_app; right; now left|].
        exact (branch_impl _ _ _ _ _
                 (same_tuple_matches _ _ _ Hsame Hh) Hp).
      * exists site, r, w'. split; [now right|].
        now rewrite (attach_records_step _ _ _ _ _ Hrun).
    + exists site, (PDict items), w. split; [now left|].
      exact (attach_records_raise _ _ _ _ _ _ Hrun).
  - rewrite <- app_comm_cons in *.
    apply List.Forall_cons_iff in Hall as [Hx Hrest].
    destruct Hx as (items & -> & Hj & Hc & Hh).
    destruct (attach_record_outcome self items w Hwf Hne Hj Hc)
      as [(w2 & Hrun)|(site & Hrun)].
    + destruct (attach_record_preserves self (PDict items) w _ _ Hwf Hrun)
        as (Hwf2 & _).
      destruct (IH w2 Hwf2 Hne Hrest Hsame) as (site & r & w' & Hr & Hrun').
      exists site, r, w'. split; [now right|].
      now rewrite (attach_records_step _ _ _ _ _ Hrun).
    + exists site, (PDict items), w. split; [now left|].
      exact (attach_records_raise _ _ _ _ _ _ Hrun).
Qed.

(** X5 (repeated level values are rejected): when the decoded input is
    a list of complete records with hashable values at the nesting
    levels and two of the records have equal values at every nesting
    level, [create_tree] raises [DuplicateNodesFoundError], whose second
    argument is the values of one of the records, and writes nothing to
    the diagnostic stream. *)
Theorem create_tree_rejects_repeated_tuple
    (json_loads : string -> result value) (self : RecordsToTreeConverter)
    (input_data : string) (before : list value) (r1 : value)
    (between : list value) (r2 : value) (after : list value) (w : world) :
  json_loads input_data = Ok (PList (before ++ r1 :: between ++ r2 :: after)) ->
  wf_heap (root_node self) (nodes w) ->
  nesting_levels self <> [] ->
  Forall (keyed_record (nesting_levels self))
    (before ++ r1 :: between ++ r2 :: after) ->
  same_tuple (nesting_levels self) r1 r2 ->
  exists site r w',
    In r (before ++ r1 :: between ++ r2 :: after)
    /\ create_tree json_loads self input_data w =
         (Raise (DuplicateNodesFoundError site (dict_values (record_items r))),
          w')
    /\ stderr w' = stderr w.
Proof.
  intros Hload Hwf Hne Hall Hsame.
  destruct (attach_records_repeated self before r1 between r2 after w Hwf Hne
              Hall Hsame) as (site & r & w' & Hr & Hrun).
  exists site, r, w'. split; [exact Hr|].
  assert (Hcreate :
    create_tree json_loads self input_data w =
      attach_records self (before ++ r1 :: between ++ r2 :: after) w).
  { unfold create_tree, bind, lift. rewrite Hload.
    rewrite validate_accepts; [reflexivity|now destruct before|].
    intros x Hx. rewrite Forall_forall in Hall.
    destruct (Hall x Hx) as (items & -> & _ & Hc & _). eauto. }
  split; [now rewrite Hcreate|].
  destruct (attach_records_preserves self _ w _ _ Hwf Hrun) as (_ & _ & Hs).
  exact Hs.
Qed.

(** ** Parents and children agree *)

Lemma fresh_world_parents : parent_consistent (nodes fresh_world).
Proof.
  intros p c. split.
  - intros Hin. destruct p as [|[|p]]; destruct Hin.
  - intros [Hc Hp]. simpl in Hc. destruct c as [|c]; [discriminate|lia].
Qed.

Lemma new_node_parents label q w :
  q < length (nodes w) ->
  parent_consistent (nodes w) ->
  parent_consistent (nodes (snd (new_node label (Some q) w))).
Proof.
  intros Hq Hpc p c.
  destruct (new_node_heap label q w Hq) as (_ & _ & Hlen & Hnew & Hqn & Hother).
  cbv zeta in Hlen, Hnew, Hqn, Hother.
  rewrite new_node_children by exact Hq. rewrite Hlen.
  destruct (Nat.eq_dec c (length (nodes w))) as [->|Hc].
  - rewrite Hnew. cbn [parent]. split.
    + destruct (Nat.eqb_spec p q) as [->|Hpq]; [intros _; split; [lia|reflexivity]|].
      intros Hin. apply Hpc in Hin as [Hlt _]. lia.
    + intros [_ [= <-]]. rewrite Nat.eqb_refl. apply in_or_app. right. now left.
  - assert (Hpar : parent (get_node (nodes (snd (new_node label (Some q) w))) c)
                   = parent (get_node (nodes w) c)).
    { destruct (Nat.eq_dec c q) as [->|Hcq]; [now rewrite Hqn|].
      now rewrite Hother. }
    rewrite Hpar.
    assert (Hin : In c (if Nat.eqb p q
                        then node_children (nodes w) q ++ [length (nodes w)]
                        else node_children (nodes w) p)
                  <-> In c (node_children (nodes w) p)).
    { destruct (Nat.eqb_spec p q) as [->|Hpq]; [|reflexivity].
      rewrite in_app_iff. simpl. split; [intros [H|[H|[]]]; [exact H|congruence]|auto]. }
    rewrite Hin, (Hpc p c). split; intros [H1 H2]; (split; [lia|exact H2]).
Qed.

Lemma set_values_parents n v w :
  parent_consistent (nodes w) ->
  parent_consistent (nodes (snd (set_values n v w))).
Proof.
  intros Hpc p c.
  destruct (set_values_heap n v w) as (Hlen & _ & _ & Hch & Hother & _).
  cbv zeta in Hlen, Hch, Hother. rewrite Hch, Hlen, (Hpc p c).
  assert (Hpar : parent (get_node (nodes (snd (set_values n v w))) c)
                 = parent (get_node (nodes w) c)).
  { destruct (Nat.eq_dec c n) as [->|Hcn]; [|now rewrite Hother].
    unfold set_values. cbn [snd nodes]. unfold get_node at 1.
    destruct (decide (n < length (nodes w))) as [Hn|Hn].
    - now rewrite list_lookup_insert_eq by exact Hn.
    - rewrite list_insert_ge by lia. reflexivity. }
  now rewrite Hpar.
Qed.

Lemma build_branch_levels_parents self levels : forall cur record w,
  wf_heap (root_node self) (nodes w) ->
  cur < length (nodes w) ->
  parent_consistent (nodes w) ->
  parent_consistent
    (nodes (snd (build_branch_levels self levels (Some cur) record w))).
Proof.
  induction levels as [|level rest IH]; intros cur record w Hwf Hcur Hpc.
  - simpl. unfold raise, ret.
    destruct (negb (truthy record)); [exact Hpc|].
    destruct (Nat.eqb _ _); exact Hpc.
  - destruct (truthy record) eqn:Ht.
    2:{ simpl. rewrite Ht. exact Hpc. }
    rewrite build_branch_levels_cons by exact Ht.
    destruct (getitem record (PStr level)) as [v|e]; [|exact Hpc].
    cbv zeta. destruct (Nat.ltb 1 _); [exact Hpc|].
    destruct (negb _ && _); [exact Hpc|].
    destruct (existing_children (nodes w) cur v) as [|n ns] eqn:Hex.
    + destruct (new_node_preserves (root_node self) v cur w Hwf Hcur Hex)
        as (Hwf' & _ & _).
      destruct (new_node_heap v cur w Hcur) as (_ & _ & Hlen & _).
      cbv zeta in Hlen.
      apply IH; [exact Hwf'|lia|now apply new_node_parents].
    + assert (Hin : In n (existing_children (nodes w) cur v))
        by (rewrite Hex; now left).
      apply existing_children_in in Hin as [Hin _].
      destruct (proj2 Hwf _ _ Hin) as (_ & Hn & _).
      now apply IH.
Qed.

Lemma attach_record_parents self record w r w' :
  wf_heap (root_node self) (nodes w) ->
  parent_consistent (nodes w) ->
  attach_record self record w = (r, w') ->
  parent_consistent (nodes w').
Proof.
  intros Hwf Hpc Hrun. unfold attach_record, _build_branch in Hrun.
  pose proof (build_branch_levels_parents self (nesting_levels self)
                (root_node self) record w Hwf (proj1 Hwf) Hpc) as Hpc1.
  apply bind_run in Hrun as [(leaf & w1 & Hb & Hk)|(e & Hb & _)];
    rewrite Hb in Hpc1; cbn [snd] in Hpc1; [|exact Hpc1].
  destruct record; try (injection Hk as _ <-; exact Hpc1).
  apply bind_run in Hk as [(payload & w1' & Hl & Hs)|(e & Hl & _)].
  - unfold lift in Hl. injection Hl as _ <-.
    assert (Hw' : w' = snd (set_values leaf (PList [PDict payload]) w1))
      by now rewrite Hs.
    rewrite Hw'. now apply set_values_parents.
  - unfold lift in Hl. now injection Hl as _ <-.
Qed.

(** ** One path to every node *)

Lemma single_parent h p p' c :
  parent_consistent h ->
  In c (node_children h p) -> In c (node_children h p') -> p = p'.
Proof.
  intros Hpc H1 H2. apply Hpc in H1 as [_ H1]. apply Hpc in H2 as [_ H2].
  congruence.
Qed.

Lemma branch_to_le (ok : string -> value -> Prop) root h levels :
  wf_heap root h ->
  forall cur leaf, branch_to ok h cur levels leaf ->
    cur <= leaf /\ (levels <> [] -> cur < leaf).
Proof.
  intros Hwf. induction levels as [|l rest IH]; intros cur leaf Hb.
  - cbn in Hb. subst. split; [lia|congruence].
  - destruct Hb as (c & Hin & _ & Hrest).
    destruct (proj2 Hwf cur c Hin) as (Hlt & _).
    destruct (IH c leaf Hrest) as [Hle _]. split; [lia|intros _; lia].
Qed.

Lemma branch_to_snoc (ok : string -> value -> Prop) h pre l cur leaf :
  branch_to ok h cur (pre ++ [l]) leaf <->
  exists mid, branch_to ok h cur pre mid
              /\ In leaf (node_children h mid) /\ ok l (node_name h leaf).
Proof.
  rewrite branch_to_app. split.
  - intros (mid & Hpre & c & Hin & Hok & <-). eauto.
  - intros (mid & Hpre & Hin & Hok). exists mid. split; [exact Hpre|].
    exists leaf. now splits.
Qed.

(** Two paths from a node to the same node have the same length. *)
Lemma path_length_unique (ok1 ok2 : string -> value -> Prop) root h :
  wf_heap root h -> parent_consistent h ->
  forall l1 l2 cur n,
    branch_to ok1 h cur l1 n -> branch_to ok2 h cur l2 n ->
    length l1 = length l2.
Proof.
  intros Hwf Hpc l1. induction l1 as [|x l1 IH] using rev_ind;
    intros l2 cur n H1 H2.
  - cbn in H1. subst n. destruct l2 as [|y l2]; [reflexivity|].
    destruct (branch_to_le ok2 root h (y :: l2) Hwf cur cur H2) as [_ Hlt].
    specialize (Hlt ltac:(discriminate)). lia.
  - apply branch_to_snoc in H1 as (mid1 & Hpre1 & Hin1 & _).
    destruct (proj2 Hwf mid1 n Hin1) as (Hlt1 & _).
    destruct (branch_to_le ok1 root h l1 Hwf cur mid1 Hpre1) as [Hle1 _].
    destruct l2 as [|y l2] using rev_ind.
    + cbn in H2. lia.
    + apply branch_to_snoc in H2 as (mid2 & Hpre2 & Hin2 & _).
      assert (mid1 = mid2) by exact (single_parent h _ _ n Hpc Hin1 Hin2).
      subst mid2. rewrite !length_app. simpl.
      now rewrite (IH l2 cur mid1 Hpre1 Hpre2).
Qed.

(** Two paths to the same node along the same levels are one path. *)
Lemma path_merge (ok1 ok2 : string -> value -> Prop) h :
  parent_consistent h ->
  forall levels cur n,
    branch_to ok1 h cur levels n -> branch_to ok2 h cur levels n ->
    branch_to (fun l label => ok1 l label /\ ok2 l label) h cur levels n.
Proof.
  intros Hpc levels. induction levels as [|x levels IH] using rev_ind;
    intros cur n H1 H2.
  - exact H1.
  - apply branch_to_snoc in H1 as (mid1 & Hpre1 & Hin1 & Hok1).
    apply branch_to_snoc in H2 as (mid2 & Hpre2 & Hin2 & Hok2).
    assert (mid1 = mid2) by exact (single_parent h _ _ n Hpc Hin1 Hin2).
    subst mid2. apply branch_to_snoc. exists mid1. splits; auto.
Qed.

Lemma branch_to_impl (ok ok' : string -> value -> Prop) h levels :
  forall cur leaf,
    (forall l label, In l levels -> ok l label -> ok' l label) ->
    branch_to ok h cur levels leaf -> branch_to ok' h cur levels leaf.
Proof.
  induction levels as [|x levels IH]; intros cur leaf Himp Hb; [exact Hb|].
  destruct Hb as (c & Hin & Hok & Hrest). exists c. splits.
  - exact Hin.
  - apply Himp; [now left|exact Hok].
  - apply IH; [|exact Hrest]. intros l label Hl. apply Himp. now right.
Qed.

Lemma branch_to_labels (ok : string -> value -> Prop) h levels :
  forall cur leaf, branch_to ok h cur levels leaf ->
    forall l, In l levels -> exists label, ok l label.
Proof.
  induction levels as [|x levels IH]; intros cur leaf Hb l Hl; [destruct Hl|].
  destruct Hb as (c & _ & Hok & Hrest). destruct Hl as [<-|Hl]; [eauto|].
  exact (IH c leaf Hrest l Hl).
Qed.

Lemma branch_branch_to (ok : string -> value -> Prop) h levels :
  forall cur, branch ok h cur levels ->
    exists leaf, branch_to ok h cur levels leaf.
Proof.
  induction levels as [|x levels IH]; intros cur Hb.
  - exists cur. reflexivity.
  - destruct Hb as (c & Hin & Hok & Hrest).
    destruct (IH c Hrest) as (leaf & Hleaf). exists leaf, c. now splits.
Qed.

(** A path of [h'] that ends at a node of [h] is a path of [h], when
    [h'] is [h] after building below some node. *)
Lemma branch_to_old (ok : string -> value -> Prop) root h h' g levels :
  wf_heap root h' ->
  parent_consistent h -> parent_consistent h' ->
  grows_below g h h' ->
  forall cur leaf, leaf < length h ->
    branch_to ok h' cur levels leaf -> branch_to ok h cur levels leaf.
Proof.
  intros Hwf' Hpc Hpc' [_ Hg].
  induction levels as [|x levels IH]; intros cur leaf Hleaf Hb; [exact Hb|].
  destruct Hb as (c & Hin & Hok & Hrest).
  destruct (branch_to_le ok root h' levels Hwf' c leaf Hrest) as [Hle _].
  assert (Hc : c < length h) by lia.
  destruct (Hg c Hc) as (Hname & Hpar & _).
  exists c. splits.
  - apply Hpc. split; [exact Hc|]. rewrite <- Hpar. now apply Hpc'.
  - unfold node_name in *. now rewrite <- Hname.
  - now apply IH.
Qed.

(** ** When a duplicate is reported *)

Lemma matching_children_le_1 (f : node_id -> value) v (l : list node_id) :
  labels_distinct (map f l) = true -> hashable v = true ->
  length (filter (fun n => py_eq (f n) v = true) l) <= 1.
Proof.
  intros Hd Hh. induction l as [|x xs IH]; [simpl; lia|].
  simpl in Hd. apply andb_prop in Hd as [Hx Hd]. specialize (IH Hd).
  rewrite filter_cons. destruct (decide (py_eq (f x) v = true)) as [Hm|Hm];
    [|exact IH].
  assert (Hnone : filter (fun n => py_eq (f n) v = true) xs = []).
  { apply filter_none. intros y Hy Hmy.
    rewrite forallb_forall in Hx.
    specialize (Hx (f y) (in_map f xs y Hy)).
    assert (Hvy : py_eq v (f y) = true).
    { rewrite (py_eq_sym_hashable v (f y)) by now left. exact Hmy. }
    rewrite (py_eq_trans_hashable (f x) v (f y) Hh Hm Hvy) in Hx.
    discriminate. }
  rewrite Hnone. simpl. lia.
Qed.

(** [DuplicateNodesFoundError] is raised only when the path of the
    record is in the tree already. *)
Lemma build_branch_levels_dup_path self levels : forall cur record w site vals w',
  wf_heap (root_node self) (nodes w) ->
  siblings_distinct (nodes w) ->
  cur < length (nodes w) ->
  (forall l, In l levels ->
     exists v, getitem record (PStr l) = Ok v /\ hashable v = true) ->
  build_branch_levels self levels (Some cur) record w =
    (Raise (DuplicateNodesFoundError site vals), w') ->
  path_exists (nodes w) cur levels record.
Proof.
  induction levels as [|level rest IH];
    intros cur record w site vals w' Hwf Hd Hcur Hkeys Hrun.
  - simpl in Hrun. unfold raise, ret in Hrun.
    destruct (negb (truthy record)); [discriminate|].
    destruct (Nat.eqb _ _); discriminate.
  - destruct (Hkeys level (or_introl eq_refl)) as (v & Hv & Hh).
    pose proof (getitem_truthy _ _ _ Hv) as Ht.
    rewrite build_branch_levels_cons in Hrun by exact Ht.
    rewrite Hv in Hrun. cbv zeta in Hrun.
    pose proof (matching_children_le_1 (node_name (nodes w)) v
                  (node_children (nodes w) cur) (Hd cur) Hh) as Hle.
    fold (existing_children (nodes w) cur v) in Hle.
    destruct (Nat.ltb_spec 1 (length (existing_children (nodes w) cur v)));
      [lia|].
    destruct (existing_children (nodes w) cur v) as [|n ns] eqn:Hex.
    + cbn [length Nat.eqb negb andb] in Hrun.
      destruct (new_node_preserves (root_node self) v cur w Hwf Hcur Hex)
        as (Hwf' & _ & _).
      destruct (new_node_heap v cur w Hcur) as (_ & _ & Hlen & _).
      cbv zeta in Hlen.
      destruct (build_branch_levels_fresh self rest (length (nodes w)) record
                  (snd (new_node v (Some cur) w)) Ht Hwf')
        as (leaf & w1 & Hok & _).
      * lia.
      * rewrite new_node_children by exact Hcur.
        destruct (Nat.eqb_spec (length (nodes w)) cur); [lia|].
        unfold node_children. now rewrite get_node_ge by lia.
      * intros l Hl. destruct (Hkeys l (or_intror Hl)) as (v' & Hv' & _). eauto.
      * right. destruct Hwf as [Hr _]. lia.
      * rewrite Hok in Hrun. discriminate.
    + assert (Hin : In n (existing_children (nodes w) cur v))
        by (rewrite Hex; now left).
      apply existing_children_in in Hin as [Hin Hm].
      exists n. splits; [exact Hin|exists v; now split|].
      destruct rest as [|l rest']; [exact I|].
      cbn [length Nat.eqb negb andb] in Hrun.
      destruct (proj2 Hwf _ _ Hin) as (_ & Hn & _).
      apply (IH n record w site vals w' Hwf Hd Hn); [|exact Hrun].
      intros l0 Hl0. apply Hkeys. now right.
Qed.

(** Every node that a successful call creates lies on the path of the
    record. *)
Lemma build_branch_levels_new_on_path self levels :
  forall cur record w leaf w1,
    wf_heap (root_node self) (nodes w) ->
    cur < length (nodes w) ->
    (forall l v, In l levels -> getitem record (PStr l) = Ok v ->
       hashable v = true) ->
    build_branch_levels self levels (Some cur) record w = (Ok leaf, w1) ->
    forall m, length (nodes w) <= m -> m < length (nodes w1) ->
      exists pre post,
        levels = pre ++ post
        /\ branch_to (matches record) (nodes w1) cur pre m.
Proof.
  induction levels as [|level rest IH];
    intros cur record w leaf w1 Hwf Hcur Hhash Hrun m Hm1 Hm2.
  - pose proof (build_branch_levels_ok_truthy _ _ _ _ _ _ _ Hrun) as Ht.
    rewrite build_branch_levels_nil in Hrun by assumption.
    destruct (Nat.eqb _ _); [discriminate|]. injection Hrun as _ <-. lia.
  - pose proof (build_branch_levels_ok_truthy _ _ _ _ _ _ _ Hrun) as Ht.
    destruct (build_branch_levels_ok_step _ _ _ _ _ _ _ _ Ht Hrun)
      as (v & Hget & [(n & Hin & Heq & _ & Hrun')|(Hex & Hrun')]).
    + destruct (proj2 Hwf _ _ Hin) as (Hlt & Hn & _).
      destruct (build_branch_levels_inv self rest n record w Ht Hwf Hn)
        as (_ & _ & [_ Hgrow] & _). rewrite Hrun' in Hgrow. cbn [snd] in Hgrow.
      destruct (IH n record w leaf w1 Hwf Hn) with (m := m)
        as (pre & post & Hsplit & Hp); auto.
      { intros l v' Hl. apply Hhash. now right. }
      exists (level :: pre), post. split; [now rewrite Hsplit|].
      exists n. splits.
      * destruct (Hgrow cur Hcur) as (_ & _ & _ & _ & Hsame). now rewrite Hsame.
      * exists v. split; [exact Hget|].
        destruct (Hgrow n Hn) as (Hname & _). unfold node_name. now rewrite Hname.
      * exact Hp.
    + set (w0 := snd (new_node v (Some cur) w)) in *.
      destruct (new_node_preserves (root_node self) v cur w Hwf Hcur Hex)
        as (Hwf' & _ & _). fold w0 in Hwf'.
      destruct (new_node_heap v cur w Hcur) as (_ & _ & Hlen & Hnew & _).
      fold w0 in Hlen, Hnew.
      assert (Hn : length (nodes w) < length (nodes w0)) by lia.
      destruct (build_branch_levels_inv self rest (length (nodes w)) record w0
                  Ht Hwf' Hn) as (_ & _ & [_ Hgrow] & _).
      rewrite Hrun' in Hgrow. cbn [snd] in Hgrow.
      assert (Hstep : In (length (nodes w)) (node_children (nodes w1) cur)
                      /\ matches record level (node_name (nodes w1) (length (nodes w)))).
      { split.
        - destruct (Hgrow cur ltac:(lia)) as (_ & _ & _ & _ & Hsame).
          rewrite Hsame by assumption. unfold w0.
          rewrite new_node_children, Nat.eqb_refl by assumption.
          apply in_or_app. right. now left.
        - exists v. split; [exact Hget|].
          destruct (Hgrow (length (nodes w)) Hn) as (Hname & _).
          unfold node_name. rewrite Hname, Hnew. cbn [name].
          apply py_eq_refl_hashable. apply (Hhash level); [now left|exact Hget]. }
      destruct Hstep as [Hchild Hmatch].
      destruct (Nat.eq_dec m (length (nodes w))) as [->|Hmne].
      * exists [level], rest. split; [reflexivity|].
        exists (length (nodes w)). now splits.
      * destruct (IH (length (nodes w)) record w0 leaf w1 Hwf' Hn)
          with (m := m) as (pre & post & Hsplit & Hp); auto; [|lia|].
        { intros l v' Hl. apply Hhash. now right. }
        exists (level :: pre), post. split; [now rewrite Hsplit|].
        exists (length (nodes w)). now splits.
Qed.

(** ** Every path of the tree is the path of a record *)

Lemma branch_to_set_values (ok : string -> value -> Prop) n v w levels :
  forall cur leaf,
    branch_to ok (nodes (snd (set_values n v w))) cur levels leaf
    <-> branch_to ok (nodes w) cur levels leaf.
Proof.
  destruct (set_values_heap n v w) as (_ & _ & Hname & Hch & _).
  cbv zeta in Hname, Hch.
  induction levels as [|l rest IH]; intros cur leaf; [reflexivity|].
  simpl. split; intros (c & Hin & Hok & Hrest); exists c.
  - rewrite Hch in Hin. rewrite Hname in Hok. apply IH in Hrest. now splits.
  - rewrite Hch, Hname. apply IH in Hrest. now splits.
Qed.

Lemma attach_record_ok_build self items w w2 :
  wf_heap (root_node self) (nodes w) ->
  json_object items ->
  complete (nesting_levels self) (PDict items) ->
  attach_record self (PDict items) w = (Ok tt, w2) ->
  exists leaf w1,
    build_branch_levels self (nesting_levels self) (Some (root_node self))
      (PDict items) w = (Ok leaf, w1)
    /\ w2 = snd (set_values leaf
                   (PList [PDict (residual (nesting_levels self) items)]) w1).
Proof.
  intros Hwf Hj Hc Hrun.
  destruct (build_branch_levels self (nesting_levels self)
              (Some (root_node self)) (PDict items) w) as [[leaf|e] w1] eqn:Hb.
  - exists leaf, w1. split; [reflexivity|].
    destruct (attach_record_payload self items w leaf w1 Hwf Hj Hc Hb)
      as (w2' & Hrun' & Hw2 & _). congruence.
  - unfold attach_record, bind, _build_branch in Hrun. rewrite Hb in Hrun.
    discriminate.
Qed.

Lemma attach_record_covered self items w w2 seen :
  wf_heap (root_node self) (nodes w) ->
  parent_consistent (nodes w) ->
  keyed_record (nesting_levels self) (PDict items) ->
  covered (nesting_levels self) (root_node self) (nodes w) seen ->
  attach_record self (PDict items) w = (Ok tt, w2) ->
  covered (nesting_levels self) (root_node self) (nodes w2)
    (seen ++ [PDict items]).
Proof.
  intros Hwf Hpc (items' & Heq & Hj & Hc & Hh) Hcov Hrun. injection Heq as <-.
  destruct (attach_record_ok_build self items w w2 Hwf Hj Hc Hrun)
    as (leaf0 & w1 & Hb & ->).
  pose proof (build_branch_levels_ok_truthy _ _ _ _ _ _ _ Hb) as Ht.
  destruct (build_branch_levels_inv self (nesting_levels self) (root_node self)
              (PDict items) w Ht Hwf (proj1 Hwf)) as (Hwf1 & _ & Hg & _).
  pose proof (build_branch_levels_parents self (nesting_levels self)
                (root_node self) (PDict items) w Hwf (proj1 Hwf) Hpc) as Hpc1.
  rewrite Hb in Hwf1, Hg, Hpc1. cbn [snd] in Hwf1, Hg, Hpc1.
  intros leaf Hp. apply branch_to_set_values in Hp.
  pose proof (branch_to_end _ _ _ _ Hwf1 _ _ (proj1 Hwf1) Hp) as Hleaf.
  destruct (Nat.lt_ge_cases leaf (length (nodes w))) as [Hold|Hnew].
  - pose proof (branch_to_old _ _ _ _ _ _ Hwf1 Hpc Hpc1 Hg _ _ Hold Hp) as Hp0.
    destruct (Hcov leaf Hp0) as (r & Hr & Hpr).
    exists r. split; [apply in_or_app; now left|].
    apply branch_to_set_values.
    exact (branch_to_extends _ _ _ _ _ _ Hwf (grows_below_extends _ _ _ Hg)
             _ (proj1 Hwf) Hpr).
  - destruct (build_branch_levels_new_on_path self (nesting_levels self)
                (root_node self) (PDict items) w leaf0 w1 Hwf (proj1 Hwf) Hh Hb
                leaf Hnew Hleaf) as (pre & post & Hsplit & Hpre).
    pose proof (path_length_unique _ _ _ _ Hwf1 Hpc1 _ _ _ _ Hp Hpre) as Hlen.
    rewrite Hsplit, length_app in Hlen.
    assert (Hpost : post = []) by (destruct post; [reflexivity|simpl in Hlen; lia]).
    rewrite Hpost, app_nil_r in Hsplit. rewrite <- Hsplit in Hpre.
    exists (PDict items). split; [apply in_or_app; right; now left|].
    now apply branch_to_set_values.
Qed.

Lemma covered_same_tuple self w seen x :
  parent_consistent (nodes w) ->
  covered (nesting_levels self) (root_node self) (nodes w) seen ->
  (forall l v, In l (nesting_levels self) -> getitem x (PStr l) = Ok v ->
     hashable v = true) ->
  path_exists (nodes w) (root_node self) (nesting_levels self) x ->
  exists r, In r seen /\ same_tuple (nesting_levels self) r x.
Proof.
  intros Hpc Hcov Hh Hp.
  destruct (branch_branch_to _ _ _ _ Hp) as (leaf & Hleaf).
  destruct (Hcov leaf) as (r & Hr & Hpr).
  { apply (branch_to_impl (matches x)); [auto|exact Hleaf]. }
  exists r. split; [exact Hr|]. intros l Hl.
  destruct (branch_to_labels _ _ _ _ _
              (path_merge _ _ _ Hpc _ _ _ Hpr Hleaf) l Hl)
    as (label & (vr & Hvr & Hlr) & (vx & Hvx & Hlx)).
  exists vr, vx. splits; [exact Hvr|exact Hvx|].
  pose proof (hashable_py_eq_l label vx (Hh l vx Hl Hvx) Hlx) as Hlabel.
  apply (py_eq_trans_hashable vr label vx Hlabel); [|exact Hlx].
  rewrite (py_eq_sym_hashable vr label) by now right. exact Hlr.
Qed.

Lemma attach_record_accepts self items w seen :
  tree_invariant (root_node self) (nodes w) ->
  parent_consistent (nodes w) ->
  nesting_levels self <> [] ->
  keyed_record (nesting_levels self) (PDict items) ->
  covered (nesting_levels self) (root_node self) (nodes w) seen ->
  (forall r, In r seen -> ~ same_tuple (nesting_levels self) r (PDict items)) ->
  exists w2, attach_record self (PDict items) w = (Ok tt, w2).
Proof.
  intros [Hwf Hd] Hpc Hne Hk Hcov Hnew.
  pose proof Hk as (items' & Heq & Hj & Hc & Hh). injection Heq as <-.
  destruct (attach_record_outcome self items w Hwf Hne Hj Hc)
    as [Hok|(site & Hrun)]; [exact Hok|exfalso].
  destruct (build_branch_levels self (nesting_levels self)
              (Some (root_node self)) (PDict items) w) as [[leaf|e] w1] eqn:Hb.
  - destruct (attach_record_payload self items w leaf w1 Hwf Hj Hc Hb)
      as (w2' & Hrun' & _). congruence.
  - unfold attach_record, bind, _build_branch in Hrun. rewrite Hb in Hrun.
    injection Hrun as -> ->.
    assert (Hp : path_exists (nodes w) (root_node self) (nesting_levels self)
                   (PDict items)).
    { apply (build_branch_levels_dup_path self (nesting_levels self)
               (root_node self) (PDict items) w site (dict_values items) w
               Hwf Hd (proj1 Hwf)); [|exact Hb].
      intros l Hl. destruct (complete_getitem _ _ l Hj Hc Hl) as (v & Hv).
      exists v. split; [exact Hv|exact (Hh l v Hl Hv)]. }
    destruct (covered_same_tuple self w seen (PDict items) Hpc Hcov Hh Hp)
      as (r & Hr & Hsame).
    exact (Hnew r Hr Hsame).
Qed.

Lemma attach_records_accepts self records : forall seen w,
  tree_invariant (root_node self) (nodes w) ->
  parent_consistent (nodes w) ->
  nesting_levels self <> [] ->
  Forall (keyed_record (nesting_levels self)) records ->
  covered (nesting_levels self) (root_node self) (nodes w) seen ->
  (forall r x, In r seen -> In x records ->
     ~ same_tuple (nesting_levels self) r x) ->
  ForallOrdPairs (fun r1 r2 => ~ same_tuple (nesting_levels self) r1 r2)
    records ->
  exists w2,
    attach_records self records w = (Ok tt, w2)
    /\ tree_invariant (root_node self) (nodes w2)
    /\ parent_consistent (nodes w2)
    /\ covered (nesting_levels self) (root_node self) (nodes w2)
         (seen ++ records).
Proof.
  induction records as [|x xs IH];
    intros seen w Hinv Hpc Hne Hall Hcov Hseen Hpairs.
  - exists w. rewrite app_nil_r. now splits.
  - apply List.Forall_cons_iff in Hall as [Hx Hxs].
    inversion Hpairs as [|a l Hxl Hrest]; subst.
    pose proof Hx as (items & -> & _).
    destruct (attach_record_accepts self items w seen Hinv Hpc Hne Hx Hcov)
      as (w2 & Hrun).
    { intros r Hr. apply Hseen; [exact Hr|now left]. }
    destruct Hinv as [Hwf Hd].
    destruct (attach_record_preserves self _ w _ _ Hwf Hrun) as (Hwf2 & Hd2 & _).
    pose proof (attach_record_parents self _ w _ _ Hwf Hpc Hrun) as Hpc2.
    pose proof (attach_record_covered self items w w2 seen Hwf Hpc Hx Hcov Hrun)
      as Hcov2.
    destruct (IH (seen ++ [PDict items]) w2 (conj Hwf2 (Hd2 Hd)) Hpc2 Hne Hxs
                Hcov2) as (w3 & Hrun3 & Hinv3 & Hpc3 & Hcov3).
    + intros r y Hr Hy. apply in_app_or in Hr as [Hr|[<-|[]]].
      * apply Hseen; [exact Hr|now right].
      * rewrite Forall_forall in Hxl. now apply Hxl.
    + exact Hrest.
    + exists w3. rewrite (attach_records_step _ _ _ _ _ Hrun).
      rewrite <- app_assoc in Hcov3. now splits.
Qed.

Lemma childless_covered levels root h :
  levels <> [] -> is_leaf h root = true -> covered levels root h [].
Proof.
  intros Hne Hleaf leaf Hp. destruct levels as [|l rest]; [congruence|].
  destruct Hp as (c & Hin & _). unfold is_leaf in Hleaf.
  destruct (node_children h root); [destruct Hin|discriminate].
Qed.

Lemma example_record_keyed currency country city amount :
  keyed_record example_levels (example_record currency country city amount).
Proof.
  eexists. split; [reflexivity|]. splits.
  - split.
    + repeat constructor; eauto.
    + repeat constructor; simpl; intuition discriminate.
  - apply complete_b_spec. reflexivity.
  - intros l v [<-|[<-|[<-|[]]]] H; simpl in H; injection H as <-; reflexivity.
Qed.

Lemma example_records_distinct :
  ForallOrdPairs (fun r1 r2 => ~ same_tuple example_levels r1 r2)
    example_records.
Proof.
  repeat constructor; intros H;
    destruct (H "city") as (v1 & v2 & H1 & H2 & H3);
    try (simpl; tauto);
    simpl in H1, H2; injection H1 as <-; injection H2 as <-; discriminate.
Qed.

Lemma create_tree_ok_attach json_loads self input_data records w w2 :
  json_loads input_data = Ok (PList records) ->
  create_tree json_loads self input_data w = (Ok tt, w2) ->
  attach_records self records w = (Ok tt, w2) /\ records <> [].
Proof.
  intros Hload Hrun. unfold create_tree in Hrun.
  apply bind_run in Hrun as [(loaded & w0 & Hl & Hrun)|(e & _ & [=])].
  unfold lift in Hl. rewrite Hload in Hl. injection Hl as <- <-.
  apply bind_run in Hrun as [(valid & w1 & Hval & Hrun)|(e & _ & [=])].
  apply validate_ok in Hval as (-> & -> & r & rs & Heq & Hall).
  injection Heq as ->. split; [exact Hrun|discriminate].
Qed.

(** X6 (distinct level values are accepted): from a tree whose root has
    no children, [create_tree] succeeds on every input that decodes to a
    non-empty list of complete records with hashable values at the
    nesting levels of which no two have equal values at every nesting
    level; the tree invariant holds afterwards and nothing is written to
    the diagnostic stream. *)
Theorem create_tree_accepts_distinct_tuples
    (json_loads : string -> result value) (self : RecordsToTreeConverter)
    (input_data : string) (records : list value) (w : world) :
  json_loads input_data = Ok (PList records) ->
  records <> [] ->
  nesting_levels self <> [] ->
  Forall (keyed_record (nesting_levels self)) records ->
  ForallOrdPairs (fun r1 r2 => ~ same_tuple (nesting_levels self) r1 r2)
    records ->
  tree_invariant (root_node self) (nodes w) ->
  parent_consistent (nodes w) ->
  is_leaf (nodes w) (root_node self) = true ->
  exists w2,
    create_tree json_loads self input_data w = (Ok tt, w2)
    /\ tree_invariant (root_node self) (nodes w2)
    /\ parent_consistent (nodes w2)
    /\ stderr w2 = stderr w.
Proof.
  intros Hload Hne Hlevels Hall Hpairs Hinv Hpc Hleaf.
  destruct (attach_records_accepts self records [] w Hinv Hpc Hlevels Hall)
    as (w2 & Hrun & Hinv2 & Hpc2 & _).
  - now apply childless_covered.
  - intros r x [].
  - exact Hpairs.
  - exists w2.
    assert (Hcreate : create_tree json_loads self input_data w
                      = attach_records self records w).
    { unfold create_tree, bind, lift. rewrite Hload.
      rewrite validate_accepts; [reflexivity|exact Hne|].
      intros x Hx. rewrite Forall_forall in Hall.
      destruct (Hall x Hx) as (items & -> & _ & Hc & _). eauto. }
    splits; [now rewrite Hcreate|exact Hinv2|exact Hpc2|].
    destruct (attach_records_preserves self _ w _ _ (proj1 Hinv) Hrun)
      as (_ & _ & Hs). exact Hs.
Qed.

Lemma create_tree_accepts_distinct_tuples_witness :
  exists w2,
    create_tree json_decode example_converter example_input fresh_world
      = (Ok tt, w2)
    /\ tree_invariant 0 (nodes w2)
    /\ parent_consistent (nodes w2)
    /\ stderr w2 = [].
Proof.
  apply (create_tree_accepts_distinct_tuples json_decode example_converter
           example_input example_records fresh_world).
  - exact example_input_decodes.
  - discriminate.
  - discriminate.
  - repeat constructor; apply example_record_keyed.
  - exact example_records_distinct.
  - split; [exact fresh_world_wf|exact fresh_world_distinct].
  - exact fresh_world_parents.
  - reflexivity.
Defined.

Lemma example_tree_world_nodes :
  nodes example_tree_world =
    [mkNode (PStr "root") None [1] None;
     mkNode (PStr "EUR") (Some 0) [2; 5] None;
     mkNode (PStr "FR") (Some 1) [3; 4] None;
     mkNode (PStr "Paris") (Some 2) []
       (Some (PList [PDict [(PStr "amount", PInt 10)]]));
     mkNode (PStr "Lyon") (Some 2) []
       (Some (PList [PDict [(PStr "amount", PInt 5)]]));
     mkNode (PStr "ES") (Some 1) [6] None;
     mkNode (PStr "Madrid") (Some 5) []
       (Some (PList [PDict [(PStr "amount", PInt 7)]]))].
Proof. vm_compute. reflexivity. Qed.

Lemma create_tree_rejects_repeated_tuple_witness :
  exists site r w',
    In r repeated_records
    /\ create_tree json_decode example_converter repeated_input fresh_world =
         (Raise (DuplicateNodesFoundError site (dict_values (record_items r))),
          w')
    /\ stderr w' = [].
Proof.
  apply (create_tree_rejects_repeated_tuple json_decode example_converter
           repeated_input [] (example_record "EUR" "FR" "Paris" 10)
           [example_record "EUR" "FR" "Lyon" 5]
           (example_record "EUR" "FR" "Paris" 99) [] fresh_world).
  - vm_compute. reflexivity.
  - exact fresh_world_wf.
  - discriminate.
  - repeat constructor; apply example_record_keyed.
  - intros l [<-|[<-|[<-|[]]]]; do 2 eexists; splits; reflexivity.
Defined.

(** ** The exported dictionary *)

Lemma fresh_world_rooted levels : rooted levels 0 (nodes fresh_world).
Proof. intros m Hm Hne. cbn in Hm. lia. Qed.

Lemma attach_record_rooted self items w w2 :
  wf_heap (root_node self) (nodes w) ->
  keyed_record (nesting_levels self) (PDict items) ->
  rooted (nesting_levels self) (root_node self) (nodes w) ->
  attach_record self (PDict items) w = (Ok tt, w2) ->
  rooted (nesting_levels self) (root_node self) (nodes w2).
Proof.
  intros Hwf (items' & Heq & Hj & Hc & Hh) Hrooted Hrun. injection Heq as <-.
  destruct (attach_record_ok_build self items w w2 Hwf Hj Hc Hrun)
    as (leaf0 & w1 & Hb & ->).
  pose proof (build_branch_levels_ok_truthy _ _ _ _ _ _ _ Hb) as Ht.
  destruct (build_branch_levels_inv self (nesting_levels self) (root_node self)
              (PDict items) w Ht Hwf (proj1 Hwf)) as (_ & _ & Hg & _).
  rewrite Hb in Hg. cbn [snd] in Hg.
  destruct (set_values_heap leaf0
              (PList [PDict (residual (nesting_levels self) items)]) w1)
    as (Hlen & _). cbv zeta in Hlen.
  intros m Hm Hroot. rewrite Hlen in Hm.
  destruct (Nat.lt_ge_cases m (length (nodes w))) as [Hold|Hnew].
  - destruct (Hrooted m Hold Hroot) as (pre & post & Hsplit & Hp).
    exists pre, post. split; [exact Hsplit|].
    apply branch_to_set_values.
    exact (branch_to_extends _ _ _ _ _ _ Hwf (grows_below_extends _ _ _ Hg)
             _ (proj1 Hwf) Hp).
  - destruct (build_branch_levels_new_on_path self (nesting_levels self)
                (root_node self) (PDict items) w leaf0 w1 Hwf (proj1 Hwf) Hh Hb
                m Hnew Hm) as (pre & post & Hsplit & Hp).
    exists pre, post. split; [exact Hsplit|].
    apply branch_to_set_values.
    apply (branch_to_impl (matches (PDict items))); [auto|exact Hp].
Qed.

Lemma attach_records_ok_rooted self records : forall w w2,
  wf_heap (root_node self) (nodes w) ->
  parent_consistent (nodes w) ->
  Forall (keyed_record (nesting_levels self)) records ->
  rooted (nesting_levels self) (root_node self) (nodes w) ->
  attach_records self records w = (Ok tt, w2) ->
  rooted (nesting_levels self) (root_node self) (nodes w2)
  /\ parent_consistent (nodes w2).
Proof.
  induction records as [|x xs IH]; intros w w2 Hwf Hpc Hall Hrooted Hrun.
  - injection Hrun as <-. now split.
  - apply List.Forall_cons_iff in Hall as [Hx Hxs].
    pose proof Hx as (items & -> & _).
    simpl in Hrun.
    apply bind_run in Hrun as [([] & w1 & Hrun1 & Hrun)|(e & _ & [=])].
    destruct (attach_record_preserves self _ w _ _ Hwf Hrun1) as (Hwf1 & _).
    pose proof (attach_record_parents self _ w _ _ Hwf Hpc Hrun1) as Hpc1.
    pose proof (attach_record_rooted self items w w1 Hwf Hx Hrooted Hrun1)
      as Hrooted1.
    exact (IH w1 w2 Hwf1 Hpc1 Hxs Hrooted1 Hrun).
Qed.

(** The node at the end of a path as long as the levels has no
    children. *)
Lemma rooted_leaf (ok : string -> value -> Prop) levels root h leaf :
  wf_heap root h -> parent_consistent h -> rooted levels root h ->
  branch_to ok h root levels leaf ->
  is_leaf h leaf = true.
Proof.
  intros Hwf Hpc Hrooted Hp. unfold is_leaf.
  destruct (node_children h leaf) as [|c cs] eqn:Hch; [reflexivity|exfalso].
  assert (Hin : In c (node_children h leaf)) by (rewrite Hch; now left).
  destruct (proj2 Hwf leaf c Hin) as (_ & Hc & Hroot).
  destruct (Hrooted c Hc Hroot) as (pre & post & Hsplit & Hpre).
  assert (Hlong : branch_to (fun _ _ => True) h root (levels ++ ["level"]) c).
  { apply branch_to_snoc. exists leaf. splits; [|exact Hin|exact I].
    apply (branch_to_impl ok); [auto|exact Hp]. }
  pose proof (path_length_unique _ _ _ _ Hwf Hpc _ _ _ _ Hlong Hpre) as Hlen.
  rewrite Hsplit, !length_app in Hlen. simpl in Hlen. lia.
Qed.

Lemma dict_get_children h (f : node_id -> value) cs c v :
  labels_distinct (map (node_name h) cs) = true ->
  hashable v = true ->
  In c cs -> py_eq (node_name h c) v = true ->
  dict_get (map (fun c' => (node_name h c', f c')) cs) v = Some (f c).
Proof.
  intros Hd Hh. induction cs as [|x xs IH]; intros Hin Hm; [destruct Hin|].
  simpl in Hd. apply andb_prop in Hd as [Hx Hd]. simpl.
  destruct Hin as [->|Hin]; [now rewrite Hm|].
  destruct (py_eq (node_name h x) v) eqn:Hxv; [exfalso|now apply IH].
  rewrite forallb_forall in Hx.
  specialize (Hx (node_name h c) (in_map (node_name h) xs c Hin)).
  assert (Hvc : py_eq v (node_name h c) = true).
  { rewrite (py_eq_sym_hashable v (node_name h c)) by now left. exact Hm. }
  rewrite (py_eq_trans_hashable _ v _ Hh Hxv Hvc) in Hx. discriminate.
Qed.

Lemma exported_lookup record h payload :
  siblings_distinct h ->
  truthy payload = true ->
  forall levels n fuel vs leaf,
    Forall2 (fun l v => getitem record (PStr l) = Ok v /\ hashable v = true)
      levels vs ->
    branch_to (matches record) h n levels leaf ->
    is_leaf h leaf = true ->
    node_values h leaf = Some payload ->
    length levels < fuel ->
    lookup_path (exported fuel h n) vs = Some payload.
Proof.
  intros Hd Ht. induction levels as [|l rest IH];
    intros n fuel vs leaf Hvs Hp Hleaf Hval Hfuel.
  - inversion Hvs; subst. cbn in Hp. subst n.
    destruct fuel as [|fuel]; [simpl in Hfuel; lia|].
    simpl. now rewrite Hleaf, Hval, Ht.
  - inversion Hvs as [|l' v ls vs' [Hv Hh] Hrest]; subst.
    destruct Hp as (c & Hin & (v0 & Hv0 & Hm) & Hp).
    assert (v0 = v) by congruence. subst v0.
    destruct fuel as [|fuel]; [simpl in Hfuel; lia|].
    assert (Hn : is_leaf h n = false).
    { unfold is_leaf. destruct (node_children h n); [destruct Hin|reflexivity]. }
    cbn [exported]. rewrite Hn. cbn [lookup_path].
    rewrite (dict_get_children h (exported fuel h) _ c v (Hd n) Hh Hin Hm).
    apply (IH c fuel vs' leaf Hrest Hp Hleaf Hval). simpl in Hfuel. lia.
Qed.

(** ** The script *)

Lemma validate_missing_run self records w :
  Forall (fun x => is_dict x = true) records ->
  offending (nesting_levels self) records <> [] ->
  _validate_input_data self (PList records) w =
    (Raise (DataAttributeMissingError
              (attribute_missing_msg
                 (length (offending (nesting_levels self) records)))),
     mkWorld (nodes w)
       (stderr w ++ map (fun r => dict_values (record_items r))
                        (offending (nesting_levels self) records))).
Proof.
  intros Hall Hoff.
  assert (Hs : list_of_records (PList records)).
  { destruct records as [|r records]; [now destruct Hoff|].
    exists r, records. auto. }
  apply structure_check in Hs. unfold _validate_input_data. rewrite Hs.
  cbn [negb]. unfold bind. rewrite count_missing_run.
  cbn [Nat.add].
  destruct (length (offending (nesting_levels self) records)) eqn:Hlen.
  - apply length_zero_iff_nil in Hlen. contradiction.
  - reflexivity.
Qed.

Lemma nest_run json_loads levels input_text :
  nest json_loads levels input_text =
    match create_tree json_loads (mkConverter levels 0) input_text fresh_world with
    | (Ok _, w1) =>
        match export_tree (mkConverter levels 0) w1 with
        | (Ok text, w) => (Printed text, w)
        | (Raise e, w) =>
            match handler e with
            | Some prefix => (Reported prefix e, w)
            | None => (Uncaught e, w)
            end
        end
    | (Raise e, w) =>
        match handler e with
        | Some prefix => (Reported prefix e, w)
        | None => (Uncaught e, w)
        end
    end.
Proof.
  unfold nest. rewrite init_run. unfold bind.
  destruct (create_tree json_loads (mkConverter levels 0) input_text fresh_world)
    as [[[]|e] w1]; reflexivity.
Qed.

(** X9 (the script on bad input): when the text on the standard input is
    no JSON, the script reports invalid JSON; when it decodes to
    something that is no non-empty list of dictionaries, the script
    reports invalid input data; when it decodes to a list of
    dictionaries of which some lack a nesting level, the script reports
    badly formed input with the number of such records, after one
    diagnostic line for each of them.  In all three cases the tree has
    only its root and nothing is printed. *)
Theorem nest_reports_bad_input (json_loads : string -> result value)
    (levels : list string) (input_text : string) :
  (json_loads input_text = Raise JSONDecodeError ->
   nest json_loads levels input_text =
     (Reported "Invalid json in input data: " JSONDecodeError, fresh_world))
  /\ (forall loaded,
        json_loads input_text = Ok loaded -> ~ list_of_records loaded ->
        nest json_loads levels input_text =
          (Reported "Invalid input data: "
             (InvalidDataStructureError invalid_structure_msg), fresh_world))
  /\ (forall records,
        json_loads input_text = Ok (PList records) ->
        Forall (fun x => is_dict x = true) records ->
        offending levels records <> [] ->
        nest json_loads levels input_text =
          (Reported "Badly formed input data: "
             (DataAttributeMissingError
                (attribute_missing_msg (length (offending levels records)))),
           mkWorld (nodes fresh_world)
             (map (fun r => dict_values (record_items r))
                  (offending levels records)))).
Proof.
  splits.
  - intros Hload. rewrite nest_run.
    now rewrite (create_tree_decode_error json_loads _ _ _ _ Hload).
  - intros loaded Hload Hbad. rewrite nest_run.
    unfold create_tree, bind, lift. rewrite Hload.
    now rewrite validate_rejects by exact Hbad.
  - intros records Hload Hall Hoff. rewrite nest_run.
    unfold create_tree, bind, lift. rewrite Hload.
    now rewrite (validate_missing_run (mkConverter levels 0) records fresh_world
                   Hall Hoff).
Qed.

Lemma nest_reports_bad_input_witness :
  nest json_decode example_levels bare_input =
    (Reported "Badly formed input data: "
       (DataAttributeMissingError "Key elements were missing in 1 records"),
     mkWorld (nodes fresh_world) [[PStr "x"]]).
Proof.
  apply (proj2 (proj2 (nest_reports_bad_input json_decode example_levels
                         bare_input)) [bare_record]).
  - vm_compute. reflexivity.
  - repeat constructor.
  - discriminate.
Defined.




(** ** Errors of the export *)

Lemma key_lt_errors k1 k2 e : key_lt k1 k2 = Raise e -> e = TypeError.
Proof. destruct k1, k2; simpl; congruence. Qed.

Lemma insert_item_errors {A} (x : value * A) l e :
  insert_item x l = Raise e -> e = TypeError.
Proof.
  induction l as [|y l IH]; simpl; [discriminate|].
  destruct (key_lt (fst x) (fst y)) as [[|]|e'] eqn:Hlt.
  - discriminate.
  - destruct (insert_item x l); [discriminate|]. intros [= <-]. now apply IH.
  - intros [= <-]. exact (key_lt_errors _ _ _ Hlt).
Qed.

Lemma sort_items_errors {A} (l : list (value * A)) e :
  sort_items l = Raise e -> e = TypeError.
Proof.
  induction l as [|x l IH]; simpl; [discriminate|].
  destruct (sort_items l) as [s|e'].
  - apply insert_item_errors.
  - intros [= <-]. now apply IH.
Qed.

Lemma key_texts_errors {A} (l : list (value * A)) e :
  key_texts l = Raise e -> e = TypeError.
Proof.
  induction l as [|[k a] l IH]; simpl; [discriminate|].
  destruct (key_text k) as [s|e'] eqn:Hk.
  - destruct (key_texts l) as [r|e'']; [discriminate|].
    intros [= <-]. now apply IH.
  - intros [= <-]. destruct k as [|[|]| | | |]; simpl in Hk; congruence.
Qed.

(** The encoder raises nothing but [TypeError]. *)
Lemma to_doc_errors v : forall e, to_doc v = Raise e -> e = TypeError.
Proof.
  induction v as [|b|z|s|xs IH|items IH] using value_nested_ind; intros e.
  - discriminate.
  - destruct b; discriminate.
  - discriminate.
  - discriminate.
  - cbn [to_doc].
    match goal with
    | |- match ?F xs with _ => _ end = _ -> _ =>
        assert (HF : forall e', F xs = Raise e' -> e' = TypeError)
    end.
    { induction xs as [|x xs IHxs]; [discriminate|].
      apply List.Forall_cons_iff in IH as [IHx IH]. intros e'.
      destruct (to_doc x) as [d|e1] eqn:Hx.
      - specialize (IHxs IH).
        match goal with
        | |- match ?G with _ => _ end = _ -> _ => destruct G as [r|e2]
        end; [discriminate|]. intros [= <-]. now apply IHxs.
      - intros [= <-]. now apply IHx. }
    match goal with
    | |- match ?G with _ => _ end = _ -> _ => destruct G as [ds|e1]
    end; [discriminate|]. intros [= <-]. now apply HF.
  - cbn [to_doc].
    match goal with
    | |- match ?F items with _ => _ end = _ -> _ =>
        assert (HF : forall e', F items = Raise e' -> e' = TypeError)
    end.
    { induction items as [|[k x] items IHitems]; [discriminate|].
      apply List.Forall_cons_iff in IH as [[_ IHx] IH]. cbn [snd] in IHx.
      intros e'.
      destruct (to_doc x) as [d|e1] eqn:Hx.
      - specialize (IHitems IH).
        match goal with
        | |- match ?G with _ => _ end = _ -> _ => destruct G as [r|e2]
        end; [discriminate|]. intros [= <-]. now apply IHitems.
      - intros [= <-]. now apply IHx. }
    match goal with
    | |- match ?G with _ => _ end = _ -> _ => destruct G as [ms|e1]
    end; [|intros [= <-]; now apply HF].
    destruct (sort_items ms) as [sorted|e1] eqn:Hsort;
      [|intros [= <-]; exact (sort_items_errors _ _ Hsort)].
    destruct (key_texts sorted) as [r|e1] eqn:Htexts; [discriminate|].
    intros [= <-]. exact (key_texts_errors _ _ Htexts).
Qed.

(** X11 (the export fails only in the encoder): after a successful
    [create_tree] on a new converter, for records with hashable values
    at the nesting levels, [export_tree] returns the text that
    [json.dumps] gives for the exported dictionary or raises
    [TypeError]; it raises none of the exceptions of the converter, and
    it leaves the tree as it is. *)
Theorem export_raises_only_type_error
    (json_loads : string -> result value) (levels : list string)
    (input_data : string) (records : list value) (w2 : world) :
  json_loads input_data = Ok (PList records) ->
  Forall (keyed_record levels) records ->
  create_tree json_loads (mkConverter levels 0) input_data fresh_world
    = (Ok tt, w2) ->
  (exists text, export_tree (mkConverter levels 0) w2 = (Ok text, w2))
  \/ export_tree (mkConverter levels 0) w2 = (Raise TypeError, w2).
Proof.
  intros Hload Hall Hrun.
  set (self := mkConverter levels 0) in *.
  assert (Hacc : Forall (acceptable (fun v => hashable v = true)
                           (fun v => truthy v = true) levels) records).
  { apply Forall_forall. intros x Hx. rewrite Forall_forall in Hall.
    destruct (Hall x Hx) as (its & -> & Hj & _ & Hh).
    exists its. now splits. }
  destruct (create_tree_ok_invariants _ _ json_loads self input_data records
              fresh_world w2 Hload Hacc fresh_world_wf
              (fresh_world_labelled _) (fresh_world_payloads _) Hrun)
    as (Hwf & Hroot & Hlab & Hpay).
  destruct (create_tree_preserves json_loads self input_data fresh_world _ _
              fresh_world_wf Hrun) as (_ & Hd).
  specialize (Hd fresh_world_distinct).
  pose proof (exportable_of_invariants _ _ _ Hwf Hlab Hpay) as Hexp.
  rewrite (export_tree_run self w2 Hwf Hd Hexp Hroot). unfold json_dumps.
  destruct (to_doc _) as [d|e] eqn:Hdoc; [left; eauto|right].
  now rewrite (to_doc_errors _ _ Hdoc).
Qed.

Lemma export_raises_only_type_error_witness :
  (exists text, export_tree example_converter example_tree_world
                = (Ok text, example_tree_world))
  \/ export_tree example_converter example_tree_world
     = (Raise TypeError, example_tree_world).
Proof.
  apply (export_raises_only_type_error json_decode example_levels
           example_input example_records example_tree_world).
  - exact example_input_decodes.
  - repeat constructor; apply example_record_keyed.
  - vm_compute. reflexivity.
Defined.

(** ** A second call of [create_tree] *)

(** X12 (no record is added twice): after a successful [create_tree]
    on a list of complete records with hashable values at the nesting
    levels, a further call on the same converter, with an input that is
    again such a list and has a record whose values at the nesting
    levels equal those of a record of the first input, raises
    [DuplicateNodesFoundError]. *)
Theorem create_tree_again_rejected
    (json_loads : string -> result value) (self : RecordsToTreeConverter)
    (input1 input2 : string) (records1 records2 : list value)
    (r1 r2 : value) (w w1 : world) :
  nesting_levels self <> [] ->
  wf_heap (root_node self) (nodes w) ->
  json_loads input1 = Ok (PList records1) ->
  Forall (keyed_record (nesting_levels self)) records1 ->
  json_loads input2 = Ok (PList records2) ->
  Forall (keyed_record (nesting_levels self)) records2 ->
  create_tree json_loads self input1 w = (Ok tt, w1) ->
  In r1 records1 -> In r2 records2 ->
  same_tuple (nesting_levels self) r1 r2 ->
  exists site r w2,
    In r records2
    /\ create_tree json_loads self input2 w1 =
         (Raise (DuplicateNodesFoundError site (dict_values (record_items r))),
          w2).
Proof.
  intros Hlevels Hwf Hload1 Hall1 Hload2 Hall2 Hrun Hin1 Hin2 Hsame.
  assert (Hacc : Forall (acceptable (fun v => hashable v = true)
                           (fun _ => True) (nesting_levels self)) records1).
  { apply Forall_forall. intros x Hx. rewrite Forall_forall in Hall1.
    destruct (Hall1 x Hx) as (its & -> & Hj & _ & Hh).
    exists its. now splits. }
  destruct (create_tree_preserves json_loads self input1 w _ _ Hwf Hrun)
    as (Hwf1 & _).
  pose proof Hall1 as Hk1. rewrite Forall_forall in Hk1.
  destruct (Hk1 r1 Hin1) as (items1 & -> & _ & _ & Hh1).
  destruct (create_tree_ok_leaves json_loads self input1 records1 w w1 Hload1
              Hacc Hwf Hrun items1 Hin1) as (leaf & Hp & _).
  assert (Hpath : path_exists (nodes w1) (root_node self) (nesting_levels self)
                    r2).
  { apply (branch_impl (matches (PDict items1)));
      [exact (same_tuple_matches _ _ _ Hsame Hh1)|].
    exact (branch_to_branch _ _ _ _ _ Hp). }
  destruct (attach_records_hits self records2 w1 Hwf1 Hlevels Hall2)
    as (site & r & w2 & Hr & Hrun2); [eauto|].
  exists site, r, w2. split; [exact Hr|].
  unfold create_tree, bind, lift. rewrite Hload2.
  rewrite validate_accepts; [exact Hrun2| |].
  - intros ->. destruct Hin2.
  - intros x Hx. rewrite Forall_forall in Hall2.
    destruct (Hall2 x Hx) as (items & -> & _ & Hc & _). eauto.
Qed.

Lemma create_tree_again_rejected_witness :
  exists site r w2,
    In r example_records
    /\ create_tree json_decode example_converter example_input
         example_tree_world =
         (Raise (DuplicateNodesFoundError site (dict_values (record_items r))),
          w2).
Proof.
  apply (create_tree_again_rejected json_decode example_converter
           example_input example_input example_records example_records
           (example_record "EUR" "FR" "Lyon" 5)
           (example_record "EUR" "FR" "Lyon" 5) fresh_world
           example_tree_world).
  - discriminate.
  - exact fresh_world_wf.
  - exact example_input_decodes.
  - repeat constructor; apply example_record_keyed.
  - exact example_input_decodes.
  - repeat constructor; apply example_record_keyed.
  - vm_compute. reflexivity.
  - right. now left.
  - right. now left.
  - intros l [<-|[<-|[<-|[]]]]; do 2 eexists; splits; reflexivity.
Defined.

(** ** The path of the returned leaf *)


(** After a successful call the returned leaf is reached from the
    current node by one child per level, whose label is the value of the
    record at the level (a node of this call) or equals it (a node that
    was there). *)
Lemma build_branch_levels_path_carries self levels :
  forall cur record w leaf w1,
    wf_heap (root_node self) (nodes w) ->
    cur < length (nodes w) ->
    build_branch_levels self levels (Some cur) record w = (Ok leaf, w1) ->
    branch_to (carries record) (nodes w1) cur levels leaf.
Proof.
  induction levels as [|level rest IH]; intros cur record w leaf w1 Hwf Hcur Hrun.
  - pose proof (build_branch_levels_ok_truthy _ _ _ _ _ _ _ Hrun) as Ht.
    rewrite build_branch_levels_nil in Hrun by assumption.
    destruct (Nat.eqb _ _); [discriminate|]. now injection Hrun as <- _.
  - pose proof (build_branch_levels_ok_truthy _ _ _ _ _ _ _ Hrun) as Ht.
    destruct (build_branch_levels_ok_step _ _ _ _ _ _ _ _ Ht Hrun)
      as (v & Hget & [(n & Hin & Heq & _ & Hrun')|(Hex & Hrun')]).
    + destruct (proj2 Hwf _ _ Hin) as (Hlt & Hn & _).
      destruct (build_branch_levels_inv self rest n record w Ht Hwf Hn)
        as (_ & _ & [_ Hgrow] & _). rewrite Hrun' in Hgrow. cbn [snd] in Hgrow.
      exists n. splits.
      * destruct (Hgrow cur Hcur) as (_ & _ & _ & _ & Hsame). now rewrite Hsame.
      * exists v. split; [exact Hget|]. right.
        destruct (Hgrow n Hn) as (Hname & _). unfold node_name. now rewrite Hname.
      * now apply (IH n record w leaf w1).
    + set (w' := snd (new_node v (Some cur) w)) in *.
      destruct (new_node_preserves (root_node self) v cur w Hwf Hcur Hex)
        as (Hwf' & _ & _). fold w' in Hwf'.
      destruct (new_node_heap v cur w Hcur) as (_ & _ & Hlen & Hnew & _).
      fold w' in Hlen, Hnew.
      assert (Hn : length (nodes w) < length (nodes w')) by lia.
      destruct (build_branch_levels_inv self rest (length (nodes w)) record w'
                  Ht Hwf' Hn) as (_ & _ & [_ Hgrow] & _).
      rewrite Hrun' in Hgrow. cbn [snd] in Hgrow.
      exists (length (nodes w)). splits.
      * destruct (Hgrow cur ltac:(lia)) as (_ & _ & _ & _ & Hsame).
        rewrite Hsame by assumption. unfold w'.
        rewrite new_node_children, Nat.eqb_refl by assumption.
        apply in_or_app. right. now left.
      * exists v. split; [exact Hget|]. left.
        destruct (Hgrow (length (nodes w)) Hn) as (Hname & _).
        unfold node_name. now rewrite Hname, Hnew.
      * now apply (IH (length (nodes w)) record w' leaf w1).
Qed.

(** X2 (the returned leaf): when [_build_branch], called at the root of
    a well-formed tree with the nesting levels, returns, the node it
    returns is a node created by this call, is not the root, has no
    children, and is reached from the root by one child per nesting
    level, whose label is the value of the record at that level or
    equals it. *)
Theorem build_branch_returns_new_leaf (self : RecordsToTreeConverter)
    (record : value) (w : world) (leaf : node_id) (w1 : world) :
  wf_heap (root_node self) (nodes w) ->
  _build_branch self (Some (nesting_levels self)) (Some (root_node self))
    record w = (Ok leaf, w1) ->
  length (nodes w) <= leaf
  /\ leaf < length (nodes w1)
  /\ leaf <> root_node self
  /\ is_leaf (nodes w1) leaf = true
  /\ branch_to (carries record) (nodes w1) (root_node self)
       (nesting_levels self) leaf.
Proof.
  intros Hwf Hrun. rewrite build_branch_some in Hrun.
  pose proof (build_branch_levels_ok_truthy _ _ _ _ _ _ _ Hrun) as Ht.
  assert (Hne : nesting_levels self <> []).
  { intros Hnil. rewrite Hnil in Hrun.
    rewrite build_branch_levels_nil, Nat.eqb_refl in Hrun by assumption.
    discriminate. }
  destruct (build_branch_levels_inv self (nesting_levels self) (root_node self)
              record w Ht Hwf (proj1 Hwf)) as (_ & _ & _ & _ & Hleaf & _).
  rewrite Hrun in Hleaf. cbn [fst snd] in Hleaf.
  destruct (Hleaf leaf eq_refl) as (Hlt & _ & Hroot).
  splits; auto.
  - eapply build_branch_levels_leaf_new; eauto. exact (proj1 Hwf).
  - eapply build_branch_levels_leaf_childless; eauto. exact (proj1 Hwf).
  - eapply build_branch_levels_path_carries; eauto. exact (proj1 Hwf).
Qed.

Lemma build_branch_returns_new_leaf_witness :
  length (nodes one_branch_world) <= 4
  /\ 4 < length (nodes two_branch_world)
  /\ 4 <> root_node example_converter
  /\ is_leaf (nodes two_branch_world) 4 = true
  /\ branch_to (carries (example_record "EUR" "FR" "Lyon" 5))
       (nodes two_branch_world) 0 example_levels 4.
Proof.
  apply (build_branch_returns_new_leaf example_converter
           (example_record "EUR" "FR" "Lyon" 5) one_branch_world 4
           two_branch_world).
  - exact one_branch_world_wf.
  - vm_compute. reflexivity.
Defined.

(** ** Records with equal values at the first levels *)

(** In a tree with unique sibling labels, the nodes that the values of
    two records lead to along some levels are one node, when the values
    are equal. *)
Lemma branch_to_unique (root : node_id) (h : heap) (pre : list string)
    (record1 record2 : value) :
  siblings_distinct h ->
  (forall l, In l pre ->
     exists v1 v2, getitem record1 (PStr l) = Ok v1
                   /\ getitem record2 (PStr l) = Ok v2
                   /\ hashable v1 = true /\ py_eq v1 v2 = true) ->
  forall cur n1 n2,
    branch_to (matches record1) h cur pre n1 ->
    branch_to (matches record2) h cur pre n2 ->
    n1 = n2.
Proof.
  intros Hd Heq. induction pre as [|level pre IH]; intros cur n1 n2 H1 H2.
  - cbn in H1, H2. congruence.
  - destruct H1 as (c1 & Hin1 & (v1 & Hg1 & Hm1) & Hr1).
    destruct H2 as (c2 & Hin2 & (v2 & Hg2 & Hm2) & Hr2).
    destruct (Heq level ltac:(now left)) as (v1' & v2' & Hg1' & Hg2' & Hh & Hv).
    assert (v1' = v1) by congruence. assert (v2' = v2) by congruence. subst.
    assert (c1 = c2) by (eapply matching_child_unique; eauto). subst c2.
    apply (IH ltac:(intros l Hl; apply Heq; now right) c1); assumption.
Qed.

Lemma carries_matches record levels h :
  (forall l v, In l levels -> getitem record (PStr l) = Ok v ->
     hashable v = true) ->
  forall cur leaf,
    branch_to (carries record) h cur levels leaf ->
    branch_to (matches record) h cur levels leaf.
Proof.
  intros Hh cur leaf. apply branch_to_impl.
  intros l label Hl (v & Hv & [->|Hm]); exists v; split; auto.
  apply py_eq_refl_hashable. exact (Hh l v Hl Hv).
Qed.

(** X4 (grouping): when [_build_branch] has built the branch of one
    record and then builds the branch of a second record whose values
    at the first nesting levels are hashable and equal ([==]) those of
    the first, both leaves hang below one and the same node, the node
    that these first levels lead to from the root. *)
Theorem build_branch_shares_prefix (self : RecordsToTreeConverter)
    (pre post : list string) (record1 record2 : value)
    (w w1 w2 : world) (leaf1 leaf2 : node_id) :
  tree_invariant (root_node self) (nodes w) ->
  nesting_levels self = pre ++ post ->
  (forall l, In l pre ->
     exists v1 v2, getitem record1 (PStr l) = Ok v1
                   /\ getitem record2 (PStr l) = Ok v2
                   /\ hashable v1 = true /\ py_eq v1 v2 = true) ->
  _build_branch self (Some (nesting_levels self)) (Some (root_node self))
    record1 w = (Ok leaf1, w1) ->
  _build_branch self (Some (nesting_levels self)) (Some (root_node self))
    record2 w1 = (Ok leaf2, w2) ->
  exists mid,
    branch_to (matches record1) (nodes w2) (root_node self) pre mid
    /\ branch_to (matches record2) (nodes w2) (root_node self) pre mid
    /\ branch_to (carries record1) (nodes w2) mid post leaf1
    /\ branch_to (carries record2) (nodes w2) mid post leaf2.
Proof.
  intros [Hwf Hd] Hsplit Heq Hrun1 Hrun2.
  rewrite build_branch_some in Hrun1, Hrun2.
  pose proof (build_branch_levels_ok_truthy _ _ _ _ _ _ _ Hrun1) as Ht1.
  pose proof (build_branch_levels_ok_truthy _ _ _ _ _ _ _ Hrun2) as Ht2.
  destruct (build_branch_levels_inv self (nesting_levels self) (root_node self)
              record1 w Ht1 Hwf (proj1 Hwf)) as (Hwf1 & Hd1 & _).
  rewrite Hrun1 in Hwf1, Hd1. cbn [snd] in Hwf1, Hd1. specialize (Hd1 Hd).
  destruct (build_branch_levels_inv self (nesting_levels self) (root_node self)
              record2 w1 Ht2 Hwf1 (proj1 Hwf1)) as (Hwf2 & Hd2 & Hg2 & _).
  rewrite Hrun2 in Hwf2, Hd2, Hg2. cbn [snd] in Hwf2, Hd2, Hg2.
  specialize (Hd2 Hd1).
  pose proof (build_branch_levels_path_carries self _ _ _ _ _ _ Hwf (proj1 Hwf)
                Hrun1) as Hp1.
  pose proof (build_branch_levels_path_carries self _ _ _ _ _ _ Hwf1
                (proj1 Hwf1) Hrun2) as Hp2.
  apply (branch_to_extends _ _ _ _ _ _ Hwf1 (grows_below_extends _ _ _ Hg2)
           _ (proj1 Hwf1)) in Hp1.
  rewrite Hsplit in Hp1, Hp2.
  apply branch_to_app in Hp1 as (mid1 & Hpre1 & Hpost1).
  apply branch_to_app in Hp2 as (mid2 & Hpre2 & Hpost2).
  assert (Hm1 : branch_to (matches record1) (nodes w2) (root_node self) pre mid1).
  { apply carries_matches; [|exact Hpre1]. intros l v Hl Hv.
    destruct (Heq l Hl) as (v1 & v2 & H1 & _ & Hh & _). congruence. }
  assert (Hm2 : branch_to (matches record2) (nodes w2) (root_node self) pre mid2).
  { apply carries_matches; [|exact Hpre2]. intros l v Hl Hv.
    destruct (Heq l Hl) as (v1 & v2 & _ & H2 & Hh & He).
    assert (v = v2) by congruence. subst v.
    exact (hashable_py_eq_r v1 v2 Hh He). }
  assert (mid1 = mid2)
    by exact (branch_to_unique (root_node self) _ _ _ _ Hd2 Heq _ _ _ Hm1 Hm2).
  subst mid2. exists mid1. now splits.
Qed.

Lemma build_branch_shares_prefix_witness :
  exists mid,
    branch_to (matches (example_record "EUR" "FR" "Paris" 10))
      (nodes two_branch_world) 0 ["currency"; "country"] mid
    /\ branch_to (matches (example_record "EUR" "FR" "Lyon" 5))
         (nodes two_branch_world) 0 ["currency"; "country"] mid
    /\ branch_to (carries (example_record "EUR" "FR" "Paris" 10))
         (nodes two_branch_world) mid ["city"] 3
    /\ branch_to (carries (example_record "EUR" "FR" "Lyon" 5))
         (nodes two_branch_world) mid ["city"] 4.
Proof.
  apply (build_branch_shares_prefix example_converter
           ["currency"; "country"] ["city"]
           (example_record "EUR" "FR" "Paris" 10)
           (example_record "EUR" "FR" "Lyon" 5)
           fresh_world one_branch_world two_branch_world 3 4).
  - split; [exact fresh_world_wf|exact fresh_world_distinct].
  - reflexivity.
  - intros l [<-|[<-|[]]].
    + exists (PStr "EUR"), (PStr "EUR"). now splits.
    + exists (PStr "FR"), (PStr "FR"). now splits.
  - vm_compute. reflexivity.
  - vm_compute. reflexivity.
Defined.

(** ** Every path carries a record *)

Lemma build_branch_levels_new_carries self levels :
  forall cur record w leaf w1,
    wf_heap (root_node self) (nodes w) ->
    cur < length (nodes w) ->
    build_branch_levels self levels (Some cur) record w = (Ok leaf, w1) ->
    forall m, length (nodes w) <= m -> m < length (nodes w1) ->
      exists pre post,
        levels = pre ++ post
        /\ branch_to (carries record) (nodes w1) cur pre m.
Proof.
  induction levels as [|level rest IH];
    intros cur record w leaf w1 Hwf Hcur Hrun m Hm1 Hm2.
  - pose proof (build_branch_levels_ok_truthy _ _ _ _ _ _ _ Hrun) as Ht.
    rewrite build_branch_levels_nil in Hrun by assumption.
    destruct (Nat.eqb _ _); [discriminate|]. injection Hrun as _ <-. lia.
  - pose proof (build_branch_levels_ok_truthy _ _ _ _ _ _ _ Hrun) as Ht.
    destruct (build_branch_levels_ok_step _ _ _ _ _ _ _ _ Ht Hrun)
      as (v & Hget & [(n & Hin & Heq & _ & Hrun')|(Hex & Hrun')]).
    + destruct (proj2 Hwf _ _ Hin) as (Hlt & Hn & _).
      destruct (build_branch_levels_inv self rest n record w Ht Hwf Hn)
        as (_ & _ & [_ Hgrow] & _). rewrite Hrun' in Hgrow. cbn [snd] in Hgrow.
      destruct (IH n record w leaf w1 Hwf Hn Hrun' m Hm1 Hm2)
        as (pre & post & Hsplit & Hp).
      exists (level :: pre), post. split; [now rewrite Hsplit|].
      exists n. splits.
      * destruct (Hgrow cur Hcur) as (_ & _ & _ & _ & Hsame). now rewrite Hsame.
      * exists v. split; [exact Hget|]. right.
        destruct (Hgrow n Hn) as (Hname & _). unfold node_name. now rewrite Hname.
      * exact Hp.
    + set (w0 := snd (new_node v (Some cur) w)) in *.
      destruct (new_node_preserves (root_node self) v cur w Hwf Hcur Hex)
        as (Hwf' & _ & _). fold w0 in Hwf'.
      destruct (new_node_heap v cur w Hcur) as (_ & _ & Hlen & Hnew & _).
      fold w0 in Hlen, Hnew.
      assert (Hn : length (nodes w) < length (nodes w0)) by lia.
      destruct (build_branch_levels_inv self rest (length (nodes w)) record w0
                  Ht Hwf' Hn) as (_ & _ & [_ Hgrow] & _).
      rewrite Hrun' in Hgrow. cbn [snd] in Hgrow.
      assert (Hstep : In (length (nodes w)) (node_children (nodes w1) cur)
                      /\ carries record level
                           (node_name (nodes w1) (length (nodes w)))).
      { split.
        - destruct (Hgrow cur ltac:(lia)) as (_ & _ & _ & _ & Hsame).
          rewrite Hsame by assumption. unfold w0.
          rewrite new_node_children, Nat.eqb_refl by assumption.
          apply in_or_app. right. now left.
        - exists v. split; [exact Hget|]. left.
          destruct (Hgrow (length (nodes w)) Hn) as (Hname & _).
          unfold node_name. now rewrite Hname, Hnew. }
      destruct Hstep as [Hchild Hcarry].
      destruct (Nat.eq_dec m (length (nodes w))) as [->|Hmne].
      * exists [level], rest. split; [reflexivity|].
        exists (length (nodes w)). now splits.
      * destruct (IH (length (nodes w)) record w0 leaf w1 Hwf' Hn Hrun' m)
          as (pre & post & Hsplit & Hp); [lia|exact Hm2|].
        exists (level :: pre), post. split; [now rewrite Hsplit|].
        exists (length (nodes w)). now splits.
Qed.

Lemma attach_record_accounted self items w w2 seen :
  wf_heap (root_node self) (nodes w) ->
  parent_consistent (nodes w) ->
  decoded_record (nesting_levels self) (PDict items) ->
  accounted (nesting_levels self) (root_node self) (nodes w) seen ->
  attach_record self (PDict items) w = (Ok tt, w2) ->
  accounted (nesting_levels self) (root_node self) (nodes w2)
    (seen ++ [PDict items]).
Proof.
  intros Hwf Hpc (items' & Heq & Hj & Hc) Hcov Hrun. injection Heq as <-.
  destruct (attach_record_ok_build self items w w2 Hwf Hj Hc Hrun)
    as (leaf0 & w1 & Hb & ->).
  pose proof (build_branch_levels_ok_truthy _ _ _ _ _ _ _ Hb) as Ht.
  destruct (build_branch_levels_inv self (nesting_levels self) (root_node self)
              (PDict items) w Ht Hwf (proj1 Hwf)) as (Hwf1 & _ & Hg & _).
  pose proof (build_branch_levels_parents self (nesting_levels self)
                (root_node self) (PDict items) w Hwf (proj1 Hwf) Hpc) as Hpc1.
  rewrite Hb in Hwf1, Hg, Hpc1. cbn [snd] in Hwf1, Hg, Hpc1.
  intros leaf Hp. apply branch_to_set_values in Hp.
  pose proof (branch_to_end _ _ _ _ Hwf1 _ _ (proj1 Hwf1) Hp) as Hleaf.
  destruct (Nat.lt_ge_cases leaf (length (nodes w))) as [Hold|Hnew].
  - pose proof (branch_to_old _ _ _ _ _ _ Hwf1 Hpc Hpc1 Hg _ _ Hold Hp) as Hp0.
    destruct (Hcov leaf Hp0) as (r & Hr & Hpr).
    exists r. split; [apply in_or_app; now left|].
    apply branch_to_set_values.
    exact (branch_to_extends _ _ _ _ _ _ Hwf (grows_below_extends _ _ _ Hg)
             _ (proj1 Hwf) Hpr).
  - destruct (build_branch_levels_new_carries self (nesting_levels self)
                (root_node self) (PDict items) w leaf0 w1 Hwf (proj1 Hwf) Hb
                leaf Hnew Hleaf) as (pre & post & Hsplit & Hpre).
    pose proof (path_length_unique _ _ _ _ Hwf1 Hpc1 _ _ _ _ Hp Hpre) as Hlen.
    rewrite Hsplit, length_app in Hlen.
    assert (Hpost : post = []) by (destruct post; [reflexivity|simpl in Hlen; lia]).
    rewrite Hpost, app_nil_r in Hsplit. rewrite <- Hsplit in Hpre.
    exists (PDict items). split; [apply in_or_app; right; now left|].
    now apply branch_to_set_values.
Qed.

Lemma attach_records_ok_accounted self records : forall seen w w2,
  wf_heap (root_node self) (nodes w) ->
  parent_consistent (nodes w) ->
  Forall (decoded_record (nesting_levels self)) records ->
  accounted (nesting_levels self) (root_node self) (nodes w) seen ->
  attach_records self records w = (Ok tt, w2) ->
  accounted (nesting_levels self) (root_node self) (nodes w2) (seen ++ records).
Proof.
  induction records as [|x xs IH]; intros seen w w2 Hwf Hpc Hall Hcov Hrun.
  - injection Hrun as <-. now rewrite app_nil_r.
  - apply List.Forall_cons_iff in Hall as [Hx Hxs].
    pose proof Hx as (items & -> & _).
    simpl in Hrun.
    apply bind_run in Hrun as [([] & w1 & Hrun1 & Hrun)|(e & _ & [=])].
    destruct (attach_record_preserves self _ w _ _ Hwf Hrun1) as (Hwf1 & _).
    pose proof (attach_record_parents self _ w _ _ Hwf Hpc Hrun1) as Hpc1.
    pose proof (attach_record_accounted self items w w1 seen Hwf Hpc Hx Hcov
                  Hrun1) as Hcov1.
    pose proof (IH (seen ++ [PDict items]) w1 w2 Hwf1 Hpc1 Hxs Hcov1 Hrun) as H.
    now rewrite <- app_assoc in H.
Qed.

Lemma childless_accounted levels root h :
  levels <> [] -> is_leaf h root = true -> accounted levels root h [].
Proof.
  intros Hne Hleaf leaf Hp. destruct levels as [|l rest]; [congruence|].
  destruct Hp as (c & Hin & _). unfold is_leaf in Hleaf.
  destruct (node_children h root); [destruct Hin|discriminate].
Qed.

(** X7 (no path without a record): after a successful [create_tree] on
    a well-formed tree whose root has no children, for an input that
    decodes to JSON objects, every path from the root that is as long as
    the list of nesting levels is the path of one of the records of the
    input: each label is the value of that record at the level or equals
    it. *)
Theorem create_tree_paths_are_records
    (json_loads : string -> result value) (self : RecordsToTreeConverter)
    (input_data : string) (records : list value) (w w2 : world)
    (leaf : node_id) :
  json_loads input_data = Ok (PList records) ->
  Forall (fun r => exists items, r = PDict items /\ json_object items)
    records ->
  wf_heap (root_node self) (nodes w) ->
  parent_consistent (nodes w) ->
  is_leaf (nodes w) (root_node self) = true ->
  create_tree json_loads self input_data w = (Ok tt, w2) ->
  branch_to (fun _ _ => True) (nodes w2) (root_node self)
    (nesting_levels self) leaf ->
  exists r, In r records
            /\ branch_to (carries r) (nodes w2) (root_node self)
                 (nesting_levels self) leaf.
Proof.
  intros Hload Hall Hwf Hpc Hleaf Hrun Hp.
  assert (Hattach : attach_records self records w = (Ok tt, w2)
                    /\ Forall (complete (nesting_levels self)) records).
  { unfold create_tree in Hrun.
    apply bind_run in Hrun as [(loaded & w0 & Hl & Hrun)|(e & _ & [=])].
    unfold lift in Hl. rewrite Hload in Hl. injection Hl as <- <-.
    apply bind_run in Hrun as [(valid & w1 & Hval & Hrun)|(e & _ & [=])].
    apply validate_ok in Hval as (-> & -> & r & rs & Heq & Hc).
    injection Heq as ->. split; [exact Hrun|].
    apply Forall_forall. intros x Hx. now destruct (Hc x Hx) as (_ & _ & ?). }
  destruct Hattach as [Hattach Hcomplete].
  assert (Hdec : Forall (decoded_record (nesting_levels self)) records).
  { rewrite Forall_forall in Hall, Hcomplete. apply Forall_forall.
    intros x Hx. destruct (Hall x Hx) as (items & -> & Hj).
    exists items. splits; auto. }
  assert (Hlevels : nesting_levels self <> []).
  { intros Hnil. destruct records as [|x xs].
    - unfold create_tree, bind, lift in Hrun. rewrite Hload in Hrun.
      now rewrite validate_rejects in Hrun
        by (intros (r & rs & [=] & _)).
    - apply List.Forall_cons_iff in Hdec as [(items & -> & Hj & Hc) _].
      simpl in Hattach.
      apply bind_run in Hattach as [([] & w1 & Hrun1 & _)|(e & _ & [=])].
      destruct (attach_record_ok_build self items w w1 Hwf Hj Hc Hrun1)
        as (leaf0 & w0 & Hb & _).
      pose proof (build_branch_levels_ok_truthy _ _ _ _ _ _ _ Hb) as Ht.
      rewrite Hnil, build_branch_levels_nil, Nat.eqb_refl in Hb by exact Ht.
      discriminate. }
  exact (attach_records_ok_accounted self records [] w w2 Hwf Hpc Hdec
           (childless_accounted _ _ _ Hlevels Hleaf) Hattach leaf Hp).
Qed.

Lemma example_records_objects :
  Forall (fun r => exists items, r = PDict items /\ json_object items)
    example_records.
Proof.
  repeat constructor; (eexists; split; [reflexivity|]; split;
    [repeat constructor; eauto
    |repeat constructor; simpl; intuition discriminate]).
Qed.

Lemma create_tree_paths_are_records_witness :
  exists r, In r example_records
            /\ branch_to (carries r) (nodes example_tree_world) 0
                 example_levels 6.
Proof.
  apply (create_tree_paths_are_records json_decode example_converter
           example_input example_records fresh_world example_tree_world 6).
  - exact example_input_decodes.
  - exact example_records_objects.
  - exact fresh_world_wf.
  - exact fresh_world_parents.
  - reflexivity.
  - vm_compute. reflexivity.
  - rewrite example_tree_world_nodes.
    exists 1. splits; [now left|exact I|].
    exists 5. splits; [right; now left|exact I|].
    exists 6. splits; [now left|exact I|reflexivity].
Defined.

(** ** The exported dictionary, for a converter in use *)

Lemma scalar_hashable v : scalar v = true -> hashable v = true.
Proof. now destruct v. Qed.

Lemma scalar_record_keyed levels record :
  scalar_record levels record -> keyed_record levels record.
Proof.
  intros (items & -> & Hj & Hc & Hs). exists items.
  splits; [reflexivity|exact Hj|exact Hc|].
  intros l v Hl Hv. apply scalar_hashable. exact (Hs l v Hl Hv).
Qed.

Lemma fresh_world_grown levels : grown_tree levels 0 (nodes fresh_world).
Proof.
  unfold grown_tree.
  splits; [exact fresh_world_wf|exact fresh_world_distinct
          |exact fresh_world_parents|apply fresh_world_rooted
          |apply fresh_world_labelled|apply fresh_world_payloads].
Qed.

(** A successful [create_tree] on records with scalar values at the
    levels keeps the invariant, and the root has children afterwards. *)
Lemma create_tree_grown json_loads self input_data records w w2 :
  grown_tree (nesting_levels self) (root_node self) (nodes w) ->
  json_loads input_data = Ok (PList records) ->
  Forall (scalar_record (nesting_levels self)) records ->
  create_tree json_loads self input_data w = (Ok tt, w2) ->
  grown_tree (nesting_levels self) (root_node self) (nodes w2)
  /\ is_leaf (nodes w2) (root_node self) = false.
Proof.
  intros (Hwf0 & Hd0 & Hpc0 & Hrooted0 & Hlab0 & Hpay0) Hload Hall Hrun.
  assert (Hacc : Forall (acceptable (fun v => scalar v = true)
                           (fun v => truthy v = true) (nesting_levels self))
                   records).
  { apply Forall_forall. intros x Hx. rewrite Forall_forall in Hall.
    destruct (Hall x Hx) as (its & -> & Hj & _ & Hs).
    exists its. now splits. }
  destruct (create_tree_ok_invariants _ _ json_loads self input_data records
              w w2 Hload Hacc Hwf0 Hlab0 Hpay0 Hrun)
    as (Hwf & Hroot & Hlab & Hpay).
  destruct (create_tree_preserves json_loads self input_data w _ _ Hwf0 Hrun)
    as (_ & Hd).
  destruct (create_tree_ok_attach _ _ _ _ _ _ Hload Hrun) as [Hattach _].
  destruct (attach_records_ok_rooted self records w w2 Hwf0 Hpc0
              (Forall_impl _ (scalar_record_keyed _) Hall) Hrooted0 Hattach)
    as [Hrooted Hpc].
  split; [|exact Hroot]. unfold grown_tree. splits; auto.
Qed.

(** What the export of a grown tree holds under the path of a leaf. *)
Lemma export_of_grown self w :
  grown_tree (nesting_levels self) (root_node self) (nodes w) ->
  is_leaf (nodes w) (root_node self) = false ->
  _export_layer (S (length (nodes w))) (nodes w) (root_node self) (PDict [])
    = Ok (PNone, exported (S (length (nodes w))) (nodes w) (root_node self))
  /\ export_tree self w
     = (json_dumps (exported (S (length (nodes w))) (nodes w) (root_node self)),
        w).
Proof.
  intros (Hwf & Hd & _ & _ & Hlab & Hpay) Hroot.
  assert (Hexp : exportable (nodes w)).
  { apply (exportable_of_invariants _ _ _ Hwf
             (labelled_impl _ _ _ _ scalar_hashable Hlab) Hpay). }
  destruct (export_layer_exported (root_node self) (nodes w) Hwf Hd Hexp
              (S (length (nodes w))) (root_node self))
    as (vals & sub' & Hlayer & _ & Hsub).
  { lia. }
  { exact (proj1 Hwf). }
  { intros H. congruence. }
  destruct (Hsub Hroot) as [-> ->].
  split; [exact Hlayer|exact (export_tree_run self w Hwf Hd Hexp Hroot)].
Qed.

Lemma branch_to_depth (ok : string -> value -> Prop) root h :
  wf_heap root h ->
  forall levels cur leaf,
    branch_to ok h cur levels leaf -> cur + length levels <= leaf.
Proof.
  intros Hwf. induction levels as [|x levels IH]; intros cur leaf H.
  - cbn in H. subst. simpl. lia.
  - destruct H as (c & Hc & _ & Hrest).
    destruct (proj2 Hwf cur c Hc) as (Hlt & _).
    specialize (IH c leaf Hrest). simpl. lia.
Qed.

(** After a successful [create_tree] on a grown tree, the leaf of every
    record of the input holds the rest of the record, and the exported
    dictionary holds this payload under the values of the record at the
    levels. *)
Lemma export_locates json_loads self input_data records w w2 items vs :
  grown_tree (nesting_levels self) (root_node self) (nodes w) ->
  json_loads input_data = Ok (PList records) ->
  Forall (scalar_record (nesting_levels self)) records ->
  create_tree json_loads self input_data w = (Ok tt, w2) ->
  In (PDict items) records ->
  Forall2 (fun l v => getitem (PDict items) (PStr l) = Ok v)
    (nesting_levels self) vs ->
  exists leaf,
    branch_to (matches (PDict items)) (nodes w2) (root_node self)
      (nesting_levels self) leaf
    /\ is_leaf (nodes w2) leaf = true
    /\ node_values (nodes w2) leaf
       = Some (PList [PDict (residual (nesting_levels self) items)])
    /\ lookup_path
         (exported (S (length (nodes w2))) (nodes w2) (root_node self)) vs
       = Some (PList [PDict (residual (nesting_levels self) items)]).
Proof.
  intros Hinv Hload Hall Hrun Hin Hvs.
  destruct (create_tree_grown json_loads self input_data records w w2 Hinv
              Hload Hall Hrun) as ((Hwf & Hd & Hpc & Hrooted & _) & Hroot).
  pose proof (Forall_impl _ (scalar_record_keyed _) Hall) as Hkeyed.
  assert (Hacc' : Forall (acceptable (fun v => hashable v = true)
                            (fun _ => True) (nesting_levels self)) records).
  { apply Forall_forall. intros x Hx. rewrite Forall_forall in Hkeyed.
    destruct (Hkeyed x Hx) as (its & -> & Hj & _ & Hh).
    exists its. now splits. }
  destruct (create_tree_ok_leaves json_loads self input_data records
              w w2 Hload Hacc' (proj1 Hinv) Hrun items Hin)
    as (leaf & Hp & Hval).
  pose proof (rooted_leaf _ _ _ _ _ Hwf Hpc Hrooted Hp) as Hleaf.
  exists leaf. splits; auto.
  apply (exported_lookup (PDict items) (nodes w2)
           (PList [PDict (residual (nesting_levels self) items)]) Hd eq_refl
           (nesting_levels self) (root_node self)
           (S (length (nodes w2))) vs leaf); auto.
  - rewrite Forall_forall in Hkeyed.
    destruct (Hkeyed _ Hin) as (its & Heq & _ & _ & Hh). injection Heq as <-.
    clear - Hvs Hh. induction Hvs as [|l v ls vs' Hv Hrest IH];
      constructor.
    + split; [exact Hv|]. apply (Hh l v); [now left|exact Hv].
    + apply IH. intros l' v' Hl'. apply Hh. now right.
  - pose proof (branch_to_depth _ _ _ Hwf _ _ _ Hp) as Hdepth.
    pose proof (branch_to_end _ _ _ _ Hwf _ _ (proj1 Hwf) Hp) as Hlen.
    lia.
Qed.

(** X8 (the export holds every record under its level values): after a
    successful [create_tree] on a converter that is new, or whose tree
    was built by such calls, for complete records whose values at the
    nesting levels are strings, integers, booleans or [None], the
    dictionary that [_export_layer] builds and [export_tree] hands to
    [json.dumps] maps the values of every record at the nesting levels,
    taken as keys in the order of the levels, to the one-element list
    that holds the rest of the record. *)
Theorem export_locates_records
    (json_loads : string -> result value) (self : RecordsToTreeConverter)
    (input_data : string) (records : list value) (w w2 : world)
    (items : dict) (vs : list value) :
  grown_tree (nesting_levels self) (root_node self) (nodes w) ->
  json_loads input_data = Ok (PList records) ->
  Forall (scalar_record (nesting_levels self)) records ->
  create_tree json_loads self input_data w = (Ok tt, w2) ->
  In (PDict items) records ->
  Forall2 (fun l v => getitem (PDict items) (PStr l) = Ok v)
    (nesting_levels self) vs ->
  grown_tree (nesting_levels self) (root_node self) (nodes w2)
  /\ exists output_dict,
       _export_layer (S (length (nodes w2))) (nodes w2) (root_node self)
         (PDict []) = Ok (PNone, output_dict)
       /\ export_tree self w2 = (json_dumps output_dict, w2)
       /\ lookup_path output_dict vs
          = Some (PList [PDict (residual (nesting_levels self) items)]).
Proof.
  intros Hinv Hload Hall Hrun Hin Hvs.
  destruct (create_tree_grown json_loads self input_data records w w2 Hinv
              Hload Hall Hrun) as (Hinv2 & Hroot).
  destruct (export_of_grown self w2 Hinv2 Hroot) as [Hlayer Hexport].
  destruct (export_locates json_loads self input_data records w w2 items vs
              Hinv Hload Hall Hrun Hin Hvs) as (leaf & _ & _ & _ & Hlookup).
  split; [exact Hinv2|]. eexists. splits; eauto.
Qed.

Lemma example_record_scalar currency country city amount :
  scalar_record example_levels (example_record currency country city amount).
Proof.
  eexists. split; [reflexivity|]. splits.
  - split.
    + repeat constructor; eauto.
    + repeat constructor; simpl; intuition discriminate.
  - apply complete_b_spec. reflexivity.
  - intros l v [<-|[<-|[<-|[]]]] H; simpl in H; injection H as <-; reflexivity.
Qed.

Lemma export_locates_records_witness :
  grown_tree example_levels 0 (nodes example_tree_world)
  /\ exists output_dict,
       _export_layer (S (length (nodes example_tree_world)))
         (nodes example_tree_world) 0 (PDict []) = Ok (PNone, output_dict)
       /\ export_tree example_converter example_tree_world
          = (json_dumps output_dict, example_tree_world)
       /\ lookup_path output_dict [PStr "EUR"; PStr "ES"; PStr "Madrid"]
          = Some (PList [PDict [(PStr "amount", PInt 7)]]).
Proof.
  apply (export_locates_records json_decode example_converter example_input
           example_records fresh_world example_tree_world
           [(PStr "currency", PStr "EUR"); (PStr "country", PStr "ES");
            (PStr "city", PStr "Madrid"); (PStr "amount", PInt 7)]
           [PStr "EUR"; PStr "ES"; PStr "Madrid"]).
  - exact (fresh_world_grown example_levels).
  - exact example_input_decodes.
  - repeat constructor; apply example_record_scalar.
  - vm_compute. reflexivity.
  - right. right. now left.
  - repeat constructor.
Defined.

(** ** The exported document *)





Lemma payloads_impl (Q Q' : value -> Prop) root h :
  (forall v, Q v -> Q' v) -> payloads Q root h -> payloads Q' root h.
Proof.
  intros Himp H n Hn Hne Hl. destruct (H n Hn Hne Hl) as (v & Hv & HQ).
  exists v. auto.
Qed.


(** ** Records without residual attributes *)






